(** * Cornerstone3D tools: CINE playback, rectangle erase, zoom clamp,
      multiframe image ids.

    A shallow embedding of the parts of the toolkit that carry logic of their
    own, with the properties proved about them.

    Conventions.
    - A JavaScript number is an IEEE 754 binary64 value: Rocq's primitive
      [float].  Step indices, voxel values and voxel indices are integers
      and are kept in [Z].
    - [x | 0] is ECMAScript's ToInt32: the integral part of [x] reduced
      modulo 2^32 into the signed 32-bit range, and 0 for NaN and the
      infinities.
    - A function that can [throw] returns a [result]; a function with side
      effects takes the state it works on and returns the new one. *)

From Stdlib Require Import ZArith Floats Lia Bool.
From stdpp Require Import base option list functions gmap strings pretty.

Local Open Scope Z_scope.

(** ** Exceptions *)

Inductive result (A : Type) : Type :=
| Ok (a : A)
| Throw (message : string).
Arguments Ok {A} a.
Arguments Throw {A} message.

(** ** JavaScript numbers *)

Module JS.

(** [typeof v === 'number'] is all the code asks of a value that may or
    may not be a number. *)
Inductive value : Type :=
| Num (x : float)
| NotNum.

(** The integral part of a finite number (the number rounded toward
    zero); NaN and the infinities have none. *)
Definition integral_part (x : float) : option Z :=
  match Prim2SF x with
  | S754_zero _ => Some 0
  | S754_finite s m e =>
      let a := if 0 <=? e then Z.pos m * 2 ^ e else Z.pos m / 2 ^ (- e) in
      Some (if s then - a else a)
  | S754_infinity _ | S754_nan => None
  end.

Definition in_int32 (z : Z) : Prop := - 2 ^ 31 <= z < 2 ^ 31.

(** Reduction modulo 2^32 into [-2^31, 2^31). *)
Definition wrap32 (z : Z) : Z := (z + 2 ^ 31) mod 2 ^ 32 - 2 ^ 31.

(** [x | 0]. *)
Definition ToInt32 (x : float) : Z :=
  match integral_part x with
  | Some z => wrap32 z
  | None => 0
  end.

(** The number that holds an integer (exact below 2^53 in magnitude). *)
Definition of_Z (z : Z) : float :=
  if z <? 0 then (- of_uint63 (Uint63.of_Z (- z)))%float
  else of_uint63 (Uint63.of_Z z).

(** The number an element of a Float32Array holds once it is stored
    ([Math.fround]): the nearest binary32 value, ties to even, and an
    infinity beyond the binary32 range.  gl-matrix makes its vectors
    ([vec3.create], [vec3.fromValues]) Float32Arrays. *)
Definition fround (x : float) : float :=
  match Prim2SF x with
  | S754_finite s m e => SF2Prim (binary_round 24 128 s m e)
  | S754_zero _ | S754_infinity _ | S754_nan => x
  end.

(** [Math.max(a, b)]: NaN when either is NaN. *)
Definition max (a b : float) : float :=
  if is_nan a || is_nan b then nan
  else if (a <? b)%float then b else a.

End JS.

(** ** CINE playback (utilities/cine/playClip) *)

Module Cine.

(** *** Frame time vector to timeouts *)

(** The variables of the loop of [_getPlayClipTimeouts]. [sample] is
    [undefined] until the first delay is taken. *)
Record TimeoutsLoop : Type := {
  timeouts : list Z;
  sample : option Z;
  isTimeVarying : bool;
  sum : float
}.

(** [if (typeof speed !== 'number' || speed <= 0) speed = 1]. *)
Definition effective_speed (speed : JS.value) : float :=
  match speed with
  | JS.NotNum => 1%float
  | JS.Num s => if (s <=? 0)%float then 1%float else s
  end.

(** [Number(vector[i])]; a missing element is [undefined], whose number is
    NaN. *)
Definition element_number (vector : list float) (i : nat) : float :=
  default nan (vector !! i).

(** The body of [for (i = 1; i < limit; i++)]. *)
Definition timeouts_step (vector : list float) (speed : float)
    (st : TimeoutsLoop) (i : nat) : TimeoutsLoop :=
  let delay := JS.ToInt32 (element_number vector i / speed)%float in
  {| timeouts := timeouts st ++ [delay];
     sample := if (i =? 1)%nat then Some delay else sample st;
     isTimeVarying :=
       if (i =? 1)%nat then isTimeVarying st
       else if bool_decide (Some delay ≠ sample st) then true
       else isTimeVarying st;
     sum := (sum st + JS.of_Z delay)%float |}.

Definition timeouts_loop (vector : list float) (speed : float) : TimeoutsLoop :=
  fold_left (timeouts_step vector speed)
    (seq 1 (length vector - 1))
    {| timeouts := []; sample := None; isTimeVarying := false; sum := 0%float |}.

(** Returns [{ timeouts, isTimeVarying }]. *)
Definition _getPlayClipTimeouts (vector : list float) (speed : JS.value)
    : list Z * bool :=
  let speed := effective_speed speed in
  let st := timeouts_loop vector speed in
  let timeouts' :=
    if (0 <? length (timeouts st))%nat then
      let delay :=
        if isTimeVarying st
        then JS.ToInt32 (sum st / JS.of_Z (Z.of_nat (length (timeouts st))))%float
        else default 0 (timeouts st !! 0%nat)
      in timeouts st ++ [delay]
    else timeouts st in
  (timeouts', isTimeVarying st).

(** *** The world the player runs in *)

Definition Element := nat.      (* an HTMLDivElement, by identity *)
Definition ViewportId := string.
Definition VolumeId := string.
Definition Ref := nat.          (* an object of this module, by identity *)
Definition TimerId := nat.

Definition Point3 : Type := float * float * float.

(** [VolumeViewport3D] stands for a [BaseVolumeViewport] that is not a
    [VolumeViewport]; [OtherViewport] for any other class. *)
Inductive ViewportType : Type :=
| StackViewport
| VolumeViewport
| VolumeViewport3D
| VideoViewport
| OtherViewport.

Definition isBaseVolumeViewport (t : ViewportType) : bool :=
  match t with
  | VolumeViewport | VolumeViewport3D => true
  | _ => false
  end.

(** [{ numScrollSteps, currentStepIndex }]. *)
Record ScrollInfo : Type := {
  si_numScrollSteps : Z;
  si_currentStepIndex : Z
}.

(** What the player reads from a viewport of the core library. *)
Record Viewport : Type := {
  vp_type : ViewportType;
  vp_imageIdsLength : Z;            (* getImageIds().length *)
  vp_targetImageIdIndex : Z;        (* getTargetImageIdIndex() *)
  vp_numberOfSlices : Z;            (* getNumberOfSlices() *)
  vp_sliceIndex : Z;                (* getSliceIndex() *)
  vp_rendered : bool;               (* viewportStatus === RENDERED *)
  vp_allVolumeIds : option (list VolumeId);    (* getAllVolumeIds() *)
  vp_viewPlaneNormal : Point3;      (* getCamera().viewPlaneNormal *)
  vp_scrollInfo : ScrollInfo;       (* csUtils.getVolumeViewportScrollInfo *)
  vp_frameRate : float;             (* getFrameRate() *)
  vp_scrollThrows : bool            (* csUtils.scroll raises on it *)
}.

(** What the player reads from a volume of the cache. *)
Record Volume : Type := {
  vol_isDynamicVolume : bool;
  vol_direction : list float;
  vol_numDimensionGroups : Z;
  vol_dimensionGroupNumber : Z;
  vol_scrollThrows : bool           (* volume.scroll raises *)
}.

(** The tool data of one clip (CINETypes.ToolData). [lastFrameTimeStamp]
    is never read or written after creation and is left out. *)
Record PlayClipData : Type := {
  intervalId : option TimerId;
  framesPerSecond : float;
  ignoreFrameTimeVector : bool;
  usingFrameTimeVector : bool;
  frameTimeVector : option (list float);
  speed : JS.value;
  reverse : bool;
  loop : bool;
  bounce : bool;
  dynamicCineEnabled : option bool
}.

(** CINETypes.PlayClipOptions; [None] is a property left [undefined]. *)
Record PlayClipOptions : Type := {
  opt_framesPerSecond : option float;
  opt_frameTimeVector : option (list float);
  opt_frameTimeVectorSpeedMultiplier : option JS.value;
  opt_reverse : option bool;
  opt_loop : option bool;
  opt_bounce : option bool;
  opt_dynamicCineEnabled : option bool;
  opt_waitForRendered : option Z
}.

(** The state a play context keeps for itself: the stack and video
    contexts count the ticks they waited for a rendering, the volume
    context caches the scroll information. *)
Record ContextState : Type := {
  waitForRenderedCount : Z;
  cachedViewPlaneNormal : Point3;
  cachedScrollInfo : option ScrollInfo
}.

(** CINETypes.CinePlayContext: the four implementations, each with what
    its closure captures. [self] is the context's own state. *)
Inductive CinePlayContext : Type :=
| StackContext (viewport : ViewportId) (imageIdsLength : Z)
    (waitForRendered : Z) (self : Ref)
| VideoContext (viewport : ViewportId) (waitForRendered : Z) (self : Ref)
| VolumeContext (viewport : ViewportId) (volumeId : VolumeId) (self : Ref)
| DynamicVolumeContext (volume : VolumeId).

(** What [playClipAction] and [playClipTimeoutHandler] capture. *)
Record Closure : Type := {
  cl_element : Element;
  cl_viewportId : ViewportId;
  cl_context : CinePlayContext;
  cl_data : Ref;
  cl_isDynamicCinePlaying : bool;
  cl_timeouts : list Z
}.

(** A pending timer of [window]: [setInterval(playClipAction, delay)] or
    [setTimeout(playClipTimeoutHandler, delay)]. A delay that is not a
    number counts as 0 for the browser. *)
Inductive TimerKind : Type := Interval | Timeout.

Record Timer : Type := {
  timer_kind : TimerKind;
  timer_delay : JS.value;
  timer_closure : Closure
}.

Inductive CineEvent : Type := CLIP_STARTED | CLIP_STOPPED.

(** What the player does to the outside, in order. [ContextScroll] marks a
    call of [playClipContext.scroll]. *)
Inductive Effect : Type :=
| Triggered (element : Element) (event : CineEvent)
| ContextScroll (delta : Z)
| ScrolledViewport (viewport : ViewportId) (delta : Z)
| ScrolledVolume (volume : VolumeId) (delta : Z)
| Paused (viewport : ViewportId)
| Played (viewport : ViewportId)
| SetPlaybackRate (viewport : ViewportId) (rate : float)
| Warned.

Record World : Type := {
  (* the core library *)
  enabledElements : gmap Element ViewportId;
  viewports : ViewportId -> Viewport;
  cachedVolumes : gset VolumeId;
  volumes : VolumeId -> Volume;
  (* this module *)
  state : gmap ViewportId Ref;
  playClipData : Ref -> PlayClipData;
  contexts : Ref -> ContextState;
  nextRef : Ref;
  dynamicVolumesPlayingMap : gmap VolumeId Element;
  (* window *)
  timers : gmap TimerId Timer;
  nextTimer : TimerId;
  (* effects *)
  trace : list Effect
}.

Definition set_state (f : gmap ViewportId Ref -> gmap ViewportId Ref)
    (w : World) : World :=
  {| enabledElements := enabledElements w; viewports := viewports w;
     cachedVolumes := cachedVolumes w; volumes := volumes w;
     state := f (state w); playClipData := playClipData w;
     contexts := contexts w; nextRef := nextRef w;
     dynamicVolumesPlayingMap := dynamicVolumesPlayingMap w;
     timers := timers w; nextTimer := nextTimer w; trace := trace w |}.

Definition set_playClipData (r : Ref) (d : PlayClipData) (w : World) : World :=
  {| enabledElements := enabledElements w; viewports := viewports w;
     cachedVolumes := cachedVolumes w; volumes := volumes w;
     state := state w; playClipData := <[r := d]> (playClipData w);
     contexts := contexts w; nextRef := nextRef w;
     dynamicVolumesPlayingMap := dynamicVolumesPlayingMap w;
     timers := timers w; nextTimer := nextTimer w; trace := trace w |}.

Definition set_context (r : Ref) (c : ContextState) (w : World) : World :=
  {| enabledElements := enabledElements w; viewports := viewports w;
     cachedVolumes := cachedVolumes w; volumes := volumes w;
     state := state w; playClipData := playClipData w;
     contexts := <[r := c]> (contexts w); nextRef := nextRef w;
     dynamicVolumesPlayingMap := dynamicVolumesPlayingMap w;
     timers := timers w; nextTimer := nextTimer w; trace := trace w |}.

Definition set_nextRef (r : Ref) (w : World) : World :=
  {| enabledElements := enabledElements w; viewports := viewports w;
     cachedVolumes := cachedVolumes w; volumes := volumes w;
     state := state w; playClipData := playClipData w;
     contexts := contexts w; nextRef := r;
     dynamicVolumesPlayingMap := dynamicVolumesPlayingMap w;
     timers := timers w; nextTimer := nextTimer w; trace := trace w |}.

Definition set_dynamicVolumesPlayingMap
    (f : gmap VolumeId Element -> gmap VolumeId Element) (w : World) : World :=
  {| enabledElements := enabledElements w; viewports := viewports w;
     cachedVolumes := cachedVolumes w; volumes := volumes w;
     state := state w; playClipData := playClipData w;
     contexts := contexts w; nextRef := nextRef w;
     dynamicVolumesPlayingMap := f (dynamicVolumesPlayingMap w);
     timers := timers w; nextTimer := nextTimer w; trace := trace w |}.

Definition set_timers (f : gmap TimerId Timer -> gmap TimerId Timer)
    (w : World) : World :=
  {| enabledElements := enabledElements w; viewports := viewports w;
     cachedVolumes := cachedVolumes w; volumes := volumes w;
     state := state w; playClipData := playClipData w;
     contexts := contexts w; nextRef := nextRef w;
     dynamicVolumesPlayingMap := dynamicVolumesPlayingMap w;
     timers := f (timers w); nextTimer := nextTimer w; trace := trace w |}.

Definition set_nextTimer (t : TimerId) (w : World) : World :=
  {| enabledElements := enabledElements w; viewports := viewports w;
     cachedVolumes := cachedVolumes w; volumes := volumes w;
     state := state w; playClipData := playClipData w;
     contexts := contexts w; nextRef := nextRef w;
     dynamicVolumesPlayingMap := dynamicVolumesPlayingMap w;
     timers := timers w; nextTimer := t; trace := trace w |}.

(** The trace grows at its end. *)
Definition emit (e : Effect) (w : World) : World :=
  {| enabledElements := enabledElements w; viewports := viewports w;
     cachedVolumes := cachedVolumes w; volumes := volumes w;
     state := state w; playClipData := playClipData w;
     contexts := contexts w; nextRef := nextRef w;
     dynamicVolumesPlayingMap := dynamicVolumesPlayingMap w;
     timers := timers w; nextTimer := nextTimer w;
     trace := trace w ++ [e] |}.

(** Updates of one property of a play-clip data object. *)
Definition with_intervalId (i : option TimerId) (d : PlayClipData) :=
  {| intervalId := i; framesPerSecond := framesPerSecond d;
     ignoreFrameTimeVector := ignoreFrameTimeVector d;
     usingFrameTimeVector := usingFrameTimeVector d;
     frameTimeVector := frameTimeVector d; speed := speed d;
     reverse := reverse d; loop := loop d; bounce := bounce d;
     dynamicCineEnabled := dynamicCineEnabled d |}.

Definition with_reverse (b : bool) (d : PlayClipData) :=
  {| intervalId := intervalId d; framesPerSecond := framesPerSecond d;
     ignoreFrameTimeVector := ignoreFrameTimeVector d;
     usingFrameTimeVector := usingFrameTimeVector d;
     frameTimeVector := frameTimeVector d; speed := speed d;
     reverse := b; loop := loop d; bounce := bounce d;
     dynamicCineEnabled := dynamicCineEnabled d |}.

Definition with_bounce (b : bool) (d : PlayClipData) :=
  {| intervalId := intervalId d; framesPerSecond := framesPerSecond d;
     ignoreFrameTimeVector := ignoreFrameTimeVector d;
     usingFrameTimeVector := usingFrameTimeVector d;
     frameTimeVector := frameTimeVector d; speed := speed d;
     reverse := reverse d; loop := loop d; bounce := b;
     dynamicCineEnabled := dynamicCineEnabled d |}.

Definition with_framesPerSecond (f : float) (d : PlayClipData) :=
  {| intervalId := intervalId d; framesPerSecond := f;
     ignoreFrameTimeVector := ignoreFrameTimeVector d;
     usingFrameTimeVector := usingFrameTimeVector d;
     frameTimeVector := frameTimeVector d; speed := speed d;
     reverse := reverse d; loop := loop d; bounce := bounce d;
     dynamicCineEnabled := dynamicCineEnabled d |}.

Definition with_ignoreFrameTimeVector (b : bool) (d : PlayClipData) :=
  {| intervalId := intervalId d; framesPerSecond := framesPerSecond d;
     ignoreFrameTimeVector := b;
     usingFrameTimeVector := usingFrameTimeVector d;
     frameTimeVector := frameTimeVector d; speed := speed d;
     reverse := reverse d; loop := loop d; bounce := bounce d;
     dynamicCineEnabled := dynamicCineEnabled d |}.

Definition with_usingFrameTimeVector (b : bool) (d : PlayClipData) :=
  {| intervalId := intervalId d; framesPerSecond := framesPerSecond d;
     ignoreFrameTimeVector := ignoreFrameTimeVector d;
     usingFrameTimeVector := b;
     frameTimeVector := frameTimeVector d; speed := speed d;
     reverse := reverse d; loop := loop d; bounce := bounce d;
     dynamicCineEnabled := dynamicCineEnabled d |}.

Definition with_dynamicCineEnabled (b : option bool) (d : PlayClipData) :=
  {| intervalId := intervalId d; framesPerSecond := framesPerSecond d;
     ignoreFrameTimeVector := ignoreFrameTimeVector d;
     usingFrameTimeVector := usingFrameTimeVector d;
     frameTimeVector := frameTimeVector d; speed := speed d;
     reverse := reverse d; loop := loop d; bounce := bounce d;
     dynamicCineEnabled := b |}.

(** A computation that reads and writes the world and may [throw]; what
    it wrote before a [throw] stays written. *)
Definition M (A : Type) : Type := World -> result A * World.

Definition ret {A} (a : A) : M A := fun w => (Ok a, w).
Definition throw {A} (message : string) : M A := fun w => (Throw message, w).
Definition bind {A B} (m : M A) (k : A -> M B) : M B :=
  fun w =>
    match m w with
    | (Ok a, w') => k a w'
    | (Throw e, w') => (Throw e, w')
    end.
Definition gets {A} (f : World -> A) : M A := fun w => (Ok (f w), w).
Definition modify (f : World -> World) : M unit := fun w => (Ok tt, f w).
(** [try { m } catch (e) { handler }]. *)
Definition try_catch {A} (m : M A) (handler : M A) : M A :=
  fun w =>
    match m w with
    | (Ok a, w') => (Ok a, w')
    | (Throw _, w') => handler w'
    end.
Definition when (b : bool) (m : M unit) : M unit := if b then m else ret tt.

Notation "'let*' x ':=' m 'in' k" := (bind m (fun x => k))
  (at level 10, x name, m at level 100, k at level 200, only parsing).
Notation "m ';;' k" := (bind m (fun _ => k))
  (at level 100, k at level 200, right associativity, only parsing).

(** *** The core library, the window and the tool state *)

(** [getEnabledElement(element)]: the viewport the element is enabled
    with, [undefined] otherwise. A viewport's [element] is the element it
    is enabled on. *)
Definition getEnabledElement (element : Element) : M (option ViewportId) :=
  gets (fun w => enabledElements w !! element).

Definition getViewport (viewport : ViewportId) : M Viewport :=
  gets (fun w => viewports w viewport).

(** [cache.getVolume(volumeId)]. *)
Definition getVolume (volumeId : VolumeId) : M (option VolumeId) :=
  gets (fun w =>
    if bool_decide (volumeId ∈ cachedVolumes w) then Some volumeId else None).

Definition triggerEvent (element : Element) (event : CineEvent) : M unit :=
  modify (emit (Triggered element event)).

Definition setTimer (kind : TimerKind) (delay : JS.value) (handler : Closure)
    : M TimerId :=
  fun w =>
    let id := nextTimer w in
    let timer :=
      {| timer_kind := kind; timer_delay := delay; timer_closure := handler |} in
    (Ok id, set_nextTimer (S id) (set_timers <[id := timer]> w)).

Definition setInterval := setTimer Interval.
Definition setTimeout := setTimer Timeout.

(** The two share one pool of ids and cancel either kind. *)
Definition clearTimeout (id : TimerId) : M unit := modify (set_timers (delete id)).
Definition clearInterval (id : TimerId) : M unit := modify (set_timers (delete id)).

(** Modelled from the spec: ./state ([addToolState], [getToolState],
    [getToolStateByViewportId]) is not among the sources at hand; it
    keeps the tool data of a clip under the id of the viewport the element
    is enabled with. *)
Definition getToolStateByViewportId (viewportId : ViewportId) : M (option Ref) :=
  gets (fun w => state w !! viewportId).

Definition getToolState (element : Element) : M (option Ref) :=
  let* enabledElement := getEnabledElement element in
  match enabledElement with
  | Some viewportId => getToolStateByViewportId viewportId
  | None => throw "TypeError"
  end.

Definition addToolState (element : Element) (data : Ref) : M unit :=
  let* enabledElement := getEnabledElement element in
  match enabledElement with
  | Some viewportId => modify (set_state <[viewportId := data]>)
  | None => throw "TypeError"
  end.

(** *** Stopping a clip *)

Definition _stopClipWithData (playClipData : Ref) : M unit :=
  let* d := gets (fun w => Cine.playClipData w playClipData) in
  match intervalId d with
  | Some id =>
      modify (set_playClipData playClipData (with_intervalId None d)) ;;
      if usingFrameTimeVector d then clearTimeout id else clearInterval id
  | None => ret tt
  end.

Definition _getVolumeFromViewport (viewport : ViewportId)
    : M (option VolumeId) :=
  let* vp := getViewport viewport in
  match vp_type vp with
  | VolumeViewport =>
      match vp_allVolumeIds vp with
      | None | Some [] => ret None
      | Some (first :: rest) =>
          let* dynamicVolumeId := gets (fun w =>
            List.find (fun volumeId =>
                bool_decide (volumeId ∈ cachedVolumes w)
                && vol_isDynamicVolume (volumes w volumeId))
              (first :: rest)) in
          getVolume (default first dynamicVolumeId)
      end
  | _ => ret None
  end.

Definition isDynamicVolume (volume : option VolumeId) : M bool :=
  match volume with
  | Some v => gets (fun w => vol_isDynamicVolume (volumes w v))
  | None => ret false
  end.

(** [_stopClip], with [_stopDynamicVolumeCine] given. *)
Definition _stopClip_with (_stopDynamicVolumeCine : Element -> M unit)
    (element : Element) (stopDynamicCine : bool)
    (viewportId : option ViewportId) : M unit :=
  let* enabledElement := getEnabledElement element in
  let* toolState :=
    match enabledElement with
    | None =>
        match viewportId with
        | Some id =>
            if bool_decide (id = EmptyString) then ret None   (* falsy: return *)
            else let* t := getToolStateByViewportId id in ret (Some t)
        | None => ret None          (* return *)
        end
    | Some _ => let* t := getToolState element in ret (Some t)
    end in
  match toolState with
  | None => ret tt
  | Some toolState =>
      match toolState with
      | Some data => _stopClipWithData data
      | None => ret tt
      end ;;
      match enabledElement with
      | None => ret tt
      | Some viewport =>
          let* vp := getViewport viewport in
          match vp_type vp with
          | VideoViewport => modify (emit (Paused viewport))
          | t =>
              when (stopDynamicCine && isBaseVolumeViewport t)
                (_stopDynamicVolumeCine element)
          end
      end
  end.

(** [_stopDynamicVolumeCine] stops the clip of another element through
    [stopClip], which comes back to it. Every round removes an entry of
    [dynamicVolumesPlayingMap] before it calls; [fuel] bounds the depth of
    the calls, and running out of it is the engine's RangeError. *)
Fixpoint _stopDynamicVolumeCine_rec (fuel : nat) (element : Element)
    : M unit :=
  match fuel with
  | O => throw "RangeError: Maximum call stack size exceeded"
  | S fuel =>
      let* enabledElement := getEnabledElement element in
      match enabledElement with
      | None => throw "TypeError"
      | Some viewport =>
          let* vp := getViewport viewport in
          match vp_type vp with
          | VolumeViewport =>
              let* volume := _getVolumeFromViewport viewport in
              let* dynamic := isDynamicVolume volume in
              match volume with
              | Some volumeId =>
                  when dynamic (
                    let* dynamicCineElement :=
                      gets (fun w => dynamicVolumesPlayingMap w !! volumeId) in
                    modify (set_dynamicVolumesPlayingMap (delete volumeId)) ;;
                    match dynamicCineElement with
                    | Some other =>
                        when (negb (bool_decide (other = element)))
                          (* stopClip(dynamicCineElement) *)
                          (_stopClip_with (_stopDynamicVolumeCine_rec fuel)
                             other true None)
                    | None => ret tt
                    end)
              | None => ret tt
              end
          | _ => ret tt
          end
      end
  end.

Definition _stopDynamicVolumeCine (element : Element) : M unit :=
  fun w =>
    _stopDynamicVolumeCine_rec (S (size (dynamicVolumesPlayingMap w))) element w.

Definition _stopClip (element : Element) (stopDynamicCine : bool)
    (viewportId : option ViewportId) : M unit :=
  _stopClip_with _stopDynamicVolumeCine element stopDynamicCine viewportId.

(** [stopClip(element, options = {})]: [stopDynamicCine] is true unless
    the options say otherwise. *)
Definition stopClip (element : Element) (stopDynamicCine : option bool)
    (viewportId : option ViewportId) : M unit :=
  _stopClip element (default true stopDynamicCine) viewportId.

(** *** Play contexts *)

(** gl-matrix: [EPSILON], [glMatrix.equals], [vec3.equals], [vec3.dot]. *)
#[warnings="-inexact-float"]
Definition EPSILON : float := 0.000001%float.

Definition glMatrix_equals (a b : float) : bool :=
  (abs (a - b) <=? EPSILON * JS.max 1 (JS.max (abs a) (abs b)))%float.

Definition vec3_equals (a b : Point3) : bool :=
  let '(a0, a1, a2) := a in
  let '(b0, b1, b2) := b in
  glMatrix_equals a0 b0 && glMatrix_equals a1 b1 && glMatrix_equals a2 b2.

Definition vec3_dot (a b : Point3) : float :=
  let '(a0, a1, a2) := a in
  let '(b0, b1, b2) := b in
  (a0 * b0 + a1 * b1 + a2 * b2)%float.

(** [csUtils.scroll(viewport, { delta })]. *)
Definition csUtils_scroll (viewport : ViewportId) (delta : Z) : M unit :=
  let* vp := getViewport viewport in
  if vp_scrollThrows vp then throw "scroll"
  else modify (emit (ScrolledViewport viewport delta)).

(** [volume.scroll(delta)] of a dynamic volume. *)
Definition volume_scroll (volume : VolumeId) (delta : Z) : M unit :=
  let* throws := gets (fun w => vol_scrollThrows (volumes w volume)) in
  if throws then throw "scroll"
  else modify (emit (ScrolledVolume volume delta)).

Definition newContextState : ContextState :=
  {| waitForRenderedCount := 0;
     cachedViewPlaneNormal := (0, 0, 0)%float;     (* vec3.create() *)
     cachedScrollInfo := None |}.

Definition allocContext : M Ref :=
  fun w =>
    let r := nextRef w in
    (Ok r, set_nextRef (S r) (set_context r newContextState w)).

(** [getScrollInfo] of the volume viewport context: the number of steps
    changes only when the volume is rotated, so the result is cached and
    recomputed only then. *)
Definition getScrollInfo (viewport : ViewportId) (self : Ref) : M ScrollInfo :=
  let* vp := getViewport viewport in
  let* c := gets (fun w => contexts w self) in
  match cachedScrollInfo c with
  | Some info =>
      if vec3_equals (vp_viewPlaneNormal vp) (cachedViewPlaneNormal c)
      then ret info
      else
        modify (set_context self
          {| waitForRenderedCount := waitForRenderedCount c;
             cachedViewPlaneNormal := vp_viewPlaneNormal vp;
             cachedScrollInfo := Some (vp_scrollInfo vp) |}) ;;
        ret (vp_scrollInfo vp)
  | None =>
      modify (set_context self
        {| waitForRenderedCount := waitForRenderedCount c;
           cachedViewPlaneNormal := vp_viewPlaneNormal vp;
           cachedScrollInfo := Some (vp_scrollInfo vp) |}) ;;
      ret (vp_scrollInfo vp)
  end.

Definition numScrollSteps (context : CinePlayContext) : M Z :=
  match context with
  | StackContext _ imageIdsLength _ _ => ret imageIdsLength
  | VideoContext viewport _ _ =>
      let* vp := getViewport viewport in ret (vp_numberOfSlices vp)
  | VolumeContext viewport _ self =>
      let* info := getScrollInfo viewport self in ret (si_numScrollSteps info)
  | DynamicVolumeContext volume =>
      gets (fun w => vol_numDimensionGroups (volumes w volume))
  end.

Definition currentStepIndex (context : CinePlayContext) : M Z :=
  match context with
  | StackContext viewport _ _ _ =>
      let* vp := getViewport viewport in ret (vp_targetImageIdIndex vp)
  | VideoContext viewport _ _ =>
      let* vp := getViewport viewport in ret (vp_sliceIndex vp)
  | VolumeContext viewport _ self =>
      let* info := getScrollInfo viewport self in ret (si_currentStepIndex info)
  | DynamicVolumeContext volume =>
      (* the 1-based dimensionGroupNumber as a 0-based index *)
      gets (fun w => vol_dimensionGroupNumber (volumes w volume) - 1)
  end.

Definition frameTimeVectorEnabled (context : CinePlayContext) : M bool :=
  match context with
  | StackContext _ _ _ _ | VideoContext _ _ _ => ret true
  | VolumeContext viewport volume _ =>
      let* vp := getViewport viewport in
      let* direction := gets (fun w => vol_direction (volumes w volume)) in
      let volumeViewPlaneNormal :=
        (- element_number direction 6, - element_number direction 7,
         - element_number direction 8)%float in
      let dot := vec3_dot volumeViewPlaneNormal (vp_viewPlaneNormal vp) in
      (* the volume is in acquired orientation *)
      ret (glMatrix_equals dot 1)
  | DynamicVolumeContext _ => ret false
  end.

(** [scroll] of the stack and the video contexts. *)
Definition scroll_when_rendered (viewport : ViewportId) (waitForRendered : Z)
    (self : Ref) (delta : Z) : M unit :=
  let* vp := getViewport viewport in
  let* c := gets (fun w => contexts w self) in
  if (waitForRenderedCount c <=? waitForRendered) && negb (vp_rendered vp) then
    modify (set_context self
      {| waitForRenderedCount := waitForRenderedCount c + 1;
         cachedViewPlaneNormal := cachedViewPlaneNormal c;
         cachedScrollInfo := cachedScrollInfo c |})
  else
    modify (set_context self
      {| waitForRenderedCount := 0;
         cachedViewPlaneNormal := cachedViewPlaneNormal c;
         cachedScrollInfo := cachedScrollInfo c |}) ;;
    csUtils_scroll viewport delta.

Definition scroll (context : CinePlayContext) (delta : Z) : M unit :=
  modify (emit (ContextScroll delta)) ;;
  match context with
  | StackContext viewport _ waitForRendered self
  | VideoContext viewport waitForRendered self =>
      scroll_when_rendered viewport waitForRendered self delta
  | VolumeContext viewport _ self =>
      let* info := getScrollInfo viewport self in
      let* c := gets (fun w => contexts w self) in
      modify (set_context self
        {| waitForRenderedCount := waitForRenderedCount c;
           cachedViewPlaneNormal := cachedViewPlaneNormal c;
           cachedScrollInfo :=
             Some {| si_numScrollSteps := si_numScrollSteps info;
                     si_currentStepIndex := si_currentStepIndex info + delta |} |}) ;;
      csUtils_scroll viewport delta
  | DynamicVolumeContext volume => volume_scroll volume delta
  end.

Definition truthy_number (x : option float) : bool :=
  match x with
  | Some f => negb (is_nan f) && negb (f =? 0)%float
  | None => false
  end.

(** [play] of the video context. *)
Definition video_play (viewport : ViewportId) (fps : option float) : M float :=
  match fps with
  | Some f =>
      (* correspond to the playback rates of the other viewports *)
      when (truthy_number fps)
        (modify (emit (SetPlaybackRate viewport (f / 24)%float)))
  | None => ret tt
  end ;;
  modify (emit (Played viewport)) ;;
  let* vp := getViewport viewport in
  ret (vp_frameRate vp).

(** Only the video context has a [play] method. *)
Definition play (context : CinePlayContext) : option (option float -> M float) :=
  match context with
  | VideoContext viewport _ _ => Some (video_play viewport)
  | _ => None
  end.

Definition _createCinePlayContext (viewport : ViewportId)
    (waitForRendered : option Z) (dynamicCineEnabled : bool)
    : M CinePlayContext :=
  let* vp := getViewport viewport in
  match vp_type vp with
  | StackViewport =>
      let* self := allocContext in
      ret (StackContext viewport (vp_imageIdsLength vp)
             (default 30 waitForRendered) self)
  | VolumeViewport =>
      let* volume := _getVolumeFromViewport viewport in
      let* dynamic := isDynamicVolume volume in
      match volume with
      | Some volumeId =>
          if dynamicCineEnabled && dynamic then ret (DynamicVolumeContext volumeId)
          else
            let* self := allocContext in
            ret (VolumeContext viewport volumeId self)
      | None => throw "TypeError"       (* const { volumeId } = undefined *)
      end
  | VideoViewport =>
      let* self := allocContext in
      ret (VideoContext viewport (default 30 waitForRendered) self)
  | _ => throw "Unknown viewport type"
  end.

(** *** The tick *)

(** An assignment to a property of a play-clip data object. *)
Definition update_data (r : Ref) (f : PlayClipData -> PlayClipData) : M unit :=
  modify (fun w => set_playClipData r (f (playClipData w r)) w).

(** [playClipAction], the frame rendering logic of a clip. *)
Definition playClipAction (c : Closure) : M unit :=
  let playClipContext := cl_context c in
  let* numScrollSteps := numScrollSteps playClipContext in
  let* currentStepIndex := currentStepIndex playClipContext in
  let* d := gets (fun w => playClipData w (cl_data c)) in
  let newStepIndex := currentStepIndex + (if reverse d then -1 else 1) in
  let outOfRange := (newStepIndex <? 0) || (numScrollSteps <=? newStepIndex) in
  let* next :=
    if outOfRange then
      if bounce d then
        update_data (cl_data c) (with_reverse (negb (reverse d))) ;;
        let newStepIndex :=
          currentStepIndex + (if negb (reverse d) then -1 else 1) in
        ret (Some (Z.max 0 (Z.min (numScrollSteps - 1) newStepIndex)))
      else if negb (loop d) then
        _stopClip (cl_element c) (negb (cl_isDynamicCinePlaying c))
          (Some (cl_viewportId c)) ;;
        triggerEvent (cl_element c) CLIP_STOPPED ;;
        ret None                                        (* return *)
      else
        ret (Some (if reverse d then numScrollSteps - 1 else 0))
    else ret (Some newStepIndex) in
  match next with
  | None => ret tt
  | Some newStepIndex =>
      let delta := newStepIndex - currentStepIndex in
      when (negb (delta =? 0))
        (try_catch (scroll playClipContext delta)
           (modify (emit Warned) ;;
            _stopClipWithData (cl_data c) ;;
            triggerEvent (cl_element c) CLIP_STOPPED))
  end.

(** [playClipTimeouts[index]] as a delay. *)
Definition timeout_at (playClipTimeouts : list Z) (index : Z) : JS.value :=
  match (if 0 <=? index then playClipTimeouts !! Z.to_nat index else None) with
  | Some delay => JS.Num (JS.of_Z delay)
  | None => JS.NotNum
  end.

Definition playClipTimeoutHandler (c : Closure) : M unit :=
  let* index := currentStepIndex (cl_context c) in
  let* id := setTimeout (timeout_at (cl_timeouts c) index) c in
  update_data (cl_data c) (with_intervalId (Some id)) ;;
  playClipAction c.

(** A pending timer fires: an interval stays, a timeout is spent. *)
Definition timer_fires (id : TimerId) : M unit :=
  let* timer := gets (fun w => timers w !! id) in
  match timer with
  | None => ret tt
  | Some t =>
      match timer_kind t with
      | Interval => playClipAction (timer_closure t)
      | Timeout =>
          modify (set_timers (delete id)) ;;
          playClipTimeoutHandler (timer_closure t)
      end
  end.

(** *** playClip *)

Definition noOptions : PlayClipOptions :=
  {| opt_framesPerSecond := None; opt_frameTimeVector := None;
     opt_frameTimeVectorSpeedMultiplier := None; opt_reverse := None;
     opt_loop := None; opt_bounce := None; opt_dynamicCineEnabled := None;
     opt_waitForRendered := None |}.

Definition newPlayClipData (playClipOptions : PlayClipOptions) : PlayClipData :=
  {| intervalId := None;
     framesPerSecond := 30;
     ignoreFrameTimeVector := false;
     usingFrameTimeVector := false;
     frameTimeVector := opt_frameTimeVector playClipOptions;
     speed := default (JS.Num 1) (opt_frameTimeVectorSpeedMultiplier playClipOptions);
     reverse := default false (opt_reverse playClipOptions);
     loop := default true (opt_loop playClipOptions);
     bounce := default false (opt_bounce playClipOptions);
     dynamicCineEnabled := None |}.

Definition allocData (d : PlayClipData) : M Ref :=
  fun w =>
    let r := nextRef w in
    (Ok r, set_nextRef (S r) (set_playClipData r d w)).

(** [framesPerSecond < 0 || framesPerSecond > 0]. *)
Definition valid_framesPerSecond (fps : option float) : bool :=
  match fps with
  | Some f => (f <? 0)%float || (0 <? f)%float
  | None => false
  end.

(** The frame time vector is used instead of a fixed frame rate: the
    timeouts and whether they vary, [undefined] otherwise. *)
Definition frameTimeVectorTimeouts (playClipData : Ref)
    (playClipContext : CinePlayContext) : M (option (list Z * bool)) :=
  let* d := gets (fun w => Cine.playClipData w playClipData) in
  if ignoreFrameTimeVector d then ret None
  else
    match frameTimeVector d with
    | None => ret None
    | Some vector =>
        let* steps := numScrollSteps playClipContext in
        if Z.of_nat (length vector) =? steps then
          let* enabled := frameTimeVectorEnabled playClipContext in
          if enabled then ret (Some (_getPlayClipTimeouts vector (speed d)))
          else ret None
        else ret None
    end.

(** [playClipTimeouts && playClipTimeouts.length > 0 && playClipIsTimeVarying]. *)
Definition uses_timeouts (playClipTimeouts : option (list Z * bool)) : bool :=
  match playClipTimeouts with
  | Some (timeouts, isTimeVarying) =>
      (0 <? length timeouts)%nat && isTimeVarying
  | None => false
  end.

Definition playClip (element : option Element)
    (playClipOptions : option PlayClipOptions) : M unit :=
  match element with
  | None => throw "playClip: element must not be undefined"
  | Some element =>
  let* enabledElement := getEnabledElement element in
  match enabledElement with
  | None =>
      throw "playClip: element must be a valid Cornerstone enabled element"
  | Some viewport =>
  let playClipOptions := default noOptions playClipOptions in
  (* 4D Cine is enabled by default *)
  let dynamicCineEnabled :=
    default true (opt_dynamicCineEnabled playClipOptions) in
  let* playClipContext :=
    _createCinePlayContext viewport (opt_waitForRendered playClipOptions)
      dynamicCineEnabled in
  let* toolState := getToolState element in
  let isDynamicCinePlaying := dynamicCineEnabled in
  when isDynamicCinePlaying (_stopDynamicVolumeCine element) ;;
  let* playClipData :=
    match toolState with
    | None =>
        let* data := allocData (newPlayClipData playClipOptions) in
        addToolState element data ;;
        ret data
    | Some data =>
        _stopClip element (negb isDynamicCinePlaying) (Some viewport) ;;
        ret data
    end in
  update_data playClipData (with_dynamicCineEnabled (Some dynamicCineEnabled)) ;;
  match opt_framesPerSecond playClipOptions with
  | Some fps =>
      when (valid_framesPerSecond (Some fps))
        (update_data playClipData (with_framesPerSecond fps) ;;
         update_data playClipData (with_reverse (fps <? 0)%float) ;;
         update_data playClipData (with_ignoreFrameTimeVector true))
  | None => ret tt
  end ;;
  let* playClipTimeouts := frameTimeVectorTimeouts playClipData playClipContext in
  match opt_bounce playClipOptions with
  | Some b => update_data playClipData (with_bounce b)
  | None => ret tt
  end ;;
  let playClipAction :=
    {| cl_element := element; cl_viewportId := viewport;
       cl_context := playClipContext; cl_data := playClipData;
       cl_isDynamicCinePlaying := isDynamicCinePlaying;
       cl_timeouts := match playClipTimeouts with
                      | Some (timeouts, _) => timeouts
                      | None => []
                      end |} in
  when isDynamicCinePlaying (
    let* volume := _getVolumeFromViewport viewport in
    match volume with
    | Some volumeId =>
        modify (set_dynamicVolumesPlayingMap <[volumeId := element]>)
    | None => ret tt
    end) ;;
  match play playClipContext with
  | Some play =>
      let* rate := play (opt_framesPerSecond playClipOptions) in
      update_data playClipData (with_framesPerSecond rate)
  | None =>
      if uses_timeouts playClipTimeouts then
        (* at least one timeout differs from the others: setTimeout *)
        update_data playClipData (with_usingFrameTimeVector true) ;;
        let* id := setTimeout (JS.Num 0) playClipAction in
        update_data playClipData (with_intervalId (Some id))
      else
        (* the setInterval implementation, which is much more efficient *)
        update_data playClipData (with_usingFrameTimeVector false) ;;
        let* d := gets (fun w => Cine.playClipData w playClipData) in
        let* id :=
          setInterval (JS.Num (1000 / abs (framesPerSecond d))) playClipAction in
        update_data playClipData (with_intervalId (Some id))
  end ;;
  triggerEvent element CLIP_STARTED
  end
  end.

End Cine.

(** ** Rectangle erase (strategies/eraseRectangle) *)

Module EraseRectangle.

(** [[iMin, iMax], [jMin, jMax], [kMin, kMax]]. *)
Definition Bounds : Type := (Z * Z) * (Z * Z) * (Z * Z).

Definition axes (boundsIJK : Bounds) : list (Z * Z) :=
  let '(i, j, k) := boundsIJK in [i; j; k].

(** The segmentation volume: its dimensions and its scalar data, a typed
    array with one label per voxel. *)
Record ImageVolume : Type := {
  dimensions : Z * Z * Z;
  scalarData : list Z
}.

(** What the strategy works on: the volume [operationData.volume] refers
    to, and the segmentation-data-modified events triggered so far. *)
Record State : Type := {
  segmentation : ImageVolume;
  modified : list (string * string)
}.

(** [scalarData[index]]: [undefined] outside the array. *)
Definition read (data : list Z) (index : Z) : option Z :=
  if 0 <=? index then data !! Z.to_nat index else None.

(** [scalarData[index] = value]: a typed array ignores a write outside it. *)
Definition write (data : list Z) (index value : Z) : list Z :=
  if 0 <=? index then <[Z.to_nat index := value]> data else data.

(** The integers [min, min + 1, ..., max]. *)
Definition range (min max : Z) : list Z := seqZ min (max - min + 1).

(** Modelled from the spec: util/planar/pointInShapeCallback is not among
    the sources at hand. It goes through the voxels inside the bounds and,
    for each one in the shape, calls back with the voxel's value and its
    index in the scalar data (i runs fastest, then j, then k). *)
Definition pointInShapeCallback (boundsIJK : Bounds) (scalarData : list Z)
    (dimensions : Z * Z * Z) (pointInShapeFn : Z * Z * Z -> bool)
    (callback : option Z -> Z -> list Z -> list Z) : list Z :=
  let '((iMin, iMax), (jMin, jMax), (kMin, kMax)) := boundsIJK in
  let '(width, height, _) := dimensions in
  let yMultiple := width in
  let zMultiple := width * height in
  fold_left
    (fun data '(i, j, k) =>
       if pointInShapeFn (i, j, k) then
         let index := k * zMultiple + j * yMultiple + i in
         callback (read data index) index data
       else data)
    (k ← range kMin kMax; j ← range jMin jMax; i ← range iMin iMax;
     [(i, j, k)])
    scalarData.

Section Strategy.

(** World and index coordinates and the two helpers outside this file:
    [imageData.worldToIndex] of the rendering library, and
    [getBoundingBoxAroundShape] of util/segmentation. *)
Context {WorldPoint IndexPoint : Type}.
Variable worldToIndex : WorldPoint -> IndexPoint.
Variable getBoundingBoxAroundShape : list IndexPoint -> Z * Z * Z -> Bounds.

(** EraseOperationData; [volume] is the state's segmentation, and
    [constraintFn] is not used. *)
Record EraseOperationData : Type := {
  toolGroupUID : string;
  segmentationDataUID : string;
  points : list WorldPoint;
  segmentsLocked : list Z
}.

(** [boundsIJK.every(([min, max]) => min !== max)]. *)
Definition oblique (boundsIJK : Bounds) : bool :=
  forallb (fun '(min, max) => negb (min =? max)) (axes boundsIJK).

Definition eraseRectangle (operationData : EraseOperationData)
    (inside : bool) (st : State) : result unit * State :=
  let imageVolume := segmentation st in
  let rectangleCornersIJK := map worldToIndex (points operationData) in
  let boundsIJK :=
    getBoundingBoxAroundShape rectangleCornersIJK (dimensions imageVolume) in
  if oblique boundsIJK then
    (Throw "Oblique segmentation tools are not supported yet", st)
  else
    (* all points inside the bounds are inside the rectangle *)
    let pointInShape := fun _ : Z * Z * Z => true in
    let callback := fun (value : option Z) (index : Z) (data : list Z) =>
      if bool_decide (value ∈ (Some <$> segmentsLocked operationData))
      then data
      else write data index 0 in
    let scalarData' :=
      pointInShapeCallback boundsIJK (scalarData imageVolume)
        (dimensions imageVolume) pointInShape callback in
    (Ok tt,
     {| segmentation := {| dimensions := dimensions imageVolume;
                           scalarData := scalarData' |};
        (* triggerSegmentationDataModified *)
        modified := modified st
                    ++ [(toolGroupUID operationData,
                         segmentationDataUID operationData)] |}).

Definition eraseInsideRectangle (operationData : EraseOperationData)
    : State -> result unit * State :=
  eraseRectangle operationData true.

Definition eraseOutsideRectangle (operationData : EraseOperationData)
    : State -> result unit * State :=
  eraseRectangle operationData false.

End Strategy.

End EraseRectangle.

(** ** Zoom (tools/ZoomTool) *)

Module Zoom.

Definition Point3 : Type := float * float * float.

Record Configuration : Type := {
  zoomToCenter : bool;
  minZoomScale : float;
  maxZoomScale : float;
  pinchToZoom : bool;
  pan : bool;
  invert : bool
}.

(** The configuration of the constructor's default tool props; large
    ranges allow for microscopy viewing. *)
#[warnings="-inexact-float"]
Definition defaultConfiguration : Configuration :=
  {| zoomToCenter := false;
     minZoomScale := 0.001;
     maxZoomScale := 3000;
     pinchToZoom := true;
     pan := true;
     invert := false |}.

(** The tool: its configuration and what [preMouseDownCallback] left. *)
Record ZoomTool : Type := {
  configuration : Configuration;
  initialMousePosWorld : Point3;
  dirVec : Point3
}.

Record Camera : Type := {
  parallelScale : float;
  focalPoint : Point3;
  position : Point3
}.

Record ImageData : Type := {
  dimensions : Point3;
  spacing : Point3
}.

(** What the drag reads from the viewport: [getImageData()] and
    [options?.displayArea?.imageArea]. *)
Record Viewport : Type := {
  imageData : option ImageData;
  imageArea : option (list float)
}.

(** [evt.detail]: the element's client size, the canvas delta of the
    drag, and the change of the distance of a pinch. *)
Record EventDetail : Type := {
  clientWidth : float;
  clientHeight : float;
  deltaPoints_canvas : float * float;
  deltaDistance_canvas : float
}.

(** [vec3.fromValues(x, y, z)]: a new Float32Array of the three numbers. *)
Definition fromValues (x y z : float) : Point3 :=
  (JS.fround x, JS.fround y, JS.fround z).

(** [vec3.scaleAndAdd(vec3.create(), a, b, scale)]: the sums are stored in
    a new Float32Array. *)
Definition scaleAndAdd (a b : Point3) (scale : float) : Point3 :=
  let '(a0, a1, a2) := a in
  let '(b0, b1, b2) := b in
  (JS.fround (a0 + b0 * scale), JS.fround (a1 + b1 * scale),
   JS.fround (a2 + b2 * scale))%float.

(** [displayArea?.imageArea?.[i] ?? 1.1]. *)
#[warnings="-inexact-float"]
Definition imageAreaScale (imageArea : option (list float)) (i : nat) : float :=
  default 1.1%float (imageArea ≫= (fun area => area !! i)).

(** The least parallel scale with which the image, scaled by the display
    area, fits the canvas. *)
Definition minParallelScaleRequired (image : ImageData)
    (imageArea : option (list float)) (size : float * float) : float :=
  let '(d0, d1, _) := dimensions image in
  let '(s0, s1, _) := spacing image in
  let imageWidth := (d0 * s0)%float in
  let imageHeight := (d1 * s1)%float in
  let canvasAspect := (size.1 / size.2)%float in
  let imageAreaScaleX := imageAreaScale imageArea 0 in
  let imageAreaScaleY := imageAreaScale imageArea 1 in
  let scaledImageWidth := (imageWidth * imageAreaScaleX)%float in
  let scaledImageHeight := (imageHeight * imageAreaScaleY)%float in
  let scaledImageAspect := (scaledImageWidth / scaledImageHeight)%float in
  if (canvasAspect <? scaledImageAspect)%float then
    (* wider image, limit by width *)
    (scaledImageWidth / canvasAspect * 0.5)%float
  else
    (* taller image, limit by height *)
    (scaledImageHeight * 0.5)%float.

(** The zoom scale limits as world-space scales. *)
Definition minScaleInWorld (tool : ZoomTool) (image : ImageData)
    (imageArea : option (list float)) (size : float * float) : float :=
  (minParallelScaleRequired image imageArea size
   / maxZoomScale (configuration tool))%float.

Definition maxScaleInWorld (tool : ZoomTool) (image : ImageData)
    (imageArea : option (list float)) (size : float * float) : float :=
  (minParallelScaleRequired image imageArea size
   / minZoomScale (configuration tool))%float.

(** [(1.0 - k) * parallelScale], the scale the drag asks for. *)
Definition zoom_factor (tool : ZoomTool) (detail : EventDetail) (pinch : bool)
    : float :=
  let deltaY :=
    if pinch then deltaDistance_canvas detail else (deltaPoints_canvas detail).2 in
  let zoomScale := (5 / clientHeight detail)%float in
  (deltaY * zoomScale * (if invert (configuration tool) then -1 else 1))%float.

Definition parallelScaleToSet (tool : ZoomTool) (detail : EventDetail)
    (camera : Camera) (pinch : bool) : float :=
  ((1 - zoom_factor tool detail pinch) * parallelScale camera)%float.

Section Drag.

(** [vec3.distance] of gl-matrix. *)
Variable vec3_distance : Point3 -> Point3 -> float.

(** [_dragParallelProjection]: the camera it passes to
    [viewport.setCamera]. *)
Definition _dragParallelProjection (tool : ZoomTool) (detail : EventDetail)
    (viewport : Viewport) (camera : Camera) (pinch : bool) : Camera :=
  let size := (clientWidth detail, clientHeight detail) in
  let k := zoom_factor tool detail pinch in
  let parallelScaleToSet := parallelScaleToSet tool detail camera pinch in
  let '(focalPointToSet, positionToSet) :=
    if zoomToCenter (configuration tool) then
      (focalPoint camera, position camera)
    else
      (* simulate the zoom to the mouse position *)
      let distanceToCanvasCenter :=
        vec3_distance (focalPoint camera) (initialMousePosWorld tool) in
      (scaleAndAdd (focalPoint camera) (dirVec tool)
         (- distanceToCanvasCenter * k)%float,
       scaleAndAdd (position camera) (dirVec tool)
         (- distanceToCanvasCenter * k)%float) in
  let '(cappedParallelScale, thresholdExceeded) :=
    match imageData viewport with
    | Some image =>
        let minScaleInWorld :=
          minScaleInWorld tool image (imageArea viewport) size in
        let maxScaleInWorld :=
          maxScaleInWorld tool image (imageArea viewport) size in
        (* clamp zoom within allowed limits *)
        if (parallelScaleToSet <? minScaleInWorld)%float then
          (minScaleInWorld, true)
        else if (maxScaleInWorld <? parallelScaleToSet)%float then
          (maxScaleInWorld, true)
        else (parallelScaleToSet, false)
    | None => (parallelScaleToSet, false)
    end in
  {| parallelScale := cappedParallelScale;
     focalPoint := if thresholdExceeded then focalPoint camera else focalPointToSet;
     position := if thresholdExceeded then position camera else positionToSet |}.

End Drag.

(** *** The callbacks *)

(** What the callbacks read of the viewport of the enabled element and do
    to it: its type, its image data and display area, its camera, and the
    calls of [render]. *)
Record ViewportState : Type := {
  isStack : bool;                   (* viewport.type === ViewportType.STACK *)
  view : Viewport;
  parallelProjection : bool;        (* getCamera().parallelProjection *)
  viewPlaneNormal : Point3;         (* getCamera().viewPlaneNormal *)
  camera : Camera;
  renders : nat
}.

(** The tool and the viewport it works on. *)
Record State : Type := {
  tool : ZoomTool;
  viewport : ViewportState
}.

(** [evt.detail] of an interaction: the element's size and canvas deltas,
    the world position of the pointer, the world delta of the move and the
    number of touch points. *)
Record InteractionEvent : Type := {
  detail : EventDetail;
  currentPoints_world : Point3;
  deltaPoints_world : Point3;
  currentPointsList_length : nat
}.

(** [evt.detail] of a mouse wheel event. *)
Record WheelEvent : Type := {
  wheel_clientWidth : float;
  wheel_clientHeight : float;
  wheel_direction : float;
  points_world : Point3
}.

Definition with_camera (c : Camera) (v : ViewportState) : ViewportState :=
  {| isStack := isStack v; view := view v;
     parallelProjection := parallelProjection v;
     viewPlaneNormal := viewPlaneNormal v; camera := c; renders := renders v |}.

(** [viewport.render()]. *)
Definition render (v : ViewportState) : ViewportState :=
  {| isStack := isStack v; view := view v;
     parallelProjection := parallelProjection v;
     viewPlaneNormal := viewPlaneNormal v; camera := camera v;
     renders := S (renders v) |}.

(** [viewport.setCamera({ focalPoint, position })]: the parallel scale
    stays. *)
Definition setCamera_position (focalPoint' position' : Point3)
    (v : ViewportState) : ViewportState :=
  with_camera {| parallelScale := parallelScale (camera v);
                 focalPoint := focalPoint'; position := position' |} v.

Section Callbacks.

(** Of gl-matrix and vtk.js: [vec3.distance],
    [vec3.normalize(vec3.create(), a)] and
    [vtkMath.distance2BetweenPoints]. *)
Variable vec3_distance : Point3 -> Point3 -> float.
Variable vec3_normalize : Point3 -> Point3.
Variable distance2BetweenPoints : Point3 -> Point3 -> float.

(** The direction from a world position to the focal point, which acts as
    the vector to translate the image along when the zoom is not to the
    center. *)
Definition direction_to (focalPoint worldPos : Point3) : Point3 :=
  let '(f0, f1, f2) := focalPoint in
  let '(p0, p1, p2) := worldPos in
  vec3_normalize (fromValues (f0 - p0) (f1 - p1) (f2 - p2))%float.

Definition grab (worldPos : Point3) (st : State) : State :=
  {| tool :=
       {| configuration := configuration (tool st);
          initialMousePosWorld := worldPos;
          dirVec := direction_to (focalPoint (camera (viewport st))) worldPos |};
     viewport := viewport st |}.

(** [preMouseDownCallback]: it returns false, so that the event is left
    for other tools to claim. *)
Definition preMouseDownCallback (evt : InteractionEvent) (st : State)
    : bool * State :=
  (false, grab (currentPoints_world evt) st).

(** [preTouchStartCallback]: it returns nothing when the tool pinches to
    zoom. *)
Definition preTouchStartCallback (evt : InteractionEvent) (st : State)
    : option bool * State :=
  if negb (pinchToZoom (configuration (tool st))) then
    let '(handled, st) := preMouseDownCallback evt st in (Some handled, st)
  else (None, st).

Definition _dragPerspectiveProjection (tool : ZoomTool) (detail : EventDetail)
    (v : ViewportState) (pinch : bool) : ViewportState :=
  let deltaY :=
    if pinch then deltaDistance_canvas detail else (deltaPoints_canvas detail).2 in
  let '(n0, n1, n2) := viewPlaneNormal v in
  let '(p0, p1, p2) := position (camera v) in
  let '(f0, f1, f2) := focalPoint (camera v) in
  let distance :=
    distance2BetweenPoints (position (camera v)) (focalPoint (camera v)) in
  let zoomScale := (sqrt distance / clientHeight detail)%float in
  let k := if invert (configuration tool)
           then (deltaY / zoomScale)%float else (deltaY * zoomScale)%float in
  setCamera_position
    (f0 + k * - n0, f1 + k * - n1, f2 + k * - n2)%float
    (p0 + k * - n0, p1 + k * - n1, p2 + k * - n2)%float v.

(** The drag by the projection of the camera, as [_dragCallback] and
    [_pinchCallback] call it. *)
Definition drag (tool : ZoomTool) (detail : EventDetail) (pinch : bool)
    (v : ViewportState) : ViewportState :=
  if parallelProjection v then
    with_camera
      (_dragParallelProjection vec3_distance tool detail (view v) (camera v) pinch)
      v
  else _dragPerspectiveProjection tool detail v pinch.

(** [_dragCallback], for a mouse or a touch drag. *)
Definition _dragCallback (evt : InteractionEvent) (st : State) : State :=
  {| tool := tool st;
     viewport := render (drag (tool st) (detail evt) false (viewport st)) |}.

Definition _panCallback (evt : InteractionEvent) (st : State) : State :=
  let '(d0, d1, d2) := deltaPoints_world evt in
  let '(p0, p1, p2) := position (camera (viewport st)) in
  let '(f0, f1, f2) := focalPoint (camera (viewport st)) in
  {| tool := tool st;
     viewport :=
       render (setCamera_position (f0 - d0, f1 - d1, f2 - d2)%float
                 (p0 - d0, p1 - d1, p2 - d2)%float (viewport st)) |}.

Definition _pinchCallback (evt : InteractionEvent) (st : State) : State :=
  let st :=
    if (1 <? currentPointsList_length evt)%nat then
      let st := grab (currentPoints_world evt) st in
      {| tool := tool st;
         viewport := render (drag (tool st) (detail evt) true (viewport st)) |}
    else st in
  if pan (configuration (tool st)) then _panCallback evt st else st.

(** The callbacks the constructor binds.  [touchDragCallback] is chosen
    once, by [pinchToZoom] of the configuration the tool is constructed
    with; a configuration changed later does not choose again. *)
Definition touchDragCallback (constructed : Configuration)
    : InteractionEvent -> State -> State :=
  if pinchToZoom constructed then _pinchCallback else _dragCallback.

Definition mouseDragCallback : InteractionEvent -> State -> State :=
  _dragCallback.

(** The drag event [_zoom] makes up from a wheel event: a drag of 5
    pixels up or down. *)
Definition wheel_drag (evt : WheelEvent) : InteractionEvent :=
  {| detail :=
       {| clientWidth := wheel_clientWidth evt;
          clientHeight := wheel_clientHeight evt;
          deltaPoints_canvas := (0, - wheel_direction evt * 5)%float;
          deltaDistance_canvas := nan |};
     currentPoints_world := points_world evt;
     deltaPoints_world := points_world evt;
     currentPointsList_length := 0 |}.

Definition _zoom (evt : WheelEvent) (st : State) : State :=
  let eventDetails := wheel_drag evt in
  let st :=
    if isStack (viewport st) then (preMouseDownCallback eventDetails st).2
    else st in
  _dragCallback eventDetails st.

Definition mouseWheelCallback : WheelEvent -> State -> State := _zoom.

End Callbacks.

End Zoom.

(** ** Rectangle scissors (tools/segmentation/RectangleScissorsTool) *)

Module RectangleScissors.

Definition Element := nat.
Definition Point3 : Type := float * float * float.

(** The listeners of the draw loop. *)
Inductive Handler : Type := EndCallback | DragCallback.

Inductive EventType : Type :=
| MOUSE_UP | MOUSE_DRAG | MOUSE_MOVE | MOUSE_CLICK
| TOUCH_END | TOUCH_DRAG | TOUCH_TAP.

(** The annotation drawn while the rectangle is dragged: the metadata the
    tool fills in and the four handles. *)
Record Annotation : Type := {
  viewPlaneNormal : Point3;
  viewUp : Point3;
  FrameOfReferenceUID : string;
  segmentColor_of : list Z;
  handles_points : list Point3
}.

Record EditData : Type := {
  annotation : Annotation;
  segmentIndex : Z;
  segmentationId : string;
  segmentsLocked : list Z;
  segmentColor : list Z;
  viewportIdsToRender : list string;
  handleIndex : Z;
  movingTextBox : bool;
  newAnnotation : bool;
  hasMoved : bool;
  volumeId : option string;
  referencedVolumeId : option string;
  imageId : option string
}.

(** What the tool asks of the core library and of the segmentation state,
    which are outside this file. *)
Record Services : Type := {
  getEnabledElement : Element -> option string;        (* the viewport's id *)
  isBaseVolumeViewport : string -> bool;
  camera_viewPlaneNormal : string -> Point3;
  camera_viewUp : string -> Point3;
  getFrameOfReferenceUID : string -> string;
  getActiveSegmentation : string -> option string;     (* its segmentationId *)
  getActiveSegmentIndex : string -> Z;
  getLockedSegmentIndices : string -> list Z;
  getSegmentIndexColor : string -> string -> Z -> list Z;
  labelmapVolumeId : string -> string;
  volumeReferencedVolumeId : string -> string;
  getCurrentLabelmapImageIdForViewport : string -> string -> string;
  getViewportIdsWithToolToRender : Element -> list string
}.

(** The tool and what it has done to the page. *)
Record State : Type := {
  isDrawing : bool;
  editData : option EditData;
  listeners : list (Element * EventType * Handler);
  hiddenCursors : list Element;
  defaultPrevented : bool;
  renders : list (list string)
}.

Definition set_isDrawing (b : bool) (st : State) : State :=
  {| isDrawing := b; editData := editData st; listeners := listeners st;
     hiddenCursors := hiddenCursors st; defaultPrevented := defaultPrevented st;
     renders := renders st |}.

Definition set_editData (e : option EditData) (st : State) : State :=
  {| isDrawing := isDrawing st; editData := e; listeners := listeners st;
     hiddenCursors := hiddenCursors st; defaultPrevented := defaultPrevented st;
     renders := renders st |}.

(** [_activateDraw]: the event handlers of the draw loop are added. *)
Definition _activateDraw (element : Element) (st : State) : State :=
  {| isDrawing := isDrawing st; editData := editData st;
     listeners :=
       listeners st
       ++ [(element, MOUSE_UP, EndCallback); (element, MOUSE_DRAG, DragCallback);
           (element, MOUSE_MOVE, DragCallback); (element, MOUSE_CLICK, EndCallback);
           (element, TOUCH_END, EndCallback); (element, TOUCH_DRAG, DragCallback);
           (element, TOUCH_TAP, EndCallback)];
     hiddenCursors := hiddenCursors st; defaultPrevented := defaultPrevented st;
     renders := renders st |}.

(** [hideElementCursor], [evt.preventDefault] and
    [triggerAnnotationRenderForViewportIds]. *)
Definition finish_mouse_down (element : Element) (viewportIds : list string)
    (st : State) : State :=
  {| isDrawing := isDrawing st; editData := editData st;
     listeners := listeners st;
     hiddenCursors := hiddenCursors st ++ [element];
     defaultPrevented := true;
     renders := renders st ++ [viewportIds] |}.

(** [preMouseDownCallback(evt)] with [evt.detail]'s element and world
    position; it returns [true] or nothing. *)
Definition preMouseDownCallback (services : Services) (element : Element)
    (worldPos : Point3) (st : State) : result (option bool) * State :=
  (* already drawing: the final click belongs to the end callback *)
  if isDrawing st then (Ok None, st)
  else
    match getEnabledElement services element with
    | None => (Throw "TypeError", st)
    | Some viewport =>
        let st := set_isDrawing true st in
        match getActiveSegmentation services viewport with
        | None =>
            (Throw "No active segmentation detected, create one before using scissors tool",
             st)
        | Some segmentationId =>
            let segmentIndex := getActiveSegmentIndex services segmentationId in
            let segmentsLocked := getLockedSegmentIndices services segmentationId in
            let segmentColor :=
              getSegmentIndexColor services viewport segmentationId segmentIndex in
            let annotation :=
              {| viewPlaneNormal := camera_viewPlaneNormal services viewport;
                 viewUp := camera_viewUp services viewport;
                 FrameOfReferenceUID := getFrameOfReferenceUID services viewport;
                 segmentColor_of := segmentColor;
                 handles_points := [worldPos; worldPos; worldPos; worldPos] |} in
            let viewportIdsToRender :=
              getViewportIdsWithToolToRender services element in
            let volume := labelmapVolumeId services segmentationId in
            let volumeViewport := isBaseVolumeViewport services viewport in
            let st :=
              set_editData
                (Some {| annotation := annotation;
                         segmentIndex := segmentIndex;
                         segmentationId := segmentationId;
                         segmentsLocked := segmentsLocked;
                         segmentColor := segmentColor;
                         viewportIdsToRender := viewportIdsToRender;
                         handleIndex := 3;
                         movingTextBox := false;
                         newAnnotation := true;
                         hasMoved := false;
                         volumeId :=
                           if volumeViewport then Some volume else None;
                         referencedVolumeId :=
                           if volumeViewport
                           then Some (volumeReferencedVolumeId services volume)
                           else None;
                         imageId :=
                           if volumeViewport then None
                           else Some (getCurrentLabelmapImageIdForViewport
                                        services viewport segmentationId) |})
                st in
            let st := _activateDraw element st in
            let st := finish_mouse_down element viewportIdsToRender st in
            (Ok (Some true), st)
        end
    end.

(** The seven listeners of the draw loop on an element. *)
Definition draw_listeners (element : Element)
    : list (Element * EventType * Handler) :=
  [(element, MOUSE_UP, EndCallback); (element, MOUSE_DRAG, DragCallback);
   (element, MOUSE_MOVE, DragCallback); (element, MOUSE_CLICK, EndCallback);
   (element, TOUCH_TAP, EndCallback); (element, TOUCH_END, EndCallback);
   (element, TOUCH_DRAG, DragCallback)].

#[global] Instance Handler_eq_dec : EqDecision Handler.
Proof. solve_decision. Defined.

#[global] Instance EventType_eq_dec : EqDecision EventType.
Proof. solve_decision. Defined.

(** [element.removeEventListener(type, handler)]. *)
Definition removeEventListener (listener : Element * EventType * Handler)
    (listeners : list (Element * EventType * Handler))
    : list (Element * EventType * Handler) :=
  filter (fun l => l <> listener) listeners.

(** [_deactivateDraw]: the event handlers of the draw loop are removed. *)
Definition _deactivateDraw (element : Element) (st : State) : State :=
  {| isDrawing := isDrawing st; editData := editData st;
     listeners :=
       foldl (fun listeners listener => removeEventListener listener listeners)
         (listeners st) (draw_listeners element);
     hiddenCursors := hiddenCursors st; defaultPrevented := defaultPrevented st;
     renders := renders st |}.

(** The tool with what ending a rectangle does besides: the cursors
    reset, the strategy applied (to the enabled element, with the edit
    data and the points as operation data) and the memos closed. *)
Record Session : Type := {
  scissors : State;
  resetCursors : list Element;
  applied : list (option string * EditData * list Point3);
  memosDone : nat
}.

Section EndCallback.

(** [applyActiveStrategy] of the base tool runs the configured strategy,
    which may throw: the message it throws with, if any. *)
Variable strategy_throws : option string -> EditData -> list Point3 -> option string.

(** [_endCallback(evt)] with [evt.detail]'s element. *)
Definition _endCallback (services : Services) (element : Element)
    (s : Session) : result unit * Session :=
  match editData (scissors s) with
  | None => (Throw "TypeError", s)
  | Some edit =>
      if newAnnotation edit && negb (hasMoved edit) then (Ok tt, s)
      else
        let points := handles_points (annotation edit) in
        let st := _deactivateDraw element (scissors s) in
        let enabledElement := getEnabledElement services element in
        let st := set_isDrawing false (set_editData None st) in
        let s :=
          {| scissors := st;
             resetCursors := resetCursors s ++ [element];
             applied := applied s ++ [(enabledElement, edit, points)];
             memosDone := memosDone s |} in
        match strategy_throws enabledElement edit points with
        | Some message => (Throw message, s)
        | None =>
            (Ok tt,
             {| scissors := scissors s; resetCursors := resetCursors s;
                applied := applied s; memosDone := S (memosDone s) |})
        end
  end.

End EndCallback.

End RectangleScissors.

(** ** Multiframe image ids (utils/demo/helpers/convertMultiframeImageIds) *)

Module Multiframe.

(** The MultiframeModule metadata of an image id: the number of frames,
    an integer, when the module has one. *)
Record MultiframeModule : Type := {
  NumberOfFrames : option Z
}.

(** [imageId.indexOf('/frames/')]. *)
Definition indexOf_frames (imageId : string) : Z :=
  match String.index 0 "/frames/" imageId with
  | Some n => Z.of_nat n
  | None => -1
  end.

(** [imageId.slice(0, imageId.indexOf('/frames/') + 8)]. *)
Definition imageIdFrameless (imageId : string) : string :=
  String.substring 0 (Z.to_nat (indexOf_frames imageId + 8)) imageId.

(** [imageIdFrameless + (i + 1)]: the number is appended in decimal. *)
Definition frameImageId (imageIdFrameless : string) (i : Z) : string :=
  imageIdFrameless +:+ pretty (i + 1).

Section Convert.

(** [metaData.get('MultiframeModule', imageId)] of the core library. *)
Variable metaData_get : string -> option MultiframeModule.

(** The body of [for (let i = 0; i < NumberOfFrames; i++)]. *)
Definition push_frame (imageIdFrameless : string) (newImageIds : list string)
    (i : Z) : list string :=
  let newMetadata := metaData_get (frameImageId imageIdFrameless i) in
  let newImageId := frameImageId imageIdFrameless i in
  match newMetadata with
  | Some _ => newImageIds ++ [newImageId]
  | None => newImageIds
  end.

(** The body of [imageIds.forEach]. *)
Definition convert_one (newImageIds : list string) (imageId : string)
    : list string :=
  let imageIdFrameless := imageIdFrameless imageId in
  match metaData_get imageId with
  | Some {| NumberOfFrames := Some numberOfFrames |} =>
      if bool_decide (numberOfFrames = 0) then newImageIds ++ [imageId]
      else if 1 <? numberOfFrames then
        fold_left (push_frame imageIdFrameless) (seqZ 0 numberOfFrames)
          newImageIds
      else newImageIds ++ [imageId]
  | _ => newImageIds ++ [imageId]
  end.

Definition convertMultiframeImageIds (imageIds : list string) : list string :=
  fold_left convert_one imageIds [].

End Convert.

End Multiframe.

(** ** Sphere fill (tools/segmentation/strategies/fillSphere) *)

Module Sphere.

(** [export function fillOutsideSphere(): void]: whatever it is called
    with and in whatever state, it throws. *)
Definition fillOutsideSphere {Arguments State : Type} (arguments : Arguments)
    (st : State) : result unit * State :=
  (Throw "fill outside sphere not implemented", st).

End Sphere.


(** ** Annotations within a slice (utilities/planar/filterAnnotationsWithinSlice) *)

Module AnnotationFilter.

Definition Point3 : Type := float * float * float.

(** [metadata.planeRestriction]; a vector left out is [None]. *)
Record PlaneRestriction : Type := {
  inPlaneVector1 : option Point3;
  inPlaneVector2 : option Point3
}.

(** What the filter reads and writes of [annotation.metadata]. *)
Record Metadata : Type := {
  planeRestriction : option PlaneRestriction;
  referencedImageId : option string;
  viewPlaneNormal : option Point3;
  FrameOfReferenceUID : option string;
  cameraFocalPoint : option Point3
}.

(** An annotation: its metadata, [data.handles.points], the polyline of
    [data.contour] when there is a contour, and [isVisible]. *)
Record Annotation : Type := {
  metadata : Metadata;
  handles_points : list Point3;
  contour_polyline : option (list Point3);
  isVisible : bool
}.

Record Camera : Type := {
  camera_viewPlaneNormal : Point3;
  focalPoint : Point3
}.

(** A string that is neither [undefined] nor empty. *)
Definition truthy (s : option string) : bool :=
  match s with
  | Some s => negb (bool_decide (s = EmptyString))
  | None => false
  end.

Definition set_viewPlaneNormal (normal : Point3) (focal : option Point3)
    (td : Annotation) : Annotation :=
  {| metadata :=
       {| planeRestriction := planeRestriction (metadata td);
          referencedImageId := referencedImageId (metadata td);
          viewPlaneNormal := Some normal;
          FrameOfReferenceUID := FrameOfReferenceUID (metadata td);
          cameraFocalPoint :=
            match focal with
            | Some f => Some f
            | None => cameraFocalPoint (metadata td)
            end |};
     handles_points := handles_points td;
     contour_polyline := contour_polyline td;
     isVisible := isVisible td |}.

Section Filter.

(** From outside this file: [utilities.isEqual] with its default
    tolerance, [CONSTANTS.EPSILON], the rounding of a number stored in a
    Float32Array (what [vec3.create] and [vec3.fromValues] make), and
    [metaData.get('imagePlaneModule', imageId).imageOrientationPatient],
    [None] when there is no module or no orientation. *)
Variable isEqual : float -> float -> bool.
Variable EPSILON : float.
Variable float32 : float -> float.
Variable imageOrientationPatient : string -> option (list float).

Definition PARALLEL_THRESHOLD : float := (1 - EPSILON)%float.

(** gl-matrix: [vec3.dot(a, b)], [vec3.sub(vec3.create(), a, b)],
    [vec3.fromValues(x, y, z)] and [vec3.cross(vec3.create(), a, b)]. *)
Definition dot (a b : Point3) : float :=
  let '(a0, a1, a2) := a in
  let '(b0, b1, b2) := b in
  (a0 * b0 + a1 * b1 + a2 * b2)%float.

Definition sub (a b : Point3) : Point3 :=
  let '(a0, a1, a2) := a in
  let '(b0, b1, b2) := b in
  (float32 (a0 - b0), float32 (a1 - b1), float32 (a2 - b2))%float.

Definition fromValues (x y z : float) : Point3 :=
  (float32 x, float32 y, float32 z).

Definition cross (a b : Point3) : Point3 :=
  let '(ax, ay, az) := a in
  let '(bx, by', bz) := b in
  (float32 (ay * bz - az * by'), float32 (az * bx - ax * bz),
   float32 (ax * by' - ay * bx))%float.

(** [array[i]] as a number: NaN when there is no such element. *)
Definition at_index (array : list float) (i : nat) : float :=
  default nan (array !! i).

(** The callback of [annotations.filter]: whether the annotation is kept,
    and the annotation as the callback leaves it. *)
Definition parallel_normals (camera : Camera) (td : Annotation)
    : result bool * Annotation :=
  let viewPlaneNormal := camera_viewPlaneNormal camera in
  let m := metadata td in
  match planeRestriction m with
  | Some restriction =>
      let crosses (v : option Point3) :=
        match v with
        | Some v => negb (isEqual 0 (dot viewPlaneNormal v))
        | None => false
        end in
      if crosses (inPlaneVector1 restriction) then (Ok false, td)
      else if crosses (inPlaneVector2 restriction) then (Ok false, td)
      else (Ok true, td)
  | None =>
      if negb (truthy (referencedImageId m))
         && negb (bool_decide (is_Some (AnnotationFilter.viewPlaneNormal m)))
         && truthy (FrameOfReferenceUID m)
      then
        if forallb (fun point =>
                      isEqual (dot (sub point (focalPoint camera)) viewPlaneNormal) 0)
             (handles_points td)
        then (Ok true, set_viewPlaneNormal viewPlaneNormal
                         (Some (focalPoint camera)) td)
        else (Ok false, td)
      else
        let computed :=
          (* historical data, saved without the normal *)
          match AnnotationFilter.viewPlaneNormal m, referencedImageId m with
          | None, Some imageId =>
              if truthy (Some imageId) then
                match imageOrientationPatient imageId with
                | Some orientation =>
                    let rowCosineVec :=
                      fromValues (at_index orientation 0) (at_index orientation 1)
                        (at_index orientation 2) in
                    let colCosineVec :=
                      fromValues (at_index orientation 3) (at_index orientation 4)
                        (at_index orientation 5) in
                    let normal := cross rowCosineVec colCosineVec in
                    Ok (Some normal, set_viewPlaneNormal normal None td)
                | None => Throw "TypeError"
                end
              else Ok (None, td)
          | normal, _ => Ok (normal, td)
          end in
        match computed with
        | Throw message => (Throw message, td)
        | Ok (None, td) => (Throw "TypeError", td)   (* vec3.dot(_, undefined) *)
        | Ok (Some normal, td) =>
            (Ok (PARALLEL_THRESHOLD <? abs (dot viewPlaneNormal normal))%float, td)
        end
  end.

(** [annotations.filter(callback)]: the annotations kept, and all the
    annotations as the callbacks leave them; a callback that throws ends
    the filter. *)
Fixpoint filter_parallel (camera : Camera) (annotations : list Annotation)
    : result (list Annotation) * list Annotation :=
  match annotations with
  | [] => (Ok [], [])
  | td :: rest =>
      match parallel_normals camera td with
      | (Throw message, td) => (Throw message, td :: rest)
      | (Ok keep, td) =>
          let '(kept, rest) := filter_parallel camera rest in
          (match kept with
           | Ok kept => Ok (if keep then td :: kept else kept)
           | Throw message => Throw message
           end,
           td :: rest)
      end
  end.

(** [data.handles.points[0] || data.contour?.polyline[0]]. *)
Definition first_point (annotation : Annotation) : option Point3 :=
  match head (handles_points annotation) with
  | Some point => Some point
  | None => contour_polyline annotation ≫= head
  end.

(** The body of the second loop: whether the annotation is pushed. *)
Definition within_slice (camera : Camera) (spacingInNormalDirection : float)
    (annotation : Annotation) : bool :=
  let halfSpacingInNormalDirection := (spacingInNormalDirection / 2)%float in
  if negb (isVisible annotation) then false
  else
    match first_point annotation with
    | None => true       (* a key image or the like is just included *)
    | Some point =>
        let dir := sub (focalPoint camera) point in
        let dot := dot dir (camera_viewPlaneNormal camera) in
        (abs dot <? halfSpacingInNormalDirection)%float
    end.

(** The annotations returned, and the annotations given as the filter
    leaves them. *)
Definition filterAnnotationsWithinSlice (annotations : list Annotation)
    (camera : Camera) (spacingInNormalDirection : float)
    : result (list Annotation) * list Annotation :=
  let '(annotationsWithParallelNormals, annotations) :=
    filter_parallel camera annotations in
  (match annotationsWithParallelNormals with
   | Ok parallel =>
       Ok (List.filter (within_slice camera spacingInNormalDirection) parallel)
   | Throw message => Throw message
   end,
   annotations).

End Filter.

End AnnotationFilter.
(** * Properties *)

(** ** JavaScript numbers *)

Section JSFacts.
Import JS.

Lemma wrap32_in_int32 z : in_int32 (wrap32 z).
Proof.
  unfold in_int32, wrap32.
  pose proof (Z.mod_pos_bound (z + 2 ^ 31) (2 ^ 32) ltac:(lia)). lia.
Qed.

Lemma wrap32_id z : in_int32 z -> wrap32 z = z.
Proof.
  unfold in_int32, wrap32. intros Hz.
  rewrite Z.mod_small by lia. lia.
Qed.

Lemma ToInt32_in_int32 x : in_int32 (ToInt32 x).
Proof.
  unfold ToInt32. destruct (integral_part x).
  - apply wrap32_in_int32.
  - unfold in_int32. lia.
Qed.

Lemma ToInt32_integral_part x z :
  integral_part x = Some z -> in_int32 z -> ToInt32 x = z.
Proof.
  unfold ToInt32. intros -> Hz. by apply wrap32_id.
Qed.


(** *** The order of numbers

    Comparisons go through the specification of the primitive floats:
    NaN compares with nothing, and the other numbers are totally ordered. *)

Lemma SFcompare_refl (x : spec_float) :
  x <> S754_nan -> SFcompare x x = Some Eq.
Proof.
  destruct x as [s|s| |s m e]; simpl; try done; intros _.
  - by destruct s.
  - rewrite Z.compare_refl.
    assert (Pos.compare_cont Eq m m = Eq) as -> by apply Pos.compare_cont_refl.
    by destruct s.
Qed.

Lemma SFcompare_antisym (x y : spec_float) :
  SFcompare y x = CompOpp <$> SFcompare x y.
Proof.
  destruct x as [sx|sx| |sx mx ex], y as [sy|sy| |sy my ey]; simpl;
    try done; try (by destruct sx); try (by destruct sy);
    try (by destruct sx, sy).
  assert (He : (ey ?= ex) = CompOpp (ex ?= ey)) by apply Z.compare_antisym.
  assert (Hm : Pos.compare_cont Eq my mx = CompOpp (Pos.compare_cont Eq mx my)).
  { by rewrite (Pos.compare_cont_antisym mx my Eq). }
  rewrite He, Hm.
  by destruct sx, sy, (ex ?= ey), (Pos.compare_cont Eq mx my).
Qed.

Lemma is_nan_spec (x : float) : is_nan x = false <-> Prim2SF x <> S754_nan.
Proof.
  unfold is_nan. rewrite FloatAxioms.eqb_spec. unfold SFeqb. split.
  - intros H Hnan. by rewrite Hnan in H.
  - intros H. by rewrite SFcompare_refl.
Qed.

Lemma SFcompare_number (x y : spec_float) :
  x <> S754_nan -> y <> S754_nan -> is_Some (SFcompare x y).
Proof.
  destruct x as [sx|sx| |sx mx ex], y as [sy|sy| |sy my ey]; simpl;
    try done; eauto.
Qed.

Lemma leb_refl (x : float) : is_nan x = false -> (x <=? x)%float = true.
Proof.
  rewrite is_nan_spec, FloatAxioms.leb_spec. intros H. unfold SFleb.
  by rewrite SFcompare_refl.
Qed.

Lemma ltb_leb (x y : float) : (x <? y)%float = true -> (x <=? y)%float = true.
Proof.
  rewrite FloatAxioms.ltb_spec, FloatAxioms.leb_spec. unfold SFltb, SFleb.
  by destruct (SFcompare _ _) as [[]|].
Qed.

Lemma ltb_false_leb (x y : float) :
  is_nan x = false -> is_nan y = false ->
  (x <? y)%float = false -> (y <=? x)%float = true.
Proof.
  rewrite !is_nan_spec, FloatAxioms.ltb_spec, FloatAxioms.leb_spec. unfold SFltb, SFleb.
  intros Hx Hy. rewrite (SFcompare_antisym (Prim2SF x) (Prim2SF y)).
  destruct (SFcompare_number _ _ Hx Hy) as [c ->]. by destruct c.
Qed.

Lemma leb_numbers (x y : float) :
  (x <=? y)%float = true -> is_nan x = false /\ is_nan y = false.
Proof.
  rewrite !is_nan_spec, FloatAxioms.leb_spec. unfold SFleb. intros H.
  split; intros Hnan; rewrite Hnan in H; simpl in H; [done|].
  by destruct (Prim2SF x).
Qed.

End JSFacts.

(** ** CINE playback *)

Section CineTimeouts.
Import Cine.

Example timeouts_uniform :
  _getPlayClipTimeouts [0; 40; 40; 40]%float (JS.Num 1) = ([40; 40; 40; 40], false).
Proof. vm_compute. reflexivity. Qed.

Example timeouts_varying :
  _getPlayClipTimeouts [0; 33.5; 40; 50]%float (JS.Num 0.5) = ([67; 80; 100; 82], true).
Proof. vm_compute. reflexivity. Qed.

Example timeouts_speed_not_number :
  _getPlayClipTimeouts [0; 33.5; 40]%float JS.NotNum = ([33; 40; 36], true).
Proof. vm_compute. reflexivity. Qed.

Example timeouts_wrap :
  _getPlayClipTimeouts [0; 3000000000; 3000000000]%float (JS.Num 1)
  = ([-1294967296; -1294967296; -1294967296], false).
Proof. vm_compute. reflexivity. Qed.

(** The produced delays, as the source computes them one by one. *)
Definition delay_at (vector : list float) (s : float) (i : nat) : Z :=
  JS.ToInt32 (element_number vector i / s)%float.

(** The running sum the loop keeps, a JavaScript number. *)
Definition float_sum (delays : list Z) : float :=
  fold_left (fun a d => (a + JS.of_Z d)%float) delays 0%float.

(** The average of the delays as JavaScript computes it. *)
Definition average (delays : list Z) : float :=
  (float_sum delays / JS.of_Z (Z.of_nat (length delays)))%float.

Definition all_equal (l : list Z) : Prop :=
  forall i j x y, l !! i = Some x -> l !! j = Some y -> x = y.

Lemma all_equal_head (l : list Z) :
  all_equal l <-> Forall (fun d => Some d = head l) l.
Proof.
  split.
  - intros Heq. apply Forall_lookup_2. intros i x Hi.
    destruct l as [|y l']; [by rewrite lookup_nil in Hi|].
    simpl. f_equal. by apply (Heq i 0%nat).
  - intros Hall i j x y Hi Hj.
    pose proof (Forall_lookup_1 _ _ _ _ Hall Hi) as Hx.
    pose proof (Forall_lookup_1 _ _ _ _ Hall Hj) as Hy.
    simpl in Hx, Hy. congruence.
Qed.

(** After [k] rounds the loop holds the first [k] delays, their head as the
    sample, their sum, and whether one of them differs from the sample. *)
Lemma timeouts_loop_rounds (vector : list float) (s : float) (k : nat) :
  let st := fold_left (timeouts_step vector s) (seq 1 k)
              {| timeouts := []; sample := None; isTimeVarying := false;
                 sum := 0%float |} in
  timeouts st = map (delay_at vector s) (seq 1 k)
  /\ sample st = head (timeouts st)
  /\ (isTimeVarying st = false <->
      Forall (fun d => Some d = head (timeouts st)) (timeouts st))
  /\ sum st = float_sum (timeouts st).
Proof.
  induction k as [|k IH]; cbv zeta in *.
  - simpl. repeat split; auto.
  - rewrite seq_S, fold_left_app.
    set (st := fold_left _ (seq 1 k) _) in *.
    destruct IH as (Hto & Hsample & Htv & Hsum).
    simpl.
    fold (delay_at vector s (S k)).
    split; [by rewrite Hto, map_app|].
    destruct k as [|k].
    + (* the first round: i = 1 *)
      assert (Hnil : timeouts st = []) by (by rewrite Hto).
      rewrite Hnil in *. simpl. split; [done|]. split.
      * split; [intros _; by repeat constructor | intros _; reflexivity].
      * reflexivity.
    + (* a later round: the sample is the head of what was produced *)
      replace (S k =? 0)%nat with false by reflexivity.
      assert (Hne : timeouts st <> []) by (rewrite Hto; discriminate).
      assert (Hhd : head (timeouts st ++ [delay_at vector s (S (S k))])
                    = head (timeouts st)).
      { destruct (timeouts st); [done | reflexivity]. }
      rewrite Hhd. split; [done|]. split.
      * rewrite Forall_app, Forall_singleton, <- Htv, <- Hsample.
        case_bool_decide as Hd.
        -- split; [discriminate | intros [_ ?]; done].
        -- tauto.
      * unfold float_sum. rewrite fold_left_app. simpl. by rewrite Hsum.
Qed.

Lemma delays_lookup (vector : list float) (s : float) (i : nat) (v : float) :
  (1 <= i)%nat -> vector !! i = Some v ->
  map (delay_at vector s) (seq 1 (length vector - 1)) !! (i - 1)%nat
  = Some (JS.ToInt32 (v / s)%float).
Proof.
  intros Hi Hv. pose proof (lookup_lt_Some _ _ _ Hv) as Hlt.
  rewrite list_lookup_fmap, lookup_seq_lt by lia. simpl.
  unfold delay_at, element_number.
  replace (S (i - 1)) with i by lia. by rewrite Hv.
Qed.

Lemma effective_speed_cases (speed : JS.value) :
  (speed = JS.NotNum -> effective_speed speed = 1%float)
  /\ (forall x, speed = JS.Num x -> (x <=? 0)%float = true ->
        effective_speed speed = 1%float)
  /\ (forall x, speed = JS.Num x -> (x <=? 0)%float = false ->
        effective_speed speed = x).
Proof.
  repeat split.
  - by intros ->.
  - intros x -> Hx. simpl. by rewrite Hx.
  - intros x -> Hx. simpl. by rewrite Hx.
Qed.

(** The delays as the code computes them.  For a frame time vector of
    length n >= 2 and any speed,
    [_getPlayClipTimeouts] drops the first element and produces, for each i
    in 1..n-1, the 32-bit integer [(vector[i] / s) | 0]; that is the integral
    part of [vector[i] / s] whenever the quotient is finite and its integral
    part lies in [-2^31, 2^31).  [s] is 1 when [typeof speed] is not
    ['number'] or [speed <= 0], and [speed] otherwise.  [isTimeVarying] is
    true exactly when the produced delays are not all equal.  One final
    delay is appended: [average | 0] when time-varying (the integral part of
    the average under the same range condition), a copy of the first
    produced delay otherwise.  The result has n elements. *)
Theorem getPlayClipTimeouts_delays (vector : list float) (speed : JS.value) :
  (2 <= length vector)%nat ->
  let s := effective_speed speed in
  let r := _getPlayClipTimeouts vector speed in
  exists (delays : list Z) (final : Z),
    r.1 = delays ++ [final]
    /\ length delays = (length vector - 1)%nat
    /\ (forall i v, (1 <= i)%nat -> vector !! i = Some v ->
          delays !! (i - 1)%nat = Some (JS.ToInt32 (v / s)%float))
    /\ (forall i v z, (1 <= i)%nat -> vector !! i = Some v ->
          JS.integral_part (v / s)%float = Some z -> JS.in_int32 z ->
          delays !! (i - 1)%nat = Some z)
    /\ ((speed = JS.NotNum -> s = 1%float)
        /\ (forall x, speed = JS.Num x -> (x <=? 0)%float = true -> s = 1%float)
        /\ (forall x, speed = JS.Num x -> (x <=? 0)%float = false -> s = x))
    /\ (r.2 = true <-> ~ all_equal delays)
    /\ (r.2 = true -> final = JS.ToInt32 (average delays))
    /\ (r.2 = true -> forall z, JS.integral_part (average delays) = Some z ->
          JS.in_int32 z -> final = z)
    /\ (r.2 = false -> delays !! 0%nat = Some final)
    /\ length r.1 = length vector.
Proof.
  intros Hlen s r.
  pose proof (timeouts_loop_rounds vector s (length vector - 1)) as Hloop.
  cbv zeta in Hloop. fold (timeouts_loop vector s) in Hloop.
  destruct Hloop as (Hto & Hsample & Htv & Hsum).
  assert (Hn : length (timeouts (timeouts_loop vector s))
               = (length vector - 1)%nat).
  { by rewrite Hto, length_map, length_seq. }
  assert (Hpos : (0 <? length (timeouts (timeouts_loop vector s)))%nat = true).
  { apply Nat.ltb_lt. lia. }
  set (delays := timeouts (timeouts_loop vector s)) in *.
  assert (Hr1 : exists final, r.1 = delays ++ [final]
            /\ (r.2 = true -> final = JS.ToInt32 (average delays))
            /\ (r.2 = false -> delays !! 0%nat = Some final)).
  { subst r. unfold _getPlayClipTimeouts. fold s. fold delays. simpl.
    rewrite Hpos. eexists. split; [reflexivity|]. split.
    - intros ->. unfold average. by rewrite Hsum.
    - intros ->. destruct delays; [simpl in Hn; lia | reflexivity]. }
  destruct Hr1 as (final & Hr1 & Hfin_tv & Hfin_const).
  assert (Hr2 : r.2 = isTimeVarying (timeouts_loop vector s)) by reflexivity.
  exists delays, final.
  split; [done|]. split; [done|].
  split. { intros i v Hi Hv. subst delays. rewrite Hto. by apply delays_lookup. }
  split.
  { intros i v z Hi Hv Hz Hrange. subst delays. rewrite Hto.
    rewrite (delays_lookup vector s i v Hi Hv).
    f_equal. by apply ToInt32_integral_part. }
  split; [apply effective_speed_cases|].
  split.
  { rewrite Hr2, all_equal_head, <- Htv. by destruct (isTimeVarying _). }
  split; [done|]. split.
  { intros Htrue z Hz Hrange. rewrite (Hfin_tv Htrue).
    by apply ToInt32_integral_part. }
  split; [done|].
  rewrite Hr1, length_app, Hn. simpl. lia.
Qed.

Lemma getPlayClipTimeouts_delays_witness :
  (2 <= length [0; 33.5; 40; 50]%float)%nat
  /\ exists (delays : list Z) (final : Z),
       (_getPlayClipTimeouts [0; 33.5; 40; 50]%float (JS.Num 0.5)).1
         = delays ++ [final]
       /\ length delays = 3%nat.
Proof.
  split; [simpl; lia|].
  destruct (getPlayClipTimeouts_delays [0; 33.5; 40; 50]%float (JS.Num 0.5))
    as (delays & final & H1 & H2 & _); [simpl; lia|].
  exists delays, final. split; [exact H1 | exact H2].
Defined.

(** C2.  The delay is not the integral part of a large quotient.  For
    the frame time vector [0, 3000000000, 3000000000] and speed 1 the
    quotient 3000000000 has integral part 3000000000, and the delay
    [_getPlayClipTimeouts] produces for it is -1294967296: [| 0] reduces
    the integral part modulo 2^32. *)
Lemma getPlayClipTimeouts_delay_wraps :
  let vector := [0; 3000000000; 3000000000]%float in
  exists (v : float) (d : Z),
    vector !! 1%nat = Some v
    /\ (_getPlayClipTimeouts vector (JS.Num 1)).1 !! 0%nat = Some d
    /\ d = -1294967296
    /\ JS.integral_part (v / effective_speed (JS.Num 1))%float = Some 3000000000.
Proof.
  exists 3000000000%float, (-1294967296).
  repeat split; vm_compute; reflexivity.
Qed.

End CineTimeouts.

(** *** Reasoning about computations *)

Section Preservation.
Import Cine.

(** Every run of [m] takes a world to one related to it by [R]. *)
Definition preserves (R : World -> World -> Prop) {A} (m : M A) : Prop :=
  forall w, R w (m w).2.

(** A run of [m] leaves the world as it was. *)
Definition readonly {A} (m : M A) : Prop := forall w, (m w).2 = w.

Lemma readonly_ret {A} (a : A) : readonly (ret a).
Proof. by intros w. Qed.

Lemma readonly_throw {A} (e : string) : readonly (@throw A e).
Proof. by intros w. Qed.

Lemma readonly_gets {A} (f : World -> A) : readonly (gets f).
Proof. by intros w. Qed.

Lemma readonly_bind {A B} (m : M A) (k : A -> M B) :
  readonly m -> (forall a, readonly (k a)) -> readonly (bind m k).
Proof.
  intros Hm Hk w. unfold bind. specialize (Hm w).
  destruct (m w) as [[a|e] w']; simpl in *; subst; [apply Hk | done].
Qed.

Lemma readonly_getEnabledElement e : readonly (getEnabledElement e).
Proof. apply readonly_gets. Qed.

Lemma readonly_getViewport v : readonly (getViewport v).
Proof. apply readonly_gets. Qed.

Lemma readonly_getVolume v : readonly (getVolume v).
Proof. apply readonly_gets. Qed.

Lemma readonly_getToolStateByViewportId v :
  readonly (getToolStateByViewportId v).
Proof. apply readonly_gets. Qed.

Lemma readonly_getToolState e : readonly (getToolState e).
Proof.
  apply readonly_bind; [apply readonly_gets|].
  intros [v|]; [apply readonly_gets | apply readonly_throw].
Qed.

Lemma readonly_isDynamicVolume v : readonly (isDynamicVolume v).
Proof. destruct v; [apply readonly_gets | apply readonly_ret]. Qed.

Lemma readonly_getVolumeFromViewport v : readonly (_getVolumeFromViewport v).
Proof.
  apply readonly_bind; [apply readonly_gets|]. intros vp.
  destruct (vp_type vp); try apply readonly_ret.
  destruct (vp_allVolumeIds vp) as [[|first rest]|]; try apply readonly_ret.
  apply readonly_bind; [apply readonly_gets|]. intros d. apply readonly_gets.
Qed.

Context (R : World -> World -> Prop) `{!PreOrder R}.

Lemma readonly_preserves {A} (m : M A) : readonly m -> preserves R m.
Proof. intros Hm w. rewrite Hm. reflexivity. Qed.

Lemma preserves_ret {A} (a : A) : preserves R (ret a).
Proof. intros w. reflexivity. Qed.

Lemma preserves_throw {A} (e : string) : preserves R (@throw A e).
Proof. intros w. reflexivity. Qed.

Lemma preserves_gets {A} (f : World -> A) : preserves R (gets f).
Proof. intros w. reflexivity. Qed.

Lemma preserves_modify (f : World -> World) :
  (forall w, R w (f w)) -> preserves R (modify f).
Proof. intros Hf w. apply Hf. Qed.

Lemma preserves_bind {A B} (m : M A) (k : A -> M B) :
  preserves R m -> (forall a, preserves R (k a)) -> preserves R (bind m k).
Proof.
  intros Hm Hk w. unfold bind. specialize (Hm w).
  destruct (m w) as [[a|e] w']; simpl in *.
  - etransitivity; [exact Hm | apply Hk].
  - exact Hm.
Qed.

Lemma preserves_when (b : bool) (m : M unit) :
  preserves R m -> preserves R (when b m).
Proof. intros Hm. destruct b; [exact Hm | apply preserves_ret]. Qed.

Lemma preserves_try_catch {A} (m h : M A) :
  preserves R m -> preserves R h -> preserves R (try_catch m h).
Proof.
  intros Hm Hh w. unfold try_catch. specialize (Hm w).
  destruct (m w) as [[a|e] w']; simpl in *.
  - exact Hm.
  - etransitivity; [exact Hm | apply Hh].
Qed.

End Preservation.

(** *** What stopping a clip may change *)

Section Stopping.
Import Cine.

Definition is_pause (e : Effect) : Prop := exists v, e = Paused v.

(** Stopping clips cancels timers, forgets their ids, removes entries of
    [dynamicVolumesPlayingMap] and pauses videos; nothing else. *)
Record stops (w w' : World) : Prop := {
  stops_enabledElements : enabledElements w' = enabledElements w;
  stops_viewports : viewports w' = viewports w;
  stops_cachedVolumes : cachedVolumes w' = cachedVolumes w;
  stops_volumes : volumes w' = volumes w;
  stops_state : state w' = state w;
  stops_contexts : contexts w' = contexts w;
  stops_nextRef : nextRef w' = nextRef w;
  stops_nextTimer : nextTimer w' = nextTimer w;
  stops_playClipData : forall r,
    playClipData w' r = playClipData w r
    \/ playClipData w' r = with_intervalId None (playClipData w r);
  stops_timers : timers w' ⊆ timers w;
  stops_dynamicVolumesPlayingMap :
    dynamicVolumesPlayingMap w' ⊆ dynamicVolumesPlayingMap w;
  stops_trace : exists l, trace w' = trace w ++ l /\ Forall is_pause l
}.

#[global] Instance stops_preorder : PreOrder stops.
Proof.
  split.
  - intros w. split; auto. exists []. split; [by rewrite app_nil_r | constructor].
  - intros w1 w2 w3 H12 H23. destruct H12, H23.
    split; try congruence; try (etransitivity; eassumption).
    + intros r.
      destruct (stops_playClipData1 r) as [-> | ->];
        destruct (stops_playClipData0 r) as [-> | ->]; auto.
    + destruct stops_trace0 as (l1 & Ht1 & Hl1).
      destruct stops_trace1 as (l2 & Ht2 & Hl2).
      exists (l1 ++ l2). split; [|by apply Forall_app].
      by rewrite Ht2, Ht1, app_assoc.
Qed.

Lemma stops_clear_timer (id : TimerId) (w : World) :
  stops w (set_timers (delete id) w).
Proof.
  split; simpl; auto.
  - apply delete_subseteq.
  - exists []. split; [by rewrite app_nil_r | constructor].
Qed.

Lemma stops_forget_id (r : Ref) (w : World) :
  stops w (set_playClipData r (with_intervalId None (playClipData w r)) w).
Proof.
  split; simpl; auto.
  - intros r'. destruct (decide (r = r')) as [->|Hne].
    + right. by rewrite fn_lookup_insert.
    + left. by rewrite fn_lookup_insert_ne.
  - exists []. split; [by rewrite app_nil_r | constructor].
Qed.

Lemma stops_delete_playing (v : VolumeId) (w : World) :
  stops w (set_dynamicVolumesPlayingMap (delete v) w).
Proof.
  split; simpl; auto.
  - apply delete_subseteq.
  - exists []. split; [by rewrite app_nil_r | constructor].
Qed.

Lemma stops_pause (v : ViewportId) (w : World) : stops w (emit (Paused v) w).
Proof.
  split; simpl; auto.
  exists [Paused v]. split; [done|]. constructor; [by exists v | constructor].
Qed.

Lemma stopClipWithData_stops (r : Ref) : preserves stops (_stopClipWithData r).
Proof.
  intros w. unfold _stopClipWithData, bind, gets, modify. simpl.
  destruct (intervalId (playClipData w r)) as [id|]; [|reflexivity].
  simpl. etransitivity; [apply stops_forget_id|].
  destruct (usingFrameTimeVector _); apply stops_clear_timer.
Qed.

Lemma stopClip_with_stops (k : Element -> M unit) :
  (forall e, preserves stops (k e)) ->
  forall e stopDynamicCine viewportId,
    preserves stops (_stopClip_with k e stopDynamicCine viewportId).
Proof.
  intros Hk e sdc vid. unfold _stopClip_with.
  apply preserves_bind; [typeclasses eauto | apply readonly_preserves, readonly_getEnabledElement; typeclasses eauto |].
  intros enabled. apply preserves_bind; [typeclasses eauto | |].
  - apply readonly_preserves; [typeclasses eauto|].
    destruct enabled as [v|].
    + apply readonly_bind; [apply readonly_getToolState | intros; apply readonly_ret].
    + destruct vid as [id|]; [|apply readonly_ret].
      case_bool_decide; [apply readonly_ret|].
      apply readonly_bind; [apply readonly_gets | intros; apply readonly_ret].
  - intros [toolState|]; [|apply preserves_ret; typeclasses eauto].
    apply preserves_bind; [typeclasses eauto | |].
    + destruct toolState; [apply stopClipWithData_stops | apply preserves_ret; typeclasses eauto].
    + intros _. destruct enabled as [v|]; [|apply preserves_ret; typeclasses eauto].
      apply preserves_bind; [typeclasses eauto | apply preserves_gets; typeclasses eauto |].
      intros vp.
      destruct (vp_type vp);
        try (apply preserves_when; [typeclasses eauto | apply Hk]).
      apply preserves_modify. apply stops_pause.
Qed.

Lemma stopDynamicVolumeCine_rec_stops (fuel : nat) (e : Element) :
  preserves stops (_stopDynamicVolumeCine_rec fuel e).
Proof.
  revert e. induction fuel as [|fuel IH]; intros e; simpl.
  - apply preserves_throw; typeclasses eauto.
  - apply preserves_bind; [typeclasses eauto | apply preserves_gets; typeclasses eauto |].
    intros [v|]; [|apply preserves_throw; typeclasses eauto].
    apply preserves_bind; [typeclasses eauto | apply preserves_gets; typeclasses eauto |].
    intros vp. destruct (vp_type vp); try (apply preserves_ret; typeclasses eauto).
    apply preserves_bind; [typeclasses eauto | apply readonly_preserves, readonly_getVolumeFromViewport; typeclasses eauto |].
    intros volume.
    apply preserves_bind; [typeclasses eauto | apply readonly_preserves, readonly_isDynamicVolume; typeclasses eauto |].
    intros dynamic. destruct volume as [volumeId|]; [|apply preserves_ret; typeclasses eauto].
    apply preserves_when; [typeclasses eauto|].
    apply preserves_bind; [typeclasses eauto | apply preserves_gets; typeclasses eauto |].
    intros other.
    apply preserves_bind; [typeclasses eauto | apply preserves_modify, stops_delete_playing |].
    intros _. destruct other as [other|]; [|apply preserves_ret; typeclasses eauto].
    apply preserves_when; [typeclasses eauto|].
    apply stopClip_with_stops. exact IH.
Qed.

Lemma stopDynamicVolumeCine_stops (e : Element) :
  preserves stops (_stopDynamicVolumeCine e).
Proof. intros w. apply stopDynamicVolumeCine_rec_stops. Qed.

Lemma stopClip_stops (e : Element) (stopDynamicCine : bool)
    (viewportId : option ViewportId) :
  preserves stops (_stopClip e stopDynamicCine viewportId).
Proof. apply stopClip_with_stops, stopDynamicVolumeCine_stops. Qed.

(** *** Stopping returns *)

Lemma stopClipWithData_ok (r : Ref) (w : World) :
  (_stopClipWithData r w).1 = Ok tt.
Proof.
  unfold _stopClipWithData, bind, gets, modify. simpl.
  destruct (intervalId (playClipData w r)); [|reflexivity].
  simpl. by destruct (usingFrameTimeVector _).
Qed.

Lemma getVolumeFromViewport_ok (v : ViewportId) (w : World) :
  exists volume, _getVolumeFromViewport v w = (Ok volume, w).
Proof.
  unfold _getVolumeFromViewport, bind, getViewport, getVolume, gets, ret. simpl.
  destruct (vp_type (viewports w v)); eauto.
  destruct (vp_allVolumeIds (viewports w v)) as [[|first rest]|]; eauto.
Qed.

Lemma isDynamicVolume_ok (volume : option VolumeId) (w : World) :
  exists b, isDynamicVolume volume w = (Ok b, w).
Proof. destruct volume; simpl; eauto. Qed.

(** [_stopClip] returns when the [_stopDynamicVolumeCine] it calls does so
    on enabled elements, for as long as [dynamicVolumesPlayingMap] has at
    most [n] entries. *)
Lemma stopClip_with_ok (k : Element -> M unit) (n : nat) :
  (forall e w, is_Some (enabledElements w !! e) ->
     size (dynamicVolumesPlayingMap w) <= n -> (k e w).1 = Ok tt)%nat ->
  forall e stopDynamicCine viewportId w,
    (size (dynamicVolumesPlayingMap w) <= n)%nat ->
    (_stopClip_with k e stopDynamicCine viewportId w).1 = Ok tt.
Proof.
  intros Hk e sdc vid w Hsize.
  assert (Hcall : forall w', stops w w' ->
            is_Some (enabledElements w !! e) -> (k e w').1 = Ok tt).
  { intros w' Hst He. apply Hk.
    - by rewrite (stops_enabledElements _ _ Hst).
    - pose proof (map_subseteq_size _ _ (stops_dynamicVolumesPlayingMap _ _ Hst)).
      lia. }
  repeat (unfold _stopClip_with, bind, getEnabledElement, getToolState,
    getToolStateByViewportId, getViewport, gets, ret; simpl).
  destruct (enabledElements w !! e) as [v|] eqn:He; simpl.
  - rewrite He. simpl. destruct (state w !! v) as [data|].
    + pose proof (stopClipWithData_ok data w) as Hok.
      pose proof (stopClipWithData_stops data w) as Hst.
      destruct (_stopClipWithData data w) as [[[]|msg] w']; simpl in *; [|done].
      specialize (Hcall w' Hst ltac:(eauto)).
      destruct (vp_type (viewports w' v)), sdc; simpl; auto.
    + specialize (Hcall w ltac:(reflexivity) ltac:(eauto)).
      destruct (vp_type (viewports w v)), sdc; simpl; auto.
  - destruct vid as [id|]; [|done].
    case_bool_decide; [done|]. simpl.
    destruct (state w !! id) as [data|]; simpl; [|done].
    pose proof (stopClipWithData_ok data w) as Hok.
    by destruct (_stopClipWithData data w) as [[[]|msg] w'].
Qed.

Lemma stopDynamicVolumeCine_rec_ok (fuel : nat) :
  forall e w,
    is_Some (enabledElements w !! e) ->
    (size (dynamicVolumesPlayingMap w) < fuel)%nat ->
    (_stopDynamicVolumeCine_rec fuel e w).1 = Ok tt.
Proof.
  induction fuel as [|fuel IH]; intros e w [v He] Hsize; [lia|].
  simpl. unfold bind at 1. unfold getEnabledElement, gets at 1. rewrite He.
  unfold bind at 1. unfold getViewport, gets at 1.
  destruct (vp_type (viewports w v)); try done.
  unfold bind at 1.
  destruct (getVolumeFromViewport_ok v w) as [volume ->].
  unfold bind at 1.
  destruct (isDynamicVolume_ok volume w) as [dynamic ->].
  destruct volume as [volumeId|]; [|done].
  destruct dynamic; [|done]. simpl.
  unfold bind at 1. unfold gets at 1.
  unfold bind at 1. unfold modify at 1.
  destruct (dynamicVolumesPlayingMap w !! volumeId) as [other|] eqn:Hother;
    [|done].
  destruct (bool_decide (other = e)); [done|]. simpl.
  assert (Hpos : (0 < size (dynamicVolumesPlayingMap w))%nat).
  { apply Nat.neq_0_lt_0, map_size_ne_0_lookup. eauto. }
  apply (stopClip_with_ok _ (fuel - 1)).
  - intros e' w' He' Hsize'. apply IH; [done | lia].
  - simpl. rewrite map_size_delete_Some by eauto. lia.
Qed.

Lemma stopDynamicVolumeCine_ok (e : Element) (w : World) :
  is_Some (enabledElements w !! e) -> (_stopDynamicVolumeCine e w).1 = Ok tt.
Proof.
  intros He. apply stopDynamicVolumeCine_rec_ok; [done | lia].
Qed.

Lemma stopClip_ok (e : Element) (stopDynamicCine : bool)
    (viewportId : option ViewportId) (w : World) :
  (_stopClip e stopDynamicCine viewportId w).1 = Ok tt.
Proof.
  apply (stopClip_with_ok _ (size (dynamicVolumesPlayingMap w))); [|lia].
  intros e' w' He' Hsize. apply stopDynamicVolumeCine_ok. done.
Qed.

End Stopping.

(** *** The tick *)

Section Tick.
Import Cine.

(** What a tick comes to: the clip stops, or it goes on in a direction and
    shows the frame of an index. *)
Inductive TickOutcome : Type :=
| TickStop
| TickStep (reverse' : bool) (newStepIndex : Z).

Definition direction (reverse : bool) : Z := if reverse then -1 else 1.

Definition clamp (low high x : Z) : Z := Z.max low (Z.min high x).

(** The tick in the words of the specification: advance by one in the
    direction of play; out of [0, numScrollSteps), bounce back (flip the
    direction, recompute, clamp), else wrap around when looping, else stop. *)
Definition tick_outcome (numScrollSteps currentStepIndex : Z)
    (reverse bounce loop : bool) : TickOutcome :=
  let advanced := currentStepIndex + direction reverse in
  if bool_decide (0 <= advanced < numScrollSteps) then TickStep reverse advanced
  else if bounce then
    TickStep (negb reverse)
      (clamp 0 (numScrollSteps - 1)
         (currentStepIndex + direction (negb reverse)))
  else if loop then
    TickStep reverse (if reverse then numScrollSteps - 1 else 0)
  else TickStop.

(** The [catch] of [playClipAction]. *)
Definition scroll_failed (c : Closure) : M unit :=
  modify (emit Warned) ;;
  _stopClipWithData (cl_data c) ;;
  triggerEvent (cl_element c) CLIP_STOPPED.

(** What the world goes through for an outcome, from the state in which
    the step count and the current index were read. *)
Definition perform (c : Closure) (currentStepIndex : Z) (o : TickOutcome)
    : M unit :=
  match o with
  | TickStop =>
      _stopClip (cl_element c) (negb (cl_isDynamicCinePlaying c))
        (Some (cl_viewportId c)) ;;
      triggerEvent (cl_element c) CLIP_STOPPED
  | TickStep reverse' newStepIndex =>
      (fun w =>
         if bool_decide (reverse (playClipData w (cl_data c)) = reverse')
         then ret tt w
         else update_data (cl_data c) (with_reverse reverse') w) ;;
      if bool_decide (newStepIndex = currentStepIndex) then ret tt
      else try_catch (scroll (cl_context c) (newStepIndex - currentStepIndex))
             (scroll_failed c)
  end.

(** The deltas of the calls of [playClipContext.scroll], in order. *)
Definition scroll_calls (t : list Effect) : list Z :=
  omap (fun e => match e with ContextScroll delta => Some delta | _ => None end) t.

Lemma tick_outcome_in_range n i r b l r' new :
  tick_outcome n i r b l = TickStep r' new -> 1 <= n -> 0 <= new <= n - 1.
Proof.
  unfold tick_outcome, clamp, direction. intros H Hn.
  case_bool_decide; [inversion H; subst; destruct r'; lia|].
  destruct b; [inversion H; lia|].
  destruct l; [|discriminate]. inversion H; subst. destruct r'; lia.
Qed.

Lemma playClipAction_perform (c : Closure) (w w1 w2 : World) (n i : Z) :
  numScrollSteps (cl_context c) w = (Ok n, w1) ->
  currentStepIndex (cl_context c) w1 = (Ok i, w2) ->
  let d := playClipData w2 (cl_data c) in
  playClipAction c w
  = perform c i (tick_outcome n i (reverse d) (bounce d) (loop d)) w2.
Proof.
  intros Hn Hi d. unfold playClipAction.
  unfold bind at 1. rewrite Hn. unfold bind at 1. rewrite Hi.
  unfold bind at 1. unfold gets at 1. fold d.
  unfold tick_outcome, direction, clamp.
  assert (Hdelta : forall x, negb (x - i =? 0) = negb (bool_decide (x = i))).
  { intros x. f_equal. case_bool_decide; lia. }
  assert (Hsame : bool_decide (reverse d = reverse d) = true)
    by (by apply bool_decide_eq_true).
  assert (Hflip : bool_decide (reverse d = negb (reverse d)) = false).
  { apply bool_decide_eq_false. by destruct (reverse d). }
  set (x := i + (if reverse d then -1 else 1)).
  destruct (bool_decide_reflect (0 <= x < n)) as [Hin|Hout].
  - replace ((x <? 0) || (n <=? x)) with false by lia.
    unfold perform, scroll_failed, bind, ret, when. simpl. fold d.
    rewrite Hsame, Hdelta.
    by destruct (bool_decide (x = i)).
  - replace ((x <? 0) || (n <=? x)) with true by lia.
    destruct (bounce d).
    + unfold perform, scroll_failed, bind, ret, when, update_data, modify.
      simpl. fold d.
      rewrite Hflip, Hdelta.
      destruct (bool_decide (_ = i)); reflexivity.
    + destruct (loop d); simpl.
      * unfold perform, scroll_failed, bind, ret, when. simpl. fold d.
        rewrite Hsame, Hdelta.
        destruct (bool_decide (_ = i)); reflexivity.
      * unfold bind, ret, triggerEvent, modify.
        by destruct (_stopClip _ _ _ w2) as [[[]|msg] w3].
Qed.

(** A step that calls no [playClipContext.scroll] and leaves the
    direction of every clip as it was. *)
Definition silent (w w' : World) : Prop :=
  (forall r, reverse (playClipData w' r) = reverse (playClipData w r))
  /\ scroll_calls (trace w') = scroll_calls (trace w).

#[global] Instance silent_preorder : PreOrder silent.
Proof.
  split.
  - by intros w.
  - intros w1 w2 w3 [Hr12 Hs12] [Hr23 Hs23]. split; [|congruence].
    intros r. by rewrite Hr23, Hr12.
Qed.

Lemma scroll_calls_app (t1 t2 : list Effect) :
  scroll_calls (t1 ++ t2) = scroll_calls t1 ++ scroll_calls t2.
Proof. apply omap_app. Qed.

Lemma scroll_calls_pauses (l : list Effect) :
  Forall is_pause l -> scroll_calls l = [].
Proof.
  induction 1 as [|e l [v ->] _ IH]; [done|]. simpl. exact IH.
Qed.

Lemma stops_silent (w w' : World) : stops w w' -> silent w w'.
Proof.
  intros Hst. split.
  - intros r. by destruct (stops_playClipData _ _ Hst r) as [-> | ->].
  - destruct (stops_trace _ _ Hst) as (l & -> & Hl).
    rewrite scroll_calls_app, (scroll_calls_pauses l Hl). apply app_nil_r.
Qed.

Lemma silent_set_context (r : Ref) (s : ContextState) (w : World) :
  silent w (set_context r s w).
Proof. by split. Qed.

Lemma silent_emit (e : Effect) (w : World) :
  (forall delta, e <> ContextScroll delta) -> silent w (emit e w).
Proof.
  intros He. split; [done|]. simpl. rewrite scroll_calls_app. simpl.
  destruct e; try by rewrite app_nil_r. by destruct (He delta).
Qed.

Lemma getScrollInfo_silent v self : preserves silent (getScrollInfo v self).
Proof.
  intros w. unfold getScrollInfo, bind, getViewport, gets, modify, ret. simpl.
  destruct (cachedScrollInfo (contexts w self)); simpl;
    [destruct (vec3_equals _ _); simpl|]; first [reflexivity | apply silent_set_context].
Qed.

Lemma numScrollSteps_silent ctx : preserves silent (numScrollSteps ctx).
Proof.
  destruct ctx; simpl; try (intros w; reflexivity).
  apply preserves_bind; [typeclasses eauto | apply getScrollInfo_silent |].
  intros info w. reflexivity.
Qed.

Lemma currentStepIndex_silent ctx : preserves silent (currentStepIndex ctx).
Proof.
  destruct ctx; simpl; try (intros w; reflexivity).
  apply preserves_bind; [typeclasses eauto | apply getScrollInfo_silent |].
  intros info w. reflexivity.
Qed.

Lemma csUtils_scroll_silent v delta : preserves silent (csUtils_scroll v delta).
Proof.
  intros w. unfold csUtils_scroll, bind, getViewport, gets, modify, throw.
  simpl. destruct (vp_scrollThrows _); simpl; [reflexivity|].
  by apply silent_emit.
Qed.

Lemma scroll_when_rendered_silent v wait self delta :
  preserves silent (scroll_when_rendered v wait self delta).
Proof.
  intros w. unfold scroll_when_rendered, bind, getViewport, gets, modify.
  simpl. destruct (_ && _); simpl; [apply silent_set_context|].
  etransitivity; [apply (silent_set_context self)|].
  apply csUtils_scroll_silent.
Qed.

(** A call of [playClipContext.scroll] is recorded once, with its delta. *)
Lemma scroll_calls_scroll ctx delta (w : World) :
  let w' := (scroll ctx delta w).2 in
  (forall r, reverse (playClipData w' r) = reverse (playClipData w r))
  /\ scroll_calls (trace w') = scroll_calls (trace w) ++ [delta].
Proof.
  assert (Hfirst : scroll_calls (trace (emit (ContextScroll delta) w))
                   = scroll_calls (trace w) ++ [delta]).
  { simpl. by rewrite scroll_calls_app. }
  assert (Hrest : forall m : M unit, preserves silent m ->
            let w' := (m (emit (ContextScroll delta) w)).2 in
            (forall r, reverse (playClipData w' r) = reverse (playClipData w r))
            /\ scroll_calls (trace w') = scroll_calls (trace w) ++ [delta]).
  { intros m Hm. destruct (Hm (emit (ContextScroll delta) w)) as [Hr Hs].
    simpl. split; [exact Hr | by rewrite Hs]. }
  unfold scroll. unfold bind at 1. unfold modify at 1.
  destruct ctx; simpl.
  - apply Hrest, scroll_when_rendered_silent.
  - apply Hrest, scroll_when_rendered_silent.
  - apply Hrest.
    apply preserves_bind; [typeclasses eauto | apply getScrollInfo_silent |].
    intros info. intros w0. unfold bind, gets, modify. simpl.
    etransitivity; [apply (silent_set_context self)|].
    apply csUtils_scroll_silent.
  - apply Hrest. intros w0. unfold volume_scroll, bind, gets, modify, throw.
    simpl. destruct (vol_scrollThrows _); simpl; [reflexivity|].
    by apply silent_emit.
Qed.

Lemma scroll_failed_silent c : preserves silent (scroll_failed c).
Proof.
  unfold scroll_failed.
  apply preserves_bind; [typeclasses eauto | |].
  { apply preserves_modify. intros w. by apply silent_emit. }
  intros _. apply preserves_bind; [typeclasses eauto | |].
  { intros w. apply stops_silent, stopClipWithData_stops. }
  intros _. apply preserves_modify. intros w. by apply silent_emit.
Qed.

(** Reading the step count and the current index touches the state of the
    play context only. *)
Record reads (w w' : World) : Prop := {
  reads_enabledElements : enabledElements w' = enabledElements w;
  reads_state : state w' = state w;
  reads_playClipData : playClipData w' = playClipData w;
  reads_timers : timers w' = timers w;
  reads_trace : trace w' = trace w
}.

#[global] Instance reads_preorder : PreOrder reads.
Proof.
  split.
  - by intros w.
  - intros w1 w2 w3 [] []. split; congruence.
Qed.

Lemma getScrollInfo_reads v self : preserves reads (getScrollInfo v self).
Proof.
  intros w. unfold getScrollInfo, bind, getViewport, gets, modify, ret. simpl.
  destruct (cachedScrollInfo (contexts w self)); simpl;
    [destruct (vec3_equals _ _); simpl|]; by split.
Qed.

Lemma numScrollSteps_reads ctx : preserves reads (numScrollSteps ctx).
Proof.
  destruct ctx; simpl; try (intros w; reflexivity).
  apply preserves_bind; [typeclasses eauto | apply getScrollInfo_reads |].
  intros info w. reflexivity.
Qed.

Lemma currentStepIndex_reads ctx : preserves reads (currentStepIndex ctx).
Proof.
  destruct ctx; simpl; try (intros w; reflexivity).
  apply preserves_bind; [typeclasses eauto | apply getScrollInfo_reads |].
  intros info w. reflexivity.
Qed.

Lemma getScrollInfo_ok v self (w : World) :
  exists info w', getScrollInfo v self w = (Ok info, w').
Proof.
  unfold getScrollInfo, bind, getViewport, gets, modify, ret. simpl.
  destruct (cachedScrollInfo (contexts w self)); simpl;
    [destruct (vec3_equals _ _); simpl|]; eauto.
Qed.

(** The getters of a play context return. *)
Lemma numScrollSteps_ok ctx (w : World) :
  exists n w', numScrollSteps ctx w = (Ok n, w').
Proof.
  destruct ctx; simpl; unfold bind, getViewport, gets, ret; eauto.
  destruct (getScrollInfo_ok viewport self w) as (info & w' & ->). eauto.
Qed.

Lemma currentStepIndex_ok ctx (w : World) :
  exists i w', currentStepIndex ctx w = (Ok i, w').
Proof.
  destruct ctx; simpl; unfold bind, getViewport, gets, ret; eauto.
  destruct (getScrollInfo_ok viewport self w) as (info & w' & ->). eauto.
Qed.

(** [_stopClip] on an enabled element cancels the timer of its tool data
    and forgets the timer's id. *)
Lemma stopClip_clears (e : Element) (v : ViewportId) (r : Ref)
    (stopDynamicCine : bool) (viewportId : option ViewportId) (w : World) :
  enabledElements w !! e = Some v ->
  state w !! v = Some r ->
  let w' := (_stopClip e stopDynamicCine viewportId w).2 in
  intervalId (playClipData w' r) = None
  /\ forall id, intervalId (playClipData w r) = Some id -> timers w' !! id = None.
Proof.
  intros He Hr.
  assert (Hcleared : let w1 := (_stopClipWithData r w).2 in
            intervalId (playClipData w1 r) = None
            /\ forall id, intervalId (playClipData w r) = Some id ->
                 timers w1 !! id = None).
  { unfold _stopClipWithData, bind, gets, modify. simpl.
    destruct (intervalId (playClipData w r)) as [id|] eqn:Hid; simpl.
    - assert (Hdel : forall u : bool,
                (if u then clearTimeout id else clearInterval id)
                  (set_playClipData r (with_intervalId None (playClipData w r)) w)
                = (Ok tt, set_timers (delete id)
                     (set_playClipData r (with_intervalId None (playClipData w r)) w)))
        by (by intros []).
      rewrite Hdel. simpl. split.
      + by rewrite fn_lookup_insert.
      + intros id' [= <-]. apply lookup_delete_eq.
    - split; [done | discriminate]. }
  assert (Hkeep : forall w1 w', stops w1 w' ->
            (intervalId (playClipData w1 r) = None
             /\ forall id, intervalId (playClipData w r) = Some id ->
                  timers w1 !! id = None) ->
            intervalId (playClipData w' r) = None
            /\ forall id, intervalId (playClipData w r) = Some id ->
                 timers w' !! id = None).
  { intros w1 w' Hst [Hnone Htimer]. split.
    - by destruct (stops_playClipData _ _ Hst r) as [-> | ->].
    - intros id Hid. eapply lookup_weaken_None; [by apply Htimer|].
      apply (stops_timers _ _ Hst). }
  cbv zeta.
  repeat (unfold _stopClip, _stopClip_with, bind, getEnabledElement,
    getToolState, getToolStateByViewportId, getViewport, gets, ret; simpl).
  rewrite He. simpl. rewrite He. simpl. rewrite Hr.
  pose proof (stopClipWithData_ok r w) as Hok.
  destruct (_stopClipWithData r w) as [[[]|msg] w1] eqn:Hrun; [|done].
  simpl in Hcleared.
  destruct (vp_type (viewports w1 v)), stopDynamicCine; simpl;
    try exact Hcleared;
    try (apply (Hkeep w1); [apply stopDynamicVolumeCine_stops | exact Hcleared]).
  all: apply (Hkeep w1); [apply stops_pause | exact Hcleared].
Qed.

Lemma scroll_failed_ok c (w : World) : (scroll_failed c w).1 = Ok tt.
Proof.
  unfold scroll_failed, bind, modify, triggerEvent. simpl.
  pose proof (stopClipWithData_ok (cl_data c) (emit Warned w)) as Hok.
  by destruct (_stopClipWithData _ _) as [[[]|msg] w'].
Qed.

(** C1.  On every tick [playClipAction] advances the step index by +1, or
    by -1 when [reverse] is set.  When the new index is outside
    [0, numScrollSteps): with [bounce], the direction is flipped and the
    index recomputed and clamped into [0, numScrollSteps - 1]; otherwise
    with [loop], the index wraps to 0, or to [numScrollSteps - 1] in
    reverse; otherwise the clip is stopped and CLIP_STOPPED is fired,
    with no scroll.  A scroll is issued only when the resulting index
    differs from the current one, with the difference as its delta. *)
Theorem playClipAction_tick (c : Closure) (w w1 w2 : World) (n i : Z) :
  numScrollSteps (cl_context c) w = (Ok n, w1) ->
  currentStepIndex (cl_context c) w1 = (Ok i, w2) ->
  let d := playClipData w (cl_data c) in
  let outcome := tick_outcome n i (reverse d) (bounce d) (loop d) in
  let w' := (playClipAction c w).2 in
  playClipAction c w = perform c i outcome w2
  /\ (playClipAction c w).1 = Ok tt
  /\ match outcome with
     | TickStop =>
         (exists l,
            trace w' = trace w ++ l ++ [Triggered (cl_element c) CLIP_STOPPED]
            /\ Forall is_pause l)
         /\ scroll_calls (trace w') = scroll_calls (trace w)
         /\ (forall v,
               enabledElements w !! cl_element c = Some v ->
               state w !! v = Some (cl_data c) ->
               intervalId (playClipData w' (cl_data c)) = None
               /\ forall id, intervalId d = Some id -> timers w' !! id = None)
     | TickStep reverse' newStepIndex =>
         reverse (playClipData w' (cl_data c)) = reverse'
         /\ scroll_calls (trace w')
            = scroll_calls (trace w)
              ++ (if bool_decide (newStepIndex = i) then []
                  else [newStepIndex - i])
         /\ (1 <= n -> 0 <= newStepIndex <= n - 1)
     end.
Proof.
  intros Hn Hi d outcome w'.
  assert (Hreads : reads w w2).
  { etransitivity.
    - pose proof (numScrollSteps_reads (cl_context c) w) as H. by rewrite Hn in H.
    - pose proof (currentStepIndex_reads (cl_context c) w1) as H.
      by rewrite Hi in H. }
  destruct Hreads as [Henabled Hstate Hdata Htimers Htrace].
  assert (Hperform : playClipAction c w = perform c i outcome w2).
  { rewrite (playClipAction_perform c w w1 w2 n i Hn Hi). cbv zeta.
    subst outcome d. by rewrite Hdata. }
  split; [exact Hperform|].
  subst w'. rewrite Hperform. clear Hperform.
  assert (Houtcome : tick_outcome n i (reverse d) (bounce d) (loop d) = outcome)
    by reflexivity.
  clearbody outcome.
  destruct outcome as [|reverse' newStepIndex]; simpl.
  - (* the clip stops *)
    unfold bind, triggerEvent, modify.
    pose proof (stopClip_ok (cl_element c) (negb (cl_isDynamicCinePlaying c))
                  (Some (cl_viewportId c)) w2) as Hok.
    pose proof (stopClip_stops (cl_element c) (negb (cl_isDynamicCinePlaying c))
                  (Some (cl_viewportId c)) w2) as Hst.
    pose proof (fun v => stopClip_clears (cl_element c) v (cl_data c)
                  (negb (cl_isDynamicCinePlaying c))
                  (Some (cl_viewportId c)) w2) as Hclears.
    destruct (_stopClip _ _ _ w2) as [[[]|msg] w3]; [|done].
    simpl in *. split; [done|].
    destruct (stops_trace _ _ Hst) as (l & Hl & Hpauses).
    split; [|split].
    + exists l. split; [|done]. by rewrite Hl, Htrace, app_assoc.
    + rewrite Hl, Htrace, !scroll_calls_app, (scroll_calls_pauses l Hpauses).
      simpl. by rewrite !app_nil_r.
    + intros v He Hr. rewrite <- Henabled in He. rewrite <- Hstate in Hr.
      specialize (Hclears v He Hr). rewrite Hdata in Hclears. exact Hclears.
  - (* the clip goes on *)
    assert (Hrange : 1 <= n -> 0 <= newStepIndex <= n - 1).
    { by apply (tick_outcome_in_range _ _ _ _ _ _ _ Houtcome). }
    set (wa := if bool_decide (reverse (playClipData w2 (cl_data c)) = reverse')
               then w2
               else set_playClipData (cl_data c)
                      (with_reverse reverse' (playClipData w2 (cl_data c))) w2).
    assert (Hwa : reverse (playClipData wa (cl_data c)) = reverse'
                  /\ trace wa = trace w).
    { subst wa. case_bool_decide as Hrev; simpl.
      - by split.
      - split; [by rewrite fn_lookup_insert | done]. }
    destruct Hwa as [Hrev Htr].
    assert (Hfirst : forall k : unit -> M unit,
      bind (fun w0 =>
              if bool_decide (reverse (playClipData w0 (cl_data c)) = reverse')
              then ret tt w0
              else update_data (cl_data c) (with_reverse reverse') w0) k w2
      = k tt wa).
    { intros k. unfold bind, wa. by case_bool_decide. }
    rewrite Hfirst.
    case_bool_decide as Hsame; simpl.
    + rewrite Htr, app_nil_r. auto.
    + unfold try_catch.
      destruct (scroll_calls_scroll (cl_context c) (newStepIndex - i) wa)
        as [Hkeep Hcall].
      destruct (scroll (cl_context c) (newStepIndex - i) wa) as [[[]|msg] wb];
        simpl in *.
      * rewrite Hkeep, Hcall, Htr. auto.
      * pose proof (scroll_failed_ok c wb) as Hok.
        destruct (scroll_failed_silent c wb) as [Hkeep' Hcall'].
        destruct (scroll_failed c wb) as [res wc]. simpl in *.
        rewrite Hkeep', Hkeep, Hcall', Hcall, Htr. auto.
Qed.

End Tick.

(** *** Starting a clip *)

Section PlayClip.
Import Cine.

(** What a play context reports while its own state is as created. *)
Definition context_numScrollSteps (ctx : CinePlayContext) (w : World) : Z :=
  match ctx with
  | StackContext _ imageIdsLength _ _ => imageIdsLength
  | VideoContext viewport _ _ => vp_numberOfSlices (viewports w viewport)
  | VolumeContext viewport _ _ =>
      si_numScrollSteps (vp_scrollInfo (viewports w viewport))
  | DynamicVolumeContext volume => vol_numDimensionGroups (volumes w volume)
  end.

Definition context_frameTimeVectorEnabled (ctx : CinePlayContext) (w : World)
    : bool :=
  match ctx with
  | StackContext _ _ _ _ | VideoContext _ _ _ => true
  | VolumeContext viewport volume _ =>
      let direction := vol_direction (volumes w volume) in
      glMatrix_equals
        (vec3_dot
           (- element_number direction 6, - element_number direction 7,
            - element_number direction 8)%float
           (vp_viewPlaneNormal (viewports w viewport)))
        1
  | DynamicVolumeContext _ => false
  end.

Definition fresh_context (ctx : CinePlayContext) (w : World) : Prop :=
  match ctx with
  | StackContext _ _ _ self | VideoContext _ _ self | VolumeContext _ _ self =>
      contexts w self = newContextState
  | DynamicVolumeContext _ => True
  end.

(** Steps that leave the core library's objects and the states of the
    play contexts alone. *)
Definition same_contexts (w w' : World) : Prop :=
  viewports w' = viewports w /\ volumes w' = volumes w
  /\ contexts w' = contexts w.

Lemma stops_same_contexts w w' : stops w w' -> same_contexts w w'.
Proof. intros []. by repeat split. Qed.




(** Creating a play context allocates its state and nothing else. *)
Record allocates (w w' : World) : Prop := {
  alloc_enabledElements : enabledElements w' = enabledElements w;
  alloc_viewports : viewports w' = viewports w;
  alloc_cachedVolumes : cachedVolumes w' = cachedVolumes w;
  alloc_volumes : volumes w' = volumes w;
  alloc_state : state w' = state w;
  alloc_playClipData : playClipData w' = playClipData w;
  alloc_dynamicVolumesPlayingMap :
    dynamicVolumesPlayingMap w' = dynamicVolumesPlayingMap w;
  alloc_timers : timers w' = timers w;
  alloc_nextTimer : nextTimer w' = nextTimer w;
  alloc_trace : trace w' = trace w
}.

Lemma allocates_refl w : allocates w w.
Proof. by split. Qed.

Lemma createCinePlayContext_allocates v wait dyn w ctx w1 :
  _createCinePlayContext v wait dyn w = (Ok ctx, w1) ->
  allocates w w1 /\ fresh_context ctx w1.
Proof.
  unfold _createCinePlayContext, bind, getViewport, gets, ret. simpl.
  destruct (vp_type (viewports w v)); try discriminate.
  - intros [= <- <-]. split; [by split|]. simpl. by rewrite fn_lookup_insert.
  - destruct (getVolumeFromViewport_ok v w) as [volume ->].
    destruct (isDynamicVolume_ok volume w) as [dynamic ->].
    destruct volume as [volumeId|]; [|discriminate].
    destruct (dyn && dynamic); intros [= <- <-].
    + split; [apply allocates_refl | done].
    + split; [by split|]. simpl. by rewrite fn_lookup_insert.
  - intros [= <- <-]. split; [by split|]. simpl. by rewrite fn_lookup_insert.
Qed.

Lemma bind_run {A B} (m : M A) (k : A -> M B) (w w' : World) (a : A) :
  m w = (Ok a, w') -> bind m k w = k a w'.
Proof. intros H. unfold bind. by rewrite H. Qed.

Lemma run_of_ok (m : M unit) (w : World) :
  (m w).1 = Ok tt -> m w = (Ok tt, (m w).2).
Proof. destruct (m w) as [[[]|msg] w']; simpl; by intros. Qed.


(** The conditions under which the frame time vector drives the clip, in
    the words of the specification. *)
Definition frame_time_vector_used (d : PlayClipData) (ctx : CinePlayContext)
    (w : World) : bool :=
  negb (ignoreFrameTimeVector d)
  && match frameTimeVector d with
     | Some vector =>
         (Z.of_nat (length vector) =? context_numScrollSteps ctx w)
         && context_frameTimeVectorEnabled ctx w
         && (_getPlayClipTimeouts vector (speed d)).2
     | None => false
     end.


Lemma frameTimeVectorEnabled_run ctx (w : World) :
  frameTimeVectorEnabled ctx w = (Ok (context_frameTimeVectorEnabled ctx w), w).
Proof. by destruct ctx. Qed.


(** Stopping clips changes the tool data of a clip in its timer id only. *)
Lemma stops_value (w w' : World) (r : Ref) :
  stops w w' ->
  exists i, playClipData w' r = with_intervalId i (playClipData w r).
Proof.
  intros Hst. destruct (stops_playClipData _ _ Hst r) as [-> | ->].
  - exists (intervalId (playClipData w r)). by destruct (playClipData w r).
  - by exists None.
Qed.

(** The tool data of the element's viewport is found or created. *)
Lemma toolData_run (element : Element) (viewport : ViewportId)
    (o : PlayClipOptions) (stopDynamicCine : bool) (w : World) :
  enabledElements w !! element = Some viewport ->
  exists (r : Ref) (w' : World) (i : option TimerId),
    match state w !! viewport with
    | Some data =>
        bind (_stopClip element stopDynamicCine (Some viewport))
          (fun _ => ret data)
    | None =>
        bind (allocData (newPlayClipData o))
          (fun data => bind (addToolState element data) (fun _ => ret data))
    end w = (Ok r, w')
    /\ state w' !! viewport = Some r
    /\ playClipData w' r
       = with_intervalId i
           match state w !! viewport with
           | Some r0 => playClipData w r0
           | None => newPlayClipData o
           end
    /\ same_contexts w w'
    /\ cachedVolumes w' = cachedVolumes w
    /\ nextTimer w' = nextTimer w.
Proof.
  intros He. destruct (state w !! viewport) as [r0|] eqn:Hstate.
  - pose proof (stopClip_ok element stopDynamicCine (Some viewport) w) as Hok.
    pose proof (stopClip_stops element stopDynamicCine (Some viewport) w) as Hst.
    unfold bind, ret.
    destruct (_stopClip element stopDynamicCine (Some viewport) w)
      as [[[]|msg] w']; [|done].
    simpl in Hst. destruct (stops_value _ _ r0 Hst) as [i Hi].
    exists r0, w', i. split; [done|].
    split; [by rewrite (stops_state _ _ Hst)|]. split; [done|].
    split; [by apply stops_same_contexts|].
    split; [apply (stops_cachedVolumes _ _ Hst) | apply (stops_nextTimer _ _ Hst)].
  - repeat (unfold bind, allocData, addToolState, getEnabledElement, gets,
      modify, ret; simpl).
    rewrite He. simpl.
    eexists (nextRef w), _, None. split; [reflexivity|]. simpl.
    split; [apply lookup_insert_eq|].
    split; [by rewrite fn_lookup_insert|]. by repeat split.
Qed.




(** Steps that leave the tool state table, the timers and the core
    library's objects alone. *)
Record keeps (w w' : World) : Prop := {
  keeps_state : state w' = state w;
  keeps_timers : timers w' = timers w;
  keeps_nextTimer : nextTimer w' = nextTimer w;
  keeps_viewports : viewports w' = viewports w;
  keeps_volumes : volumes w' = volumes w
}.

#[global] Instance keeps_preorder : PreOrder keeps.
Proof.
  split.
  - by intros w.
  - intros w1 w2 w3 [] []. split; congruence.
Qed.

Lemma allocates_keeps w w' : allocates w w' -> keeps w w'.
Proof. intros []. by split. Qed.

Lemma update_data_run (r : Ref) (f : PlayClipData -> PlayClipData) (w : World) :
  update_data r f w = (Ok tt, set_playClipData r (f (playClipData w r)) w).
Proof. reflexivity. Qed.

(** The [framesPerSecond] option, when valid, sets the rate and the
    direction and has the frame time vector ignored. *)
Lemma framesPerSecond_run (r : Ref) (o : PlayClipOptions) (w : World) :
  exists w',
    match opt_framesPerSecond o with
    | Some fps =>
        when (valid_framesPerSecond (Some fps))
          (bind (update_data r (with_framesPerSecond fps))
             (fun _ =>
                bind (update_data r (with_reverse (fps <? 0)%float))
                  (fun _ => update_data r (with_ignoreFrameTimeVector true))))
    | None => ret tt
    end w = (Ok tt, w')
    /\ keeps w w' /\ contexts w' = contexts w
    /\ playClipData w' r
       = match opt_framesPerSecond o with
         | Some fps =>
             if valid_framesPerSecond (Some fps) then
               with_ignoreFrameTimeVector true
                 (with_reverse (fps <? 0)%float
                    (with_framesPerSecond fps (playClipData w r)))
             else playClipData w r
         | None => playClipData w r
         end.
Proof.
  destruct (opt_framesPerSecond o) as [fps|]; [|by exists w].
  destruct (valid_framesPerSecond (Some fps)); [|by exists w].
  eexists. split; [reflexivity|]. simpl. split; [by split|]. split; [done|].
  by rewrite !fn_lookup_insert.
Qed.

Lemma bounce_run (r : Ref) (o : PlayClipOptions) (w : World) :
  exists w',
    match opt_bounce o with
    | Some b => update_data r (with_bounce b)
    | None => ret tt
    end w = (Ok tt, w')
    /\ keeps w w'
    /\ playClipData w' r
       = match opt_bounce o with
         | Some b => with_bounce b (playClipData w r)
         | None => playClipData w r
         end.
Proof.
  destruct (opt_bounce o) as [b|]; [|by exists w].
  eexists. split; [reflexivity|]. simpl. split; [by split|].
  by rewrite fn_lookup_insert.
Qed.

Lemma playing_map_run (dyn : bool) (element : Element) (viewport : ViewportId)
    (w : World) :
  exists w',
    when dyn
      (bind (_getVolumeFromViewport viewport)
         (fun volume =>
            match volume with
            | Some volumeId =>
                modify (set_dynamicVolumesPlayingMap <[volumeId := element]>)
            | None => ret tt
            end)) w = (Ok tt, w')
    /\ keeps w w' /\ playClipData w' = playClipData w.
Proof.
  destruct dyn; [|by exists w]. simpl.
  destruct (getVolumeFromViewport_ok viewport w) as [volume Hvol].
  rewrite (bind_run _ _ _ _ _ Hvol).
  destruct volume; [|by exists w].
  eexists. split; [reflexivity|]. by split.
Qed.


Lemma frame_time_vector_used_interval d i ctx w :
  frame_time_vector_used (with_intervalId i d) ctx w
  = frame_time_vector_used d ctx w.
Proof. reflexivity. Qed.


(** A stack of four images showing the last one, enabled on element 1. *)
Definition example_viewport : Viewport :=
  {| vp_type := StackViewport; vp_imageIdsLength := 4;
     vp_targetImageIdIndex := 3; vp_numberOfSlices := 0; vp_sliceIndex := 0;
     vp_rendered := true; vp_allVolumeIds := None;
     vp_viewPlaneNormal := (0, 0, 1)%float;
     vp_scrollInfo := {| si_numScrollSteps := 0; si_currentStepIndex := 0 |};
     vp_frameRate := 0; vp_scrollThrows := false |}.

Definition example_volume : Volume :=
  {| vol_isDynamicVolume := false; vol_direction := [];
     vol_numDimensionGroups := 0; vol_dimensionGroupNumber := 0;
     vol_scrollThrows := false |}.

Definition example_world : World :=
  {| enabledElements := {[ 1%nat := "stack"%string ]};
     viewports := fun _ => example_viewport;
     cachedVolumes := ∅;
     volumes := fun _ => example_volume;
     state := ∅;
     playClipData := fun _ => newPlayClipData noOptions;
     contexts := fun _ => newContextState;
     nextRef := 0%nat;
     dynamicVolumesPlayingMap := ∅;
     timers := ∅;
     nextTimer := 1%nat;
     trace := [] |}.



(** C7.  [playClip] throws when its element is [undefined] and when the
    element is not an enabled element, each with its message, and it
    does so before anything is written: no tool state is added and no
    timer is started. *)
Theorem playClip_rejects (playClipOptions : option PlayClipOptions) (w : World) :
  playClip None playClipOptions w
  = (Throw "playClip: element must not be undefined", w)
  /\ forall element,
       enabledElements w !! element = None ->
       playClip (Some element) playClipOptions w
       = (Throw "playClip: element must be a valid Cornerstone enabled element",
          w).
Proof.
  split; [reflexivity|].
  intros element He. unfold playClip, bind, getEnabledElement, gets.
  by rewrite He.
Qed.

Lemma playClip_rejects_witness :
  enabledElements example_world !! 2%nat = None
  /\ playClip (Some 2%nat) None example_world
     = (Throw "playClip: element must be a valid Cornerstone enabled element",
        example_world).
Proof.
  split; [reflexivity|].
  apply (proj2 (playClip_rejects None example_world)). reflexivity.
Defined.

Lemma playClipAction_tick_witness :
  let c := {| cl_element := 1%nat; cl_viewportId := "stack";
              cl_context := StackContext "stack" 4 30 0%nat;
              cl_data := 0%nat; cl_isDynamicCinePlaying := true;
              cl_timeouts := [] |} in
  numScrollSteps (cl_context c) example_world = (Ok 4, example_world)
  /\ currentStepIndex (cl_context c) example_world = (Ok 3, example_world)
  /\ scroll_calls (trace (playClipAction c example_world).2) = [-3].
Proof.
  intros c. split; [reflexivity|]. split; [reflexivity|].
  destruct (playClipAction_tick c example_world example_world example_world
              4 3 eq_refl eq_refl) as (_ & _ & Hstep).
  exact (proj1 (proj2 Hstep)).
Defined.

End PlayClip.

(** ** CINE playback: stopping, contexts and timers *)

Section CineStopping.
Import Cine.

(** A frame time vector with fewer than two entries gives no timeouts at
    all, and is not time varying: its first entry is discarded and nothing
    is left. *)
Theorem getPlayClipTimeouts_short (vector : list float) (speed : JS.value) :
  (length vector <= 1)%nat ->
  _getPlayClipTimeouts vector speed = ([], false).
Proof.
  intros Hlen. unfold _getPlayClipTimeouts, timeouts_loop.
  replace (length vector - 1)%nat with 0%nat by lia. reflexivity.
Qed.

Lemma getPlayClipTimeouts_short_witness :
  (length [40%float] <= 1)%nat
  /\ _getPlayClipTimeouts [40%float] (JS.Num 2) = ([], false).
Proof.
  split; [simpl; lia | apply getPlayClipTimeouts_short; simpl; lia].
Defined.

Lemma stopClipWithData_run (r : Ref) (w : World) :
  let w' := (_stopClipWithData r w).2 in
  (_stopClipWithData r w).1 = Ok tt
  /\ intervalId (playClipData w' r) = None
  /\ (forall id, intervalId (playClipData w r) = Some id ->
        timers w' = delete id (timers w)
        /\ playClipData w' = <[r := with_intervalId None (playClipData w r)]>
                               (playClipData w))
  /\ (intervalId (playClipData w r) = None -> w' = w)
  /\ _stopClipWithData r w' = (Ok tt, w').
Proof.
  assert (Hidle : forall w0, intervalId (playClipData w0 r) = None ->
            _stopClipWithData r w0 = (Ok tt, w0)).
  { intros w0 Hnone. unfold _stopClipWithData, bind, gets. simpl.
    by rewrite Hnone. }
  cbv zeta. split; [apply stopClipWithData_ok|].
  destruct (intervalId (playClipData w r)) as [id|] eqn:Hid.
  - assert (Hrun : (_stopClipWithData r w).2
              = set_timers (delete id)
                  (set_playClipData r (with_intervalId None (playClipData w r)) w)).
    { unfold _stopClipWithData, bind, gets, modify. simpl. rewrite Hid. simpl.
      by destruct (usingFrameTimeVector _). }
    rewrite Hrun. simpl. rewrite fn_lookup_insert. simpl.
    split; [done|]. split; [by intros ? [= <-]|]. split; [done|].
    apply Hidle. simpl. by rewrite fn_lookup_insert.
  - rewrite (Hidle w Hid). simpl. rewrite Hid.
    split; [done|]. split; [done|]. split; [done|]. by apply Hidle.
Qed.

(** [_stopClipWithData] always returns; afterwards the data has no timer
    id and the timer it had is cancelled, no other timer being touched.
    Data without a timer id is left as it is, so stopping twice is
    stopping once. *)
Theorem stopClipWithData_cancels (r : Ref) (w : World) :
  let w' := (_stopClipWithData r w).2 in
  (_stopClipWithData r w).1 = Ok tt
  /\ intervalId (playClipData w' r) = None
  /\ (forall id, intervalId (playClipData w r) = Some id ->
        timers w' = delete id (timers w)
        /\ playClipData w' = <[r := with_intervalId None (playClipData w r)]>
                               (playClipData w))
  /\ (intervalId (playClipData w r) = None -> w' = w)
  /\ _stopClipWithData r w' = (Ok tt, w').
Proof. exact (stopClipWithData_run r w). Qed.

(** [stopClip] always returns, whatever the element and the options (the
    calls between [stopClip] and [_stopDynamicVolumeCine] come to an end).
    It only stops: timers and entries of [dynamicVolumesPlayingMap] are
    removed, never added; tool data change by losing their timer id only;
    the tool state table and the next timer id stay; and all it does to
    the outside is to pause video viewports. *)
Theorem stopClip_only_stops (e : Element) (stopDynamicCine : option bool)
    (viewportId : option ViewportId) (w : World) :
  let w' := (stopClip e stopDynamicCine viewportId w).2 in
  (stopClip e stopDynamicCine viewportId w).1 = Ok tt
  /\ timers w' ⊆ timers w
  /\ dynamicVolumesPlayingMap w' ⊆ dynamicVolumesPlayingMap w
  /\ (forall r, playClipData w' r = playClipData w r
                \/ playClipData w' r = with_intervalId None (playClipData w r))
  /\ state w' = state w
  /\ nextTimer w' = nextTimer w
  /\ exists l, trace w' = trace w ++ l /\ Forall is_pause l.
Proof.
  cbv zeta. unfold stopClip. split; [apply stopClip_ok|].
  destruct (stopClip_stops e (default true stopDynamicCine) viewportId w).
  done.
Qed.

(** [stopClip] on an element that is not enabled: without a viewport id
    nothing happens at all; with one, the clip of that viewport is stopped
    all the same. *)
Theorem stopClip_not_enabled (e : Element) (stopDynamicCine : option bool)
    (w : World) :
  enabledElements w !! e = None ->
  stopClip e stopDynamicCine None w = (Ok tt, w)
  /\ stopClip e stopDynamicCine (Some EmptyString) w = (Ok tt, w)
  /\ forall (v : ViewportId),
       v <> EmptyString ->
       stopClip e stopDynamicCine (Some v) w
       = match state w !! v with
         | Some r => _stopClipWithData r w
         | None => (Ok tt, w)
         end.
Proof.
  intros He.
  repeat (unfold stopClip, _stopClip, _stopClip_with, bind, getEnabledElement,
    getToolStateByViewportId, gets, ret; simpl).
  rewrite He. simpl. split; [done|]. split; [done|].
  intros v Hv. rewrite bool_decide_eq_false_2 by done. simpl.
  destruct (state w !! v) as [r|]; simpl; [|done].
  pose proof (stopClipWithData_ok r w) as Hok.
  by destruct (_stopClipWithData r w) as [[[]|msg] w'].
Qed.

Lemma stopClip_not_enabled_witness :
  enabledElements example_world !! 7%nat = None
  /\ stopClip 7%nat None None example_world = (Ok tt, example_world).
Proof.
  split; [reflexivity | apply (stopClip_not_enabled 7%nat None example_world)].
  reflexivity.
Defined.

(** [stopClip] on an enabled element cancels the timer of the element's
    clip and forgets its id; a video viewport is paused as well. *)
Theorem stopClip_cancels_timer (e : Element) (v : ViewportId) (r : Ref)
    (stopDynamicCine : option bool) (viewportId : option ViewportId)
    (w : World) :
  enabledElements w !! e = Some v ->
  state w !! v = Some r ->
  let w' := (stopClip e stopDynamicCine viewportId w).2 in
  intervalId (playClipData w' r) = None
  /\ (forall id, intervalId (playClipData w r) = Some id -> timers w' !! id = None)
  /\ (vp_type (viewports w v) = VideoViewport ->
        trace w' = trace w ++ [Paused v]).
Proof.
  intros He Hr. cbv zeta. unfold stopClip.
  destruct (stopClip_clears e v r (default true stopDynamicCine) viewportId w
              He Hr) as [Hnone Htimer].
  split; [exact Hnone|]. split; [exact Htimer|].
  intros Hvideo.
  repeat (unfold _stopClip, _stopClip_with, bind, getEnabledElement,
    getToolState, getToolStateByViewportId, getViewport, gets, ret; simpl).
  rewrite He. simpl. rewrite He. simpl. rewrite Hr.
  pose proof (stopClipWithData_ok r w) as Hok.
  pose proof (stopClipWithData_stops r w) as Hst.
  destruct (_stopClipWithData r w) as [[[]|msg] w1] eqn:Hrun; [|done].
  simpl in Hst. rewrite (stops_viewports _ _ Hst), Hvideo. simpl.
  destruct (stops_trace _ _ Hst) as (l & Hl & Hpause).
  assert (Hsame : trace w1 = trace w).
  { pose proof (f_equal snd Hrun) as Hw1. simpl in Hw1. subst w1.
    unfold _stopClipWithData, bind, gets, modify. simpl.
    destruct (intervalId (playClipData w r)); [|done]. simpl.
    by destruct (usingFrameTimeVector _). }
  by rewrite Hsame.
Qed.

Lemma stopClip_cancels_timer_witness :
  let playing :=
    set_timers <[5%nat := {| timer_kind := Interval; timer_delay := JS.Num 40;
                            timer_closure :=
                              {| cl_element := 1%nat; cl_viewportId := "stack";
                                 cl_context := StackContext "stack" 4 30 0%nat;
                                 cl_data := 0%nat; cl_isDynamicCinePlaying := true;
                                 cl_timeouts := [] |} |}]>
      (set_playClipData 0%nat
         (with_intervalId (Some 5%nat) (newPlayClipData noOptions))
         (set_state <["stack"%string := 0%nat]> example_world)) in
  enabledElements playing !! 1%nat = Some "stack"%string
  /\ state playing !! "stack"%string = Some 0%nat
  /\ intervalId (playClipData playing 0%nat) = Some 5%nat
  /\ timers (stopClip 1%nat None None playing).2 !! 5%nat = None.
Proof.
  cbv zeta. split; [reflexivity|]. split; [reflexivity|]. split; [reflexivity|].
  eapply stopClip_cancels_timer; reflexivity.
Defined.

(** [_stopClip], whatever it is given to stop dynamic cine with as long as
    that only stops, cancels the timer of an enabled element's clip. *)
Lemma stopClip_with_clears (k : Element -> M unit) (e : Element)
    (v : ViewportId) (r : Ref) (stopDynamicCine : bool)
    (viewportId : option ViewportId) (w : World) :
  (forall e', preserves stops (k e')) ->
  enabledElements w !! e = Some v ->
  state w !! v = Some r ->
  let w' := (_stopClip_with k e stopDynamicCine viewportId w).2 in
  intervalId (playClipData w' r) = None
  /\ forall id, intervalId (playClipData w r) = Some id -> timers w' !! id = None.
Proof.
  intros Hk He Hr.
  destruct (stopClipWithData_run r w) as (Hok & Hnone & Hcancel & _).
  assert (Hcleared : let w1 := (_stopClipWithData r w).2 in
            intervalId (playClipData w1 r) = None
            /\ forall id, intervalId (playClipData w r) = Some id ->
                 timers w1 !! id = None).
  { split; [exact Hnone|]. intros id Hid.
    destruct (Hcancel id Hid) as [-> _]. apply lookup_delete_eq. }
  assert (Hkeep : forall w1 w', stops w1 w' ->
            (intervalId (playClipData w1 r) = None
             /\ forall id, intervalId (playClipData w r) = Some id ->
                  timers w1 !! id = None) ->
            intervalId (playClipData w' r) = None
            /\ forall id, intervalId (playClipData w r) = Some id ->
                 timers w' !! id = None).
  { intros w1 w' Hst [Hnone1 Htimer]. split.
    - by destruct (stops_playClipData _ _ Hst r) as [-> | ->].
    - intros id Hid. eapply lookup_weaken_None; [by apply Htimer|].
      apply (stops_timers _ _ Hst). }
  cbv zeta.
  repeat (unfold _stopClip_with, bind, getEnabledElement,
    getToolState, getToolStateByViewportId, getViewport, gets, ret; simpl).
  rewrite He. simpl. rewrite He. simpl. rewrite Hr.
  destruct (_stopClipWithData r w) as [[[]|msg] w1] eqn:Hrun; [|done].
  simpl in Hcleared.
  destruct (vp_type (viewports w1 v)), stopDynamicCine; simpl;
    try exact Hcleared;
    try (apply (Hkeep w1); [apply Hk | exact Hcleared]).
  all: apply (Hkeep w1); [apply stops_pause | exact Hcleared].
Qed.

(** The run of [_stopDynamicVolumeCine] on an element whose dynamic volume
    another element is playing. *)
Lemma stopDynamicVolumeCine_run (e other : Element)
    (v v' : ViewportId) (volumeId : VolumeId) (r : Ref) (w : World) :
  enabledElements w !! e = Some v ->
  vp_type (viewports w v) = VolumeViewport ->
  _getVolumeFromViewport v w = (Ok (Some volumeId), w) ->
  vol_isDynamicVolume (volumes w volumeId) = true ->
  dynamicVolumesPlayingMap w !! volumeId = Some other ->
  other <> e ->
  enabledElements w !! other = Some v' ->
  state w !! v' = Some r ->
  let w' := (_stopDynamicVolumeCine e w).2 in
  (_stopDynamicVolumeCine e w).1 = Ok tt
  /\ dynamicVolumesPlayingMap w' !! volumeId = None
  /\ intervalId (playClipData w' r) = None
  /\ forall id, intervalId (playClipData w r) = Some id -> timers w' !! id = None.
Proof.
  intros He Htype Hvolume Hdynamic Hother Hne He' Hr. cbv zeta.
  split; [apply stopDynamicVolumeCine_ok; eauto|].
  unfold _stopDynamicVolumeCine.
  set (fuel := size (dynamicVolumesPlayingMap w)).
  set (w1 := set_dynamicVolumesPlayingMap (delete volumeId) w).
  assert (Hstep : _stopDynamicVolumeCine_rec (S fuel) e w
                  = _stopClip_with (_stopDynamicVolumeCine_rec fuel) other true
                      None w1).
  { cbn [_stopDynamicVolumeCine_rec].
    unfold bind at 1. unfold getEnabledElement, gets at 1. rewrite He.
    unfold bind at 1. unfold getViewport, gets at 1. rewrite Htype.
    unfold bind at 1. rewrite Hvolume.
    unfold bind at 1. unfold isDynamicVolume, gets at 1. rewrite Hdynamic.
    unfold when.
    unfold bind at 1. unfold gets at 1.
    unfold bind at 1. unfold modify at 1. rewrite Hother.
    by rewrite bool_decide_eq_false_2 by done. }
  rewrite Hstep.
  pose proof (stopClip_with_stops (_stopDynamicVolumeCine_rec fuel)
                (stopDynamicVolumeCine_rec_stops fuel) other true None w1) as Hst.
  destruct (stopClip_with_clears (_stopDynamicVolumeCine_rec fuel) other v' r
              true None w1 (stopDynamicVolumeCine_rec_stops fuel) He' Hr)
    as [Hnone Htimer].
  split; [|split; [exact Hnone | exact Htimer]].
  eapply lookup_weaken_None; [|apply (stops_dynamicVolumesPlayingMap _ _ Hst)].
  apply lookup_delete_eq.
Qed.

(** Starting from the element of a volume viewport that shows a dynamic
    volume, [_stopDynamicVolumeCine] takes the volume out of
    [dynamicVolumesPlayingMap] and, when another element was playing it,
    stops that element's clip: its timer is cancelled. *)
Theorem stopDynamicVolumeCine_stops_other (e other : Element)
    (v v' : ViewportId) (volumeId : VolumeId) (r : Ref) (w : World) :
  enabledElements w !! e = Some v ->
  vp_type (viewports w v) = VolumeViewport ->
  _getVolumeFromViewport v w = (Ok (Some volumeId), w) ->
  vol_isDynamicVolume (volumes w volumeId) = true ->
  dynamicVolumesPlayingMap w !! volumeId = Some other ->
  other <> e ->
  enabledElements w !! other = Some v' ->
  state w !! v' = Some r ->
  let w' := (_stopDynamicVolumeCine e w).2 in
  (_stopDynamicVolumeCine e w).1 = Ok tt
  /\ dynamicVolumesPlayingMap w' !! volumeId = None
  /\ intervalId (playClipData w' r) = None
  /\ forall id, intervalId (playClipData w r) = Some id -> timers w' !! id = None.
Proof.
  intros He Htype Hvolume Hdynamic Hother Hne He' Hr.
  exact (stopDynamicVolumeCine_run e other v v' volumeId r w He Htype Hvolume
           Hdynamic Hother Hne He' Hr).
Qed.

(** Two volume viewports, on elements 1 and 2, show a CT volume and a
    dynamic PET volume; element 2 is playing the dynamic volume. *)
Definition example_volume_viewport : Viewport :=
  {| vp_type := VolumeViewport; vp_imageIdsLength := 0;
     vp_targetImageIdIndex := 0; vp_numberOfSlices := 0; vp_sliceIndex := 0;
     vp_rendered := true; vp_allVolumeIds := Some ["ct"; "pet4d"]%string;
     vp_viewPlaneNormal := (0, 0, 1)%float;
     vp_scrollInfo := {| si_numScrollSteps := 20; si_currentStepIndex := 3 |};
     vp_frameRate := 0; vp_scrollThrows := false |}.

Definition example_dynamic_volume : Volume :=
  {| vol_isDynamicVolume := true; vol_direction := [1; 0; 0; 0; 1; 0; 0; 0; -1]%float;
     vol_numDimensionGroups := 5; vol_dimensionGroupNumber := 1;
     vol_scrollThrows := false |}.

Definition example_dynamic_closure : Closure :=
  {| cl_element := 2%nat; cl_viewportId := "coronal";
     cl_context := DynamicVolumeContext "pet4d"; cl_data := 0%nat;
     cl_isDynamicCinePlaying := true; cl_timeouts := [] |}.

Definition example_dynamic_world : World :=
  {| enabledElements := {[ 1%nat := "axial"%string; 2%nat := "coronal"%string ]};
     viewports := fun _ => example_volume_viewport;
     cachedVolumes := {[ "ct"%string; "pet4d"%string ]};
     volumes := fun id => if bool_decide (id = "pet4d"%string)
                          then example_dynamic_volume else example_volume;
     state := {[ "coronal"%string := 0%nat ]};
     playClipData := fun _ => with_intervalId (Some 5%nat) (newPlayClipData noOptions);
     contexts := fun _ => newContextState;
     nextRef := 1%nat;
     dynamicVolumesPlayingMap := {[ "pet4d"%string := 2%nat ]};
     timers := {[ 5%nat := {| timer_kind := Interval; timer_delay := JS.Num 33;
                              timer_closure := example_dynamic_closure |} ]};
     nextTimer := 6%nat;
     trace := [] |}.

Lemma stopDynamicVolumeCine_stops_other_witness :
  let w := example_dynamic_world in
  (enabledElements w !! 1%nat = Some "axial"%string
   /\ vp_type (viewports w "axial") = VolumeViewport
   /\ _getVolumeFromViewport "axial" w = (Ok (Some "pet4d"%string), w)
   /\ vol_isDynamicVolume (volumes w "pet4d") = true
   /\ dynamicVolumesPlayingMap w !! "pet4d"%string = Some 2%nat
   /\ 2%nat <> 1%nat
   /\ enabledElements w !! 2%nat = Some "coronal"%string
   /\ state w !! "coronal"%string = Some 0%nat)
  /\ intervalId (playClipData w 0%nat) = Some 5%nat
  /\ timers (_stopDynamicVolumeCine 1%nat w).2 !! 5%nat = None.
Proof.
  cbv zeta.
  assert (Hvolume : _getVolumeFromViewport "axial" example_dynamic_world
                    = (Ok (Some "pet4d"%string), example_dynamic_world))
    by (vm_compute; reflexivity).
  split; [repeat split; try reflexivity; try exact Hvolume; lia|].
  split; [reflexivity|].
  eapply (stopDynamicVolumeCine_stops_other 1%nat 2%nat "axial" "coronal"
            "pet4d" 0%nat example_dynamic_world);
    try reflexivity; try exact Hvolume; lia.
Defined.

End CineStopping.

Section CineContexts.
Import Cine.

(** [_getVolumeFromViewport] reads only.  It gives no volume for a
    viewport that is not a volume viewport or that has no volume ids.
    Otherwise it looks up, in the cache, the first of the viewport's
    volume ids whose cached volume is dynamic, and the first id of all when
    there is none: the volume it gives is a cached volume of the viewport,
    and a dynamic one whenever the viewport has a cached dynamic volume. *)
Theorem getVolumeFromViewport_prefers_dynamic (viewport : ViewportId)
    (w : World) :
  let vp := viewports w viewport in
  let dynamic := fun volumeId =>
    volumeId ∈ cachedVolumes w /\ vol_isDynamicVolume (volumes w volumeId) = true in
  exists volume,
    _getVolumeFromViewport viewport w = (Ok volume, w)
    /\ (vp_type vp <> VolumeViewport -> volume = None)
    /\ (vp_allVolumeIds vp = None \/ vp_allVolumeIds vp = Some [] -> volume = None)
    /\ (forall volumeId, volume = Some volumeId ->
          volumeId ∈ cachedVolumes w
          /\ exists ids, vp_allVolumeIds vp = Some ids /\ volumeId ∈ ids)
    /\ (forall ids first,
          vp_type vp = VolumeViewport -> vp_allVolumeIds vp = Some ids ->
          (forall volumeId, volumeId ∈ ids -> ~ dynamic volumeId) ->
          head ids = Some first ->
          volume = if bool_decide (first ∈ cachedVolumes w) then Some first
                   else None)
    /\ (forall ids volumeId,
          vp_type vp = VolumeViewport -> vp_allVolumeIds vp = Some ids ->
          volumeId ∈ ids -> dynamic volumeId ->
          exists found, volume = Some found /\ dynamic found).
Proof.
  cbv zeta.
  unfold _getVolumeFromViewport, bind, getViewport, getVolume, gets, ret.
  cbn -[List.find].
  destruct (vp_type (viewports w viewport)) eqn:Htype;
    try (eexists; split; [reflexivity|]; repeat split; try done;
         intros; congruence).
  destruct (vp_allVolumeIds (viewports w viewport)) as [[|first rest]|] eqn:Hids.
  1: { exists None. split; [reflexivity|]. do 3 (split; [done|]). split.
       - by intros ids first _ [= <-] _ [=].
       - by intros ids volumeId _ [= <-] Hin%elem_of_nil. }
  2: { exists None. split; [reflexivity|]. by repeat split. }
  set (test := fun volumeId : VolumeId =>
         bool_decide (volumeId ∈ cachedVolumes w)
         && vol_isDynamicVolume (volumes w volumeId)).
  assert (Htest : forall volumeId,
            test volumeId = true
            <-> volumeId ∈ cachedVolumes w
                /\ vol_isDynamicVolume (volumes w volumeId) = true).
  { intros volumeId. unfold test.
    by rewrite andb_true_iff, bool_decide_eq_true. }
  eexists. split; [reflexivity|].
  split; [done|]. split; [by intros [|]|].
  destruct (List.find test (first :: rest)) as [found|] eqn:Hfind.
  - apply find_some in Hfind as [Hin Hfound].
    apply Htest in Hfound as Hdyn. destruct Hdyn as [Hcached Hdyn].
    cbn [default]. rewrite bool_decide_eq_true_2 by done.
    split; [|split].
    + intros ? [= <-]. split; [done|]. exists (first :: rest).
      split; [done|]. by apply list_elem_of_In.
    + intros ids first' _ [= <-] Hnone _. exfalso.
      apply (Hnone found); [by apply list_elem_of_In | done].
    + intros ids volumeId _ _ _ _. by exists found.
  - cbn [default]. split; [|split].
    + intros volumeId. case_bool_decide; [|done]. intros [= <-].
      split; [done|]. exists (first :: rest). split; [done | left].
    + by intros ids first' _ [= <-] _ [= <-].
    + intros ids volumeId _ [= <-] Hin Hdyn. exfalso.
      apply list_elem_of_In in Hin.
      pose proof (find_none _ _ Hfind volumeId Hin) as Hno.
      apply Htest in Hdyn. congruence.
Qed.

(** [n] calls in a row. *)
Fixpoint times (n : nat) (m : M unit) : M unit :=
  match n with
  | O => ret tt
  | S n => bind m (fun _ => times n m)
  end.

Lemma scroll_when_rendered_waits (viewport : ViewportId) (waitForRendered : Z)
    (self : Ref) (delta : Z) (k : nat) :
  forall (w : World),
    vp_rendered (viewports w viewport) = false ->
    waitForRenderedCount (contexts w self) + Z.of_nat k <= waitForRendered + 1 ->
    exists w',
      times k (scroll_when_rendered viewport waitForRendered self delta) w
      = (Ok tt, w')
      /\ trace w' = trace w
      /\ viewports w' = viewports w
      /\ waitForRenderedCount (contexts w' self)
         = waitForRenderedCount (contexts w self) + Z.of_nat k.
Proof.
  induction k as [|k IH]; intros w Hrendered Hcount.
  - exists w. repeat split; simpl; try done. lia.
  - cbn [times]. unfold bind at 1.
    unfold scroll_when_rendered at 1. unfold bind, getViewport, gets, modify.
    rewrite Hrendered.
    assert ((waitForRenderedCount (contexts w self) <=? waitForRendered) = true)
      as -> by (apply Z.leb_le; lia).
    cbn [andb negb].
    match goal with |- context [times k _ ?x] => set (w1 := x) end.
    destruct (IH w1) as (w' & Hrun & Htrace & Hviewports & Hwaited).
    + done.
    + subst w1. simpl. rewrite fn_lookup_insert. simpl. lia.
    + exists w'. split; [exact Hrun|]. split; [done|]. split; [done|].
      rewrite Hwaited. subst w1. simpl. rewrite fn_lookup_insert. simpl. lia.
Qed.

(** The stack and the video contexts wait for the viewport to be rendered
    before they scroll, but not for ever: on a viewport that never gets
    rendered, [waitForRendered + 1] calls of [scroll] in a row are skipped,
    and the next one scrolls and starts the count again. *)
Theorem scroll_waits_for_rendering (viewport : ViewportId)
    (waitForRendered : Z) (self : Ref) (delta : Z) (w : World) :
  0 <= waitForRendered ->
  vp_rendered (viewports w viewport) = false ->
  vp_scrollThrows (viewports w viewport) = false ->
  waitForRenderedCount (contexts w self) = 0 ->
  let tick := scroll_when_rendered viewport waitForRendered self delta in
  exists waited w',
    times (Z.to_nat (waitForRendered + 1)) tick w = (Ok tt, waited)
    /\ trace waited = trace w
    /\ tick waited = (Ok tt, w')
    /\ trace w' = trace w ++ [ScrolledViewport viewport delta]
    /\ waitForRenderedCount (contexts w' self) = 0.
Proof.
  intros Hwait Hrendered Hthrows Hcount tick.
  destruct (scroll_when_rendered_waits viewport waitForRendered self delta
              (Z.to_nat (waitForRendered + 1)) w Hrendered ltac:(lia))
    as (waited & Hrun & Htrace & Hviewports & Hwaited).
  exists waited. eexists. split; [exact Hrun|]. split; [exact Htrace|].
  subst tick. unfold scroll_when_rendered, bind, getViewport, gets, modify,
    csUtils_scroll.
  rewrite Hviewports, Hrendered.
  assert ((waitForRenderedCount (contexts waited self) <=? waitForRendered)
          = false) as -> by (apply Z.leb_gt; lia).
  cbn [andb]. cbn [viewports set_context]. unfold bind, getViewport, gets.
  cbn [viewports set_context]. rewrite Hviewports, Hthrows.
  split; [reflexivity|]. simpl. rewrite fn_lookup_insert, Htrace. done.
Qed.

Lemma scroll_waits_for_rendering_witness :
  let w :=
    {| enabledElements := enabledElements example_world;
       viewports := fun _ =>
         {| vp_type := StackViewport; vp_imageIdsLength := 4;
            vp_targetImageIdIndex := 0; vp_numberOfSlices := 0;
            vp_sliceIndex := 0; vp_rendered := false; vp_allVolumeIds := None;
            vp_viewPlaneNormal := (0, 0, 1)%float;
            vp_scrollInfo := {| si_numScrollSteps := 0; si_currentStepIndex := 0 |};
            vp_frameRate := 0; vp_scrollThrows := false |};
       cachedVolumes := ∅; volumes := volumes example_world;
       state := ∅; playClipData := playClipData example_world;
       contexts := contexts example_world; nextRef := 1%nat;
       dynamicVolumesPlayingMap := ∅; timers := ∅; nextTimer := 1%nat;
       trace := [] |} in
  let tick := scroll_when_rendered "stack" 2 0%nat 1 in
  (0 <= 2
   /\ vp_rendered (viewports w "stack") = false
   /\ vp_scrollThrows (viewports w "stack") = false
   /\ waitForRenderedCount (contexts w 0%nat) = 0)
  /\ exists waited w',
       times 3 tick w = (Ok tt, waited)
       /\ trace waited = []
       /\ tick waited = (Ok tt, w')
       /\ trace w' = [ScrolledViewport "stack" 1]
       /\ waitForRenderedCount (contexts w' 0%nat) = 0.
Proof.
  intros w tick. split; [repeat split; try reflexivity; lia|].
  apply (scroll_waits_for_rendering "stack" 2 0%nat 1 w);
    [lia | reflexivity | reflexivity | reflexivity].
Defined.

(** The cache of a volume viewport context holds [info] and is valid for
    the camera as it is. *)
Definition settled (viewport : ViewportId) (self : Ref) (info : ScrollInfo)
    (w : World) : Prop :=
  cachedScrollInfo (contexts w self) = Some info
  /\ vec3_equals (vp_viewPlaneNormal (viewports w viewport))
       (cachedViewPlaneNormal (contexts w self)) = true.

Lemma getScrollInfo_hit (viewport : ViewportId) (self : Ref)
    (info : ScrollInfo) (w : World) :
  settled viewport self info w -> getScrollInfo viewport self w = (Ok info, w).
Proof.
  intros [Hcached Heq].
  unfold getScrollInfo, bind, getViewport, gets. by rewrite Hcached, Heq.
Qed.

Lemma getScrollInfo_settles (viewport : ViewportId) (self : Ref) (w : World) :
  let normal := vp_viewPlaneNormal (viewports w viewport) in
  vec3_equals normal normal = true ->
  exists info w1,
    getScrollInfo viewport self w = (Ok info, w1)
    /\ settled viewport self info w1
    /\ viewports w1 = viewports w /\ trace w1 = trace w.
Proof.
  intros normal Hnormal. subst normal.
  assert (Hmiss : let w1 :=
            set_context self
              {| waitForRenderedCount := waitForRenderedCount (contexts w self);
                 cachedViewPlaneNormal := vp_viewPlaneNormal (viewports w viewport);
                 cachedScrollInfo := Some (vp_scrollInfo (viewports w viewport)) |}
              w in
            settled viewport self (vp_scrollInfo (viewports w viewport)) w1).
  { split; simpl; by rewrite fn_lookup_insert. }
  unfold getScrollInfo, bind, getViewport, gets, modify, ret.
  destruct (cachedScrollInfo (contexts w self)) as [info|] eqn:Hcached;
    [destruct (vec3_equals _ (cachedViewPlaneNormal (contexts w self))) eqn:Heq|].
  - by exists info, w.
  - by eexists _, _.
  - by eexists _, _.
Qed.

(** The volume viewport context keeps the current step for itself: after
    [scroll(delta)], [currentStepIndex] is what it was plus [delta], and
    the number of steps is what it was, as long as the camera is not
    rotated (and its view plane normal can be compared with itself). *)
Theorem volume_context_tracks_scroll (viewport : ViewportId)
    (volumeId : VolumeId) (self : Ref) (delta : Z) (w : World) :
  let ctx := VolumeContext viewport volumeId self in
  let normal := vp_viewPlaneNormal (viewports w viewport) in
  vec3_equals normal normal = true ->
  vp_scrollThrows (viewports w viewport) = false ->
  exists (i n : Z) (w1 w2 : World),
    currentStepIndex ctx w = (Ok i, w1)
    /\ (numScrollSteps ctx w).1 = Ok n
    /\ scroll ctx delta w1 = (Ok tt, w2)
    /\ (currentStepIndex ctx w2).1 = Ok (i + delta)
    /\ (numScrollSteps ctx w2).1 = Ok n
    /\ trace w2 = trace w ++ [ContextScroll delta; ScrolledViewport viewport delta].
Proof.
  intros ctx normal Hnormal Hthrows. subst ctx normal.
  destruct (getScrollInfo_settles viewport self w Hnormal)
    as (info & w1 & Hrun & [Hcached Heq] & Hviewports & Htrace).
  set (info' := {| si_numScrollSteps := si_numScrollSteps info;
                   si_currentStepIndex := si_currentStepIndex info + delta |}).
  set (w2 := emit (ScrolledViewport viewport delta)
               (set_context self
                  {| waitForRenderedCount := waitForRenderedCount (contexts w1 self);
                     cachedViewPlaneNormal := cachedViewPlaneNormal (contexts w1 self);
                     cachedScrollInfo := Some info' |}
                  (emit (ContextScroll delta) w1))).
  assert (Hsettled2 : settled viewport self info' w2).
  { split; simpl; by rewrite fn_lookup_insert. }
  exists (si_currentStepIndex info), (si_numScrollSteps info), w1, w2.
  unfold currentStepIndex, numScrollSteps.
  rewrite !(bind_run _ _ _ _ _ Hrun).
  rewrite !(bind_run _ _ _ _ _ (getScrollInfo_hit _ _ _ _ Hsettled2)).
  split; [reflexivity|]. split; [reflexivity|]. split.
  - unfold scroll. unfold bind at 1. unfold modify at 1.
    assert (Hsettled1 : settled viewport self info
                          (emit (ContextScroll delta) w1)) by (by split).
    rewrite (bind_run _ _ _ _ _ (getScrollInfo_hit _ _ _ _ Hsettled1)).
    unfold bind at 1. unfold gets at 1. unfold bind at 1. unfold modify at 1.
    unfold csUtils_scroll, bind, getViewport, gets. simpl.
    by rewrite Hviewports, Hthrows.
  - split; [reflexivity|]. split; [reflexivity|].
    subst w2. simpl. by rewrite Htrace, <- app_assoc.
Qed.

Lemma volume_context_tracks_scroll_witness :
  let ctx := VolumeContext "axial" "ct" 0%nat in
  (vec3_equals (0, 0, 1)%float (0, 0, 1)%float = true
   /\ vp_scrollThrows (viewports example_dynamic_world "axial") = false)
  /\ exists (w1 w2 : World),
       currentStepIndex ctx example_dynamic_world = (Ok 3, w1)
       /\ scroll ctx 2 w1 = (Ok tt, w2)
       /\ (currentStepIndex ctx w2).1 = Ok 5.
Proof.
  intros ctx. split; [split; reflexivity|].
  destruct (volume_context_tracks_scroll "axial" "ct" 0%nat 2
              example_dynamic_world)
    as (i & n & w1 & w2 & Hi & _ & Hscroll & Hnext & _);
    [reflexivity | reflexivity |].
  exists w1, w2.
  assert (Hthree : i = 3).
  { assert (H3 : (currentStepIndex ctx example_dynamic_world).1 = Ok 3)
      by reflexivity.
    subst ctx. rewrite Hi in H3. by injection H3. }
  subst i. done.
Defined.

End CineContexts.

Section CineTicks.
Import Cine.

(** What scrolling a context leaves alone: the tool data and the timers. *)
Record scrolls (w w' : World) : Prop := {
  scrolls_enabledElements : enabledElements w' = enabledElements w;
  scrolls_state : state w' = state w;
  scrolls_playClipData : playClipData w' = playClipData w;
  scrolls_timers : timers w' = timers w;
  scrolls_nextTimer : nextTimer w' = nextTimer w
}.

#[global] Instance scrolls_preorder : PreOrder scrolls.
Proof.
  split.
  - by intros w.
  - intros w1 w2 w3 [] []. split; congruence.
Qed.

Lemma scroll_scrolls ctx delta : preserves scrolls (scroll ctx delta).
Proof.
  intros w. unfold scroll, scroll_when_rendered, getScrollInfo, csUtils_scroll,
    volume_scroll, bind, getViewport, gets, modify, throw, ret.
  destruct ctx; simpl.
  - destruct (_ && _); simpl; [done|]. by destruct (vp_scrollThrows _).
  - destruct (_ && _); simpl; [done|]. by destruct (vp_scrollThrows _).
  - destruct (cachedScrollInfo _); [destruct (vec3_equals _ _)|]; simpl;
      by destruct (vp_scrollThrows _).
  - by destruct (vol_scrollThrows _).
Qed.

Lemma numScrollSteps_scrolls ctx : preserves scrolls (numScrollSteps ctx).
Proof.
  intros w. unfold numScrollSteps, getScrollInfo, bind, getViewport, gets,
    modify, ret.
  destruct ctx; simpl; try done.
  by destruct (cachedScrollInfo _); [destruct (vec3_equals _ _)|].
Qed.

Lemma currentStepIndex_scrolls ctx : preserves scrolls (currentStepIndex ctx).
Proof.
  intros w. unfold currentStepIndex, getScrollInfo, bind, getViewport, gets,
    modify, ret.
  destruct ctx; simpl; try done.
  by destruct (cachedScrollInfo _); [destruct (vec3_equals _ _)|].
Qed.

(** What a tick does to the timer of its clip: it returns, and either the
    clip goes on, its timer id and the timers being what they were, or the
    clip is stopped, its timer id forgotten and the timer cancelled.  No
    tick sets a timer. *)
Lemma playClipAction_timer (c : Closure) (v : ViewportId) (id : TimerId)
    (w : World) :
  enabledElements w !! cl_element c = Some v ->
  state w !! v = Some (cl_data c) ->
  intervalId (playClipData w (cl_data c)) = Some id ->
  let w' := (playClipAction c w).2 in
  (playClipAction c w).1 = Ok tt
  /\ nextTimer w' = nextTimer w
  /\ ((intervalId (playClipData w' (cl_data c)) = Some id
       /\ timers w' = timers w)
      \/ (intervalId (playClipData w' (cl_data c)) = None
          /\ timers w' !! id = None /\ timers w' ⊆ timers w
          /\ last (trace w') = Some (Triggered (cl_element c) CLIP_STOPPED))).
Proof.
  intros He Hr Hid.
  destruct (numScrollSteps_ok (cl_context c) w) as (n & w1 & Hn).
  destruct (currentStepIndex_ok (cl_context c) w1) as (i & w2 & Hi).
  assert (Hscrolls : scrolls w w2).
  { etransitivity.
    - pose proof (numScrollSteps_scrolls (cl_context c) w) as H. by rewrite Hn in H.
    - pose proof (currentStepIndex_scrolls (cl_context c) w1) as H.
      by rewrite Hi in H. }
  destruct Hscrolls as [Henabled Hstate Hdata Htimers Hnext].
  cbv zeta. rewrite (playClipAction_perform c w w1 w2 n i Hn Hi). cbv zeta.
  destruct (tick_outcome _ _ _ _ _) as [|reverse' newStepIndex]; simpl.
  - (* the clip stops *)
    unfold bind, triggerEvent, modify.
    pose proof (stopClip_ok (cl_element c) (negb (cl_isDynamicCinePlaying c))
                  (Some (cl_viewportId c)) w2) as Hok.
    pose proof (stopClip_stops (cl_element c) (negb (cl_isDynamicCinePlaying c))
                  (Some (cl_viewportId c)) w2) as Hst.
    destruct (stopClip_clears (cl_element c) v (cl_data c)
                (negb (cl_isDynamicCinePlaying c)) (Some (cl_viewportId c)) w2)
      as [Hnone Hcleared]; [congruence | congruence |].
    destruct (_stopClip _ _ _ w2) as [[[]|msg] w3]; [|done].
    simpl in *. split; [done|].
    split; [by rewrite (stops_nextTimer _ _ Hst)|]. right.
    split; [done|]. split; [apply Hcleared; congruence|].
    split; [rewrite <- Htimers; apply (stops_timers _ _ Hst) | apply last_snoc].
  - (* the clip goes on *)
    set (wa := if bool_decide (reverse (playClipData w2 (cl_data c)) = reverse')
               then w2
               else set_playClipData (cl_data c)
                      (with_reverse reverse' (playClipData w2 (cl_data c))) w2).
    assert (Hwa : intervalId (playClipData wa (cl_data c)) = Some id
                  /\ timers wa = timers w /\ nextTimer wa = nextTimer w).
    { subst wa. case_bool_decide as Hrev; simpl.
      - by rewrite Hdata.
      - rewrite fn_lookup_insert. simpl. by rewrite Hdata. }
    destruct Hwa as (Hida & Htimersa & Hnexta).
    assert (Hfirst : forall k : unit -> M unit,
      bind (fun w0 =>
              if bool_decide (reverse (playClipData w0 (cl_data c)) = reverse')
              then ret tt w0
              else update_data (cl_data c) (with_reverse reverse') w0) k w2
      = k tt wa).
    { intros k. unfold bind, wa. by case_bool_decide. }
    rewrite Hfirst.
    case_bool_decide as Hsame; simpl; [by auto|].
    unfold try_catch.
    destruct (scroll_scrolls (cl_context c) (newStepIndex - i) wa)
      as [_ _ Hdatab Htimersb Hnextb].
    destruct (scroll (cl_context c) (newStepIndex - i) wa) as [[[]|msg] wb];
      simpl in *.
    + split; [done|]. split; [congruence|]. left. by rewrite Hdatab, Htimersb.
    + unfold scroll_failed, bind, modify, triggerEvent.
      destruct (stopClipWithData_run (cl_data c) (emit Warned wb))
        as (Hok & Hnone & Hcancel & _).
      pose proof (stopClipWithData_stops (cl_data c) (emit Warned wb)) as Hst.
      destruct (Hcancel id) as [Hdel _]; [simpl; by rewrite Hdatab|].
      destruct (_stopClipWithData (cl_data c) (emit Warned wb))
        as [[[]|msg'] wc]; [|done].
      simpl in *. split; [done|].
      split; [rewrite (stops_nextTimer _ _ Hst); simpl; congruence|]. right.
      split; [done|]. rewrite Hdel, Htimersb, Htimersa.
      split; [apply lookup_delete_eq|]. split; [apply delete_subseteq|].
      apply last_snoc.
Qed.

(** When scrolling throws, the tick does not: it warns, stops the clip
    (the timer id is forgotten and the timer cancelled, the other timers
    staying) and fires CLIP_STOPPED. *)
Theorem playClipAction_scroll_fails (c : Closure) (w w1 w2 : World)
    (n i : Z) (id : TimerId) (message : string) :
  numScrollSteps (cl_context c) w = (Ok n, w1) ->
  currentStepIndex (cl_context c) w1 = (Ok i, w2) ->
  let d := playClipData w (cl_data c) in
  let delta := if reverse d then -1 else 1 in
  0 <= i + delta < n ->
  (scroll (cl_context c) delta w2).1 = Throw message ->
  intervalId d = Some id ->
  let w' := (playClipAction c w).2 in
  (playClipAction c w).1 = Ok tt
  /\ intervalId (playClipData w' (cl_data c)) = None
  /\ timers w' = delete id (timers w)
  /\ trace w'
     = trace (scroll (cl_context c) delta w2).2
       ++ [Warned; Triggered (cl_element c) CLIP_STOPPED].
Proof.
  intros Hn Hi d delta Hrange Hthrows Hid.
  assert (Hscrolls : scrolls w w2).
  { etransitivity.
    - pose proof (numScrollSteps_scrolls (cl_context c) w) as H. by rewrite Hn in H.
    - pose proof (currentStepIndex_scrolls (cl_context c) w1) as H.
      by rewrite Hi in H. }
  destruct Hscrolls as [_ _ Hdata Htimers _].
  assert (Houtcome : tick_outcome n i (reverse d) (bounce d) (loop d)
                     = TickStep (reverse d) (i + delta)).
  { unfold tick_outcome. fold (direction (reverse d)).
    assert (Hdelta : direction (reverse d) = delta) by reflexivity.
    rewrite Hdelta. by rewrite bool_decide_eq_true_2. }
  destruct (scroll_scrolls (cl_context c) delta w2) as [_ _ Hdatab Htimersb _].
  assert (Hrun : playClipAction c w
                 = scroll_failed c (scroll (cl_context c) delta w2).2).
  { rewrite (playClipAction_perform c w w1 w2 n i Hn Hi). cbv zeta.
    rewrite Hdata. fold d. rewrite Houtcome. cbn [perform].
    unfold bind at 1. rewrite Hdata. fold d.
    rewrite bool_decide_eq_true_2 by done. cbn [ret].
    rewrite bool_decide_eq_false_2 by (subst delta; destruct (reverse d); lia).
    replace (i + delta - i) with delta by lia.
    unfold try_catch.
    by destruct (scroll (cl_context c) delta w2) as [[[]|msg] wb]. }
  cbv zeta. rewrite Hrun.
  set (wb := (scroll (cl_context c) delta w2).2) in *.
  unfold scroll_failed, bind, modify, triggerEvent.
  destruct (stopClipWithData_run (cl_data c) (emit Warned wb))
    as (Hok & Hnone & Hcancel & _).
  destruct (Hcancel id) as [Hdel _]; [simpl; by rewrite Hdatab, Hdata|].
  assert (Htrace : trace (_stopClipWithData (cl_data c) (emit Warned wb)).2
                   = trace wb ++ [Warned]).
  { unfold _stopClipWithData, bind, gets, modify. simpl.
    destruct (intervalId (playClipData wb (cl_data c))); [|done]. simpl.
    by destruct (usingFrameTimeVector _). }
  destruct (_stopClipWithData (cl_data c) (emit Warned wb))
    as [[[]|msg'] wc]; [|done].
  simpl in *. split; [done|]. split; [done|].
  split; [by rewrite Hdel, Htimersb, Htimers|].
  by rewrite Htrace, <- app_assoc.
Qed.

(** A stack of four images showing the second one, whose scrolling throws;
    its clip is playing on element 1 with the interval 5. *)
Definition example_stack_closure : Closure :=
  {| cl_element := 1%nat; cl_viewportId := "stack";
     cl_context := StackContext "stack" 4 30 1%nat; cl_data := 0%nat;
     cl_isDynamicCinePlaying := true; cl_timeouts := [40; 50; 60; 50] |}.

Definition example_playing_world (scrollThrows : bool) : World :=
  {| enabledElements := {[ 1%nat := "stack"%string ]};
     viewports := fun _ =>
       {| vp_type := StackViewport; vp_imageIdsLength := 4;
          vp_targetImageIdIndex := 1; vp_numberOfSlices := 0;
          vp_sliceIndex := 0; vp_rendered := true; vp_allVolumeIds := None;
          vp_viewPlaneNormal := (0, 0, 1)%float;
          vp_scrollInfo := {| si_numScrollSteps := 0; si_currentStepIndex := 0 |};
          vp_frameRate := 0; vp_scrollThrows := scrollThrows |};
     cachedVolumes := ∅;
     volumes := fun _ => example_volume;
     state := {[ "stack"%string := 0%nat ]};
     playClipData := fun _ => with_intervalId (Some 5%nat) (newPlayClipData noOptions);
     contexts := fun _ => newContextState;
     nextRef := 2%nat;
     dynamicVolumesPlayingMap := ∅;
     timers := {[ 5%nat := {| timer_kind := Interval; timer_delay := JS.Num 33;
                              timer_closure := example_stack_closure |} ]};
     nextTimer := 6%nat;
     trace := [] |}.

Lemma playClipAction_scroll_fails_witness :
  let c := example_stack_closure in
  let w := example_playing_world true in
  (numScrollSteps (cl_context c) w = (Ok 4, w)
   /\ currentStepIndex (cl_context c) w = (Ok 1, w)
   /\ 0 <= 1 + 1 < 4
   /\ (scroll (cl_context c) 1 w).1 = Throw "scroll"
   /\ intervalId (playClipData w 0%nat) = Some 5%nat)
  /\ (playClipAction c w).1 = Ok tt
  /\ timers (playClipAction c w).2 = delete 5%nat (timers w).
Proof.
  intros c w.
  split; [repeat split; try reflexivity; lia|].
  destruct (playClipAction_scroll_fails c w w w 4 1 5%nat "scroll")
    as (Hok & _ & Htimers & _); try reflexivity; [simpl; lia|].
  by split.
Defined.

(** The handler of the frame-time-vector timeouts sets the next timeout,
    with the delay of the current step, before it runs the tick.  After
    it, either the clip goes on and that timeout is its timer, the only
    one added, or the tick stopped the clip and the timeout just set is
    cancelled again: a stopped clip leaves no timer behind. *)
Theorem playClipTimeoutHandler_rearms (c : Closure) (v : ViewportId)
    (w : World) :
  enabledElements w !! cl_element c = Some v ->
  state w !! v = Some (cl_data c) ->
  exists (i : Z) (w1 : World),
    currentStepIndex (cl_context c) w = (Ok i, w1)
    /\ let id := nextTimer w in
       let timer := {| timer_kind := Timeout;
                       timer_delay := timeout_at (cl_timeouts c) i;
                       timer_closure := c |} in
       let w' := (playClipTimeoutHandler c w).2 in
       (playClipTimeoutHandler c w).1 = Ok tt
       /\ nextTimer w' = S id
       /\ ((intervalId (playClipData w' (cl_data c)) = Some id
            /\ timers w' = <[id := timer]> (timers w))
           \/ (intervalId (playClipData w' (cl_data c)) = None
               /\ timers w' !! id = None
               /\ timers w' ⊆ <[id := timer]> (timers w)
               /\ last (trace w')
                  = Some (Triggered (cl_element c) CLIP_STOPPED))).
Proof.
  intros He Hr.
  destruct (currentStepIndex_ok (cl_context c) w) as (i & w1 & Hi).
  exists i, w1. split; [exact Hi|].
  pose proof (currentStepIndex_scrolls (cl_context c) w) as Hscrolls.
  rewrite Hi in Hscrolls. destruct Hscrolls as [Henabled Hstate Hdata Htimers Hnext].
  simpl in *. cbv zeta.
  unfold playClipTimeoutHandler. rewrite (bind_run _ _ _ _ _ Hi).
  unfold bind at 1. unfold setTimeout, setTimer at 1.
  unfold bind at 1. unfold update_data, modify at 1.
  match goal with |- context [playClipAction c ?x] => set (wb := x) end.
  destruct (playClipAction_timer c v (nextTimer w1) wb) as (Hok & Hnext' & Hcases).
  - subst wb. simpl. congruence.
  - subst wb. simpl. congruence.
  - subst wb. simpl. by rewrite fn_lookup_insert.
  - rewrite <- Hnext, <- Htimers.
    split; [exact Hok|]. split; [exact Hnext'|]. exact Hcases.
Qed.

Lemma playClipTimeoutHandler_rearms_witness :
  let c := example_stack_closure in
  let w := example_playing_world false in
  (enabledElements w !! cl_element c = Some "stack"%string
   /\ state w !! "stack"%string = Some (cl_data c))
  /\ exists (i : Z) (w1 : World),
       currentStepIndex (cl_context c) w = (Ok i, w1)
       /\ (playClipTimeoutHandler c w).1 = Ok tt
       /\ nextTimer (playClipTimeoutHandler c w).2 = 7%nat.
Proof.
  intros c w. split; [by split|].
  destruct (playClipTimeoutHandler_rearms c "stack" w) as (i & w1 & Hi & Hrest);
    [reflexivity | reflexivity |].
  exists i, w1. split; [exact Hi|].
  destruct Hrest as (Hok & Hnext & _). by split.
Defined.

Lemma settled_same (viewport : ViewportId) (self : Ref) (info : ScrollInfo)
    (w w' : World) :
  viewports w' = viewports w -> contexts w' = contexts w ->
  settled viewport self info w -> settled viewport self info w'.
Proof. intros Hv Hc [H1 H2]. split; by rewrite ?Hv, Hc. Qed.

(** In a volume viewport context, whose current step is the one the
    context keeps, a tick leaves the step within the clip: from a step in
    [0, numScrollSteps) the tick ends on a step in [0, numScrollSteps),
    whatever the direction and with or without bounce and loop, and the
    number of steps stays. *)
Theorem volume_clip_stays_in_range (c : Closure) (viewport : ViewportId)
    (volumeId : VolumeId) (self : Ref) (w w1 w2 : World) (n i : Z) :
  cl_context c = VolumeContext viewport volumeId self ->
  let normal := vp_viewPlaneNormal (viewports w viewport) in
  vec3_equals normal normal = true ->
  vp_scrollThrows (viewports w viewport) = false ->
  numScrollSteps (cl_context c) w = (Ok n, w1) ->
  currentStepIndex (cl_context c) w1 = (Ok i, w2) ->
  0 <= i < n ->
  let w' := (playClipAction c w).2 in
  exists i',
    currentStepIndex (cl_context c) w' = (Ok i', w')
    /\ numScrollSteps (cl_context c) w' = (Ok n, w')
    /\ 0 <= i' < n.
Proof.
  intros Hctx normal Hnormal Hthrows Hn Hi Hrange. subst normal.
  cbv zeta. rewrite (playClipAction_perform c w w1 w2 n i Hn Hi). cbv zeta.
  destruct (getScrollInfo_settles viewport self w Hnormal)
    as (info & wA & Hrun & Hsettled & Hviewports & _).
  rewrite Hctx in *. unfold numScrollSteps in Hn.
  rewrite (bind_run _ _ _ _ _ Hrun) in Hn. injection Hn as <- <-.
  unfold currentStepIndex in Hi.
  rewrite (bind_run _ _ _ _ _ (getScrollInfo_hit _ _ _ _ Hsettled)) in Hi.
  injection Hi as <- <-.
  assert (Hread : forall (info' : ScrollInfo) (w0 : World),
            settled viewport self info' w0 ->
            si_numScrollSteps info' = si_numScrollSteps info ->
            0 <= si_currentStepIndex info' < si_numScrollSteps info ->
            exists i',
              currentStepIndex (VolumeContext viewport volumeId self) w0
              = (Ok i', w0)
              /\ numScrollSteps (VolumeContext viewport volumeId self) w0
                 = (Ok (si_numScrollSteps info), w0)
              /\ 0 <= i' < si_numScrollSteps info).
  { intros info' w0 Hs Hsteps Hin. exists (si_currentStepIndex info').
    unfold currentStepIndex, numScrollSteps.
    rewrite !(bind_run _ _ _ _ _ (getScrollInfo_hit _ _ _ _ Hs)).
    unfold ret. by rewrite Hsteps. }
  destruct (tick_outcome _ _ _ _ _) as [|reverse' newStepIndex] eqn:Houtcome;
    cbn [perform].
  - (* the clip stops where it is *)
    unfold bind, triggerEvent, modify.
    pose proof (stopClip_ok (cl_element c) (negb (cl_isDynamicCinePlaying c))
                  (Some (cl_viewportId c)) wA) as Hok.
    pose proof (stopClip_stops (cl_element c) (negb (cl_isDynamicCinePlaying c))
                  (Some (cl_viewportId c)) wA) as Hst.
    destruct (_stopClip _ _ _ wA) as [[[]|msg] w3]; [|done].
    cbn [snd] in *. apply (Hread info); [|done|done].
    apply (settled_same _ _ _ wA); [|  |exact Hsettled]; simpl.
    + apply (stops_viewports _ _ Hst).
    + apply (stops_contexts _ _ Hst).
  - (* the clip goes on *)
    pose proof (tick_outcome_in_range _ _ _ _ _ _ _ Houtcome ltac:(lia)) as Hnew.
    set (wa := if bool_decide (reverse (playClipData wA (cl_data c)) = reverse')
               then wA
               else set_playClipData (cl_data c)
                      (with_reverse reverse' (playClipData wA (cl_data c))) wA).
    assert (Hwa : settled viewport self info wa
                  /\ viewports wa = viewports w).
    { subst wa. case_bool_decide; [by split|].
      split; [|done]. by apply (settled_same _ _ _ wA). }
    destruct Hwa as [Hsettleda Hviewportsa].
    assert (Hfirst : forall k : unit -> M unit,
      bind (fun w0 =>
              if bool_decide (reverse (playClipData w0 (cl_data c)) = reverse')
              then ret tt w0
              else update_data (cl_data c) (with_reverse reverse') w0) k wA
      = k tt wa).
    { intros k. unfold bind, wa. by case_bool_decide. }
    rewrite Hfirst.
    case_bool_decide as Hsame; cbn [ret snd].
    + by apply (Hread info).
    + set (delta := newStepIndex - si_currentStepIndex info).
      set (info' := {| si_numScrollSteps := si_numScrollSteps info;
                       si_currentStepIndex := si_currentStepIndex info + delta |}).
      set (wb := emit (ScrolledViewport viewport delta)
                   (set_context self
                      {| waitForRenderedCount :=
                           waitForRenderedCount (contexts wa self);
                         cachedViewPlaneNormal :=
                           cachedViewPlaneNormal (contexts wa self);
                         cachedScrollInfo := Some info' |}
                      (emit (ContextScroll delta) wa))).
      assert (Hscroll : scroll (VolumeContext viewport volumeId self) delta wa
                        = (Ok tt, wb)).
      { unfold scroll. unfold bind at 1. unfold modify at 1.
        assert (Hsettled1 : settled viewport self info
                              (emit (ContextScroll delta) wa))
          by (by apply (settled_same _ _ _ wa)).
        rewrite (bind_run _ _ _ _ _ (getScrollInfo_hit _ _ _ _ Hsettled1)).
        unfold bind at 1. unfold gets at 1. unfold bind at 1. unfold modify at 1.
        unfold csUtils_scroll, bind, getViewport, gets. simpl.
        by rewrite Hviewportsa, Hthrows. }
      unfold try_catch. rewrite Hctx, Hscroll. cbn [snd].
      apply (Hread info'); [|done|].
      * destruct Hsettleda as [_ Heq]. split; simpl; by rewrite fn_lookup_insert.
      * subst info' delta. simpl. lia.
Qed.

Lemma volume_clip_stays_in_range_witness :
  let c := {| cl_element := 1%nat; cl_viewportId := "axial";
              cl_context := VolumeContext "axial" "ct" 3%nat; cl_data := 0%nat;
              cl_isDynamicCinePlaying := false; cl_timeouts := [] |} in
  let w := example_dynamic_world in
  (vec3_equals (0, 0, 1)%float (0, 0, 1)%float = true
   /\ vp_scrollThrows (viewports w "axial") = false)
  /\ exists (w1 : World) (i' : Z),
       numScrollSteps (cl_context c) w = (Ok 20, w1)
       /\ currentStepIndex (cl_context c) w1 = (Ok 3, w1)
       /\ (currentStepIndex (cl_context c) (playClipAction c w).2).1 = Ok i'
       /\ 0 <= i' < 20.
Proof.
  intros c w. split; [by split|].
  set (w1 := (numScrollSteps (cl_context c) w).2).
  assert (Hn : numScrollSteps (cl_context c) w = (Ok 20, w1)) by reflexivity.
  assert (Hi : currentStepIndex (cl_context c) w1 = (Ok 3, w1)) by reflexivity.
  destruct (volume_clip_stays_in_range c "axial" "ct" 3%nat w w1 w1 20 3
              eq_refl eq_refl eq_refl Hn Hi ltac:(lia))
    as (i' & Hi' & _ & Hrange).
  exists w1, i'. split; [exact Hn|]. split; [exact Hi|].
  split; [by rewrite Hi' | exact Hrange].
Defined.

End CineTicks.

(** ** CINE playback: what [playClip] does to the timers *)

Section CineCancels.
Import Cine.

(** Timers are only removed, and a clip whose timer id is forgotten has
    its timer cancelled. *)
Definition cancels (w w' : World) : Prop :=
  timers w' ⊆ timers w
  /\ forall r id, intervalId (playClipData w r) = Some id ->
       intervalId (playClipData w' r) = Some id \/ timers w' !! id = None.

#[global] Instance cancels_preorder : PreOrder cancels.
Proof.
  split.
  - intros w. split; [done | auto].
  - intros w1 w2 w3 [Hsub12 H12] [Hsub23 H23]. split; [by etransitivity|].
    intros r id Hid. destruct (H12 r id Hid) as [Hsame | Hgone].
    + by apply H23.
    + right. by eapply lookup_weaken_None.
Qed.

Lemma cancels_others (w w' : World) :
  timers w' = timers w -> playClipData w' = playClipData w -> cancels w w'.
Proof. intros Ht Hd. split; [by rewrite Ht | intros r id Hid; left; by rewrite Hd]. Qed.

Lemma stopClipWithData_cancels_timers (r : Ref) :
  preserves cancels (_stopClipWithData r).
Proof.
  intros w. destruct (stopClipWithData_run r w) as (_ & _ & Hcancel & Hidle & _).
  destruct (intervalId (playClipData w r)) as [id|] eqn:Hid.
  - destruct (Hcancel id eq_refl) as [Htimers Hdata]. split.
    + rewrite Htimers. apply delete_subseteq.
    + intros r' id' Hid'. rewrite Hdata, Htimers.
      destruct (decide (r' = r)) as [->|Hne].
      * right. assert (id' = id) as -> by congruence. apply lookup_delete_eq.
      * left. by rewrite fn_lookup_insert_ne.
  - rewrite (Hidle eq_refl). reflexivity.
Qed.

Lemma stopClip_with_cancels (k : Element -> M unit) :
  (forall e, preserves cancels (k e)) ->
  forall e stopDynamicCine viewportId,
    preserves cancels (_stopClip_with k e stopDynamicCine viewportId).
Proof.
  intros Hk e sdc vid. unfold _stopClip_with.
  apply preserves_bind;
    [typeclasses eauto
    | apply readonly_preserves, readonly_getEnabledElement; typeclasses eauto |].
  intros enabled. apply preserves_bind; [typeclasses eauto | |].
  - apply readonly_preserves; [typeclasses eauto|].
    destruct enabled as [v|].
    + apply readonly_bind; [apply readonly_getToolState | intros; apply readonly_ret].
    + destruct vid as [id|]; [|apply readonly_ret].
      case_bool_decide; [apply readonly_ret|].
      apply readonly_bind; [apply readonly_gets | intros; apply readonly_ret].
  - intros [toolState|]; [|apply preserves_ret; typeclasses eauto].
    apply preserves_bind; [typeclasses eauto | |].
    + destruct toolState;
        [apply stopClipWithData_cancels_timers
        | apply preserves_ret; typeclasses eauto].
    + intros _. destruct enabled as [v|]; [|apply preserves_ret; typeclasses eauto].
      apply preserves_bind;
        [typeclasses eauto | apply preserves_gets; typeclasses eauto |].
      intros vp.
      destruct (vp_type vp);
        try (apply preserves_when; [typeclasses eauto | apply Hk]).
      apply preserves_modify. intros w. by apply cancels_others.
Qed.

Lemma stopDynamicVolumeCine_rec_cancels (fuel : nat) (e : Element) :
  preserves cancels (_stopDynamicVolumeCine_rec fuel e).
Proof.
  revert e. induction fuel as [|fuel IH]; intros e; simpl.
  - apply preserves_throw; typeclasses eauto.
  - apply preserves_bind;
      [typeclasses eauto | apply preserves_gets; typeclasses eauto |].
    intros [v|]; [|apply preserves_throw; typeclasses eauto].
    apply preserves_bind;
      [typeclasses eauto | apply preserves_gets; typeclasses eauto |].
    intros vp. destruct (vp_type vp); try (apply preserves_ret; typeclasses eauto).
    apply preserves_bind;
      [typeclasses eauto
      | apply readonly_preserves, readonly_getVolumeFromViewport; typeclasses eauto |].
    intros volume.
    apply preserves_bind;
      [typeclasses eauto
      | apply readonly_preserves, readonly_isDynamicVolume; typeclasses eauto |].
    intros dynamic.
    destruct volume as [volumeId|]; [|apply preserves_ret; typeclasses eauto].
    apply preserves_when; [typeclasses eauto|].
    apply preserves_bind;
      [typeclasses eauto | apply preserves_gets; typeclasses eauto |].
    intros other.
    apply preserves_bind; [typeclasses eauto | |].
    { apply preserves_modify. intros w. by apply cancels_others. }
    intros _. destruct other as [other|]; [|apply preserves_ret; typeclasses eauto].
    apply preserves_when; [typeclasses eauto|].
    apply stopClip_with_cancels. exact IH.
Qed.

Lemma stopDynamicVolumeCine_cancels (e : Element) :
  preserves cancels (_stopDynamicVolumeCine e).
Proof. intros w. apply stopDynamicVolumeCine_rec_cancels. Qed.

Lemma stopClip_cancels (e : Element) (stopDynamicCine : bool)
    (viewportId : option ViewportId) :
  preserves cancels (_stopClip e stopDynamicCine viewportId).
Proof. apply stopClip_with_cancels, stopDynamicVolumeCine_cancels. Qed.

(** What the run of [playClip] up to the scheduling leaves alone. *)
Record settles (w w' : World) : Prop := {
  settles_enabledElements : enabledElements w' = enabledElements w;
  settles_viewports : viewports w' = viewports w;
  settles_cachedVolumes : cachedVolumes w' = cachedVolumes w;
  settles_volumes : volumes w' = volumes w;
  settles_nextTimer : nextTimer w' = nextTimer w;
  settles_timers : timers w' ⊆ timers w;
  settles_trace : exists l, trace w' = trace w ++ l /\ Forall is_pause l
}.

#[global] Instance settles_preorder : PreOrder settles.
Proof.
  split.
  - intros w. split; auto. exists []. split; [by rewrite app_nil_r | constructor].
  - intros w1 w2 w3 [] []. split; try congruence; try (etransitivity; eassumption).
    destruct settles_trace0 as (l1 & Ht1 & Hl1).
    destruct settles_trace1 as (l2 & Ht2 & Hl2).
    exists (l1 ++ l2). split; [|by apply Forall_app].
    by rewrite Ht2, Ht1, app_assoc.
Qed.

Lemma stops_settles (w w' : World) : stops w w' -> settles w w'.
Proof. intros []. by split. Qed.

(** What taking the options in leaves alone: all but the play-clip data,
    of which the timer ids stay, the contexts and the playing map. *)
Record tunes (w w' : World) : Prop := {
  tunes_enabledElements : enabledElements w' = enabledElements w;
  tunes_viewports : viewports w' = viewports w;
  tunes_cachedVolumes : cachedVolumes w' = cachedVolumes w;
  tunes_volumes : volumes w' = volumes w;
  tunes_state : state w' = state w;
  tunes_nextTimer : nextTimer w' = nextTimer w;
  tunes_timers : timers w' = timers w;
  tunes_trace : trace w' = trace w;
  tunes_intervalId : forall r,
    intervalId (playClipData w' r) = intervalId (playClipData w r)
}.

#[global] Instance tunes_preorder : PreOrder tunes.
Proof.
  split.
  - by intros w.
  - intros w1 w2 w3 [] []. split; congruence.
Qed.

Lemma tunes_settles (w w' : World) : tunes w w' -> settles w w'.
Proof.
  intros []. split; try done.
  - by rewrite tunes_timers0.
  - exists []. split; [by rewrite app_nil_r | constructor].
Qed.

Lemma allocates_tunes (w w' : World) : allocates w w' -> tunes w w'.
Proof. intros []. split; congruence. Qed.

Lemma update_data_tunes (r : Ref) (f : PlayClipData -> PlayClipData) :
  (forall d, intervalId (f d) = intervalId d) ->
  preserves tunes (update_data r f).
Proof.
  intros Hf w. split; try done. intros r'. simpl.
  destruct (decide (r = r')) as [->|Hne].
  - by rewrite fn_lookup_insert.
  - by rewrite fn_lookup_insert_ne.
Qed.

End CineCancels.

Section CinePlay.
Import Cine.

(** The end of [playClip]: the clip is started, by the context's [play]
    or with a timer, and CLIP_STARTED is fired. *)
Definition schedule (element : Element) (viewport : ViewportId)
    (o : PlayClipOptions) (ctx : CinePlayContext) (data : Ref)
    (playClipTimeouts : option (list Z * bool)) : M unit :=
  let playClipAction :=
    {| cl_element := element; cl_viewportId := viewport;
       cl_context := ctx; cl_data := data;
       cl_isDynamicCinePlaying := default true (opt_dynamicCineEnabled o);
       cl_timeouts := match playClipTimeouts with
                      | Some (timeouts, _) => timeouts
                      | None => []
                      end |} in
  bind
    match play ctx with
    | Some play =>
        bind (play (opt_framesPerSecond o))
          (fun rate => update_data data (with_framesPerSecond rate))
    | None =>
        if uses_timeouts playClipTimeouts then
          bind (update_data data (with_usingFrameTimeVector true))
            (fun _ =>
               bind (setTimeout (JS.Num 0) playClipAction)
                 (fun id => update_data data (with_intervalId (Some id))))
        else
          bind (update_data data (with_usingFrameTimeVector false))
            (fun _ =>
               bind (gets (fun w => playClipData w data))
                 (fun d =>
                    bind (setInterval
                            (JS.Num (1000 / abs (framesPerSecond d))) playClipAction)
                      (fun id => update_data data (with_intervalId (Some id)))))
    end
    (fun _ => triggerEvent element CLIP_STARTED).

Lemma getVolumeFromViewport_same (v : ViewportId) (w w' : World) :
  viewports w' = viewports w -> cachedVolumes w' = cachedVolumes w ->
  volumes w' = volumes w ->
  (_getVolumeFromViewport v w').1 = (_getVolumeFromViewport v w).1.
Proof.
  intros Hv Hc Hvol.
  unfold _getVolumeFromViewport, bind, getViewport, getVolume, gets, ret.
  cbn -[List.find]. rewrite Hv.
  destruct (vp_type (viewports w v)); try done.
  destruct (vp_allVolumeIds (viewports w v)) as [[|first rest]|]; try done.
  cbn -[List.find]. by rewrite Hc, Hvol.
Qed.

(** The tool data of the element's viewport, found and stopped or
    created, have no timer; timers are only cancelled. *)
Lemma toolData_cancels (element : Element) (viewport : ViewportId)
    (o : PlayClipOptions) (stopDynamicCine : bool) (w : World) :
  enabledElements w !! element = Some viewport ->
  let w' :=
    (match state w !! viewport with
     | Some data =>
         bind (_stopClip element stopDynamicCine (Some viewport))
           (fun _ => ret data)
     | None =>
         bind (allocData (newPlayClipData o))
           (fun data => bind (addToolState element data) (fun _ => ret data))
     end w).2 in
  settles w w'
  /\ (is_Some (state w !! viewport) -> cancels w w')
  /\ forall r, state w' !! viewport = Some r ->
       intervalId (playClipData w' r) = None.
Proof.
  intros He. destruct (state w !! viewport) as [r0|] eqn:Hstate.
  - pose proof (stopClip_ok element stopDynamicCine (Some viewport) w) as Hok.
    pose proof (stopClip_stops element stopDynamicCine (Some viewport) w) as Hst.
    pose proof (stopClip_cancels element stopDynamicCine (Some viewport) w) as Hc.
    destruct (stopClip_clears element viewport r0 stopDynamicCine (Some viewport)
                w He Hstate) as [Hnone _].
    unfold bind, ret.
    destruct (_stopClip element stopDynamicCine (Some viewport) w)
      as [[[]|msg] w']; [|done].
    simpl in *. split; [by apply stops_settles|]. split; [done|].
    intros r. rewrite (stops_state _ _ Hst), Hstate. by intros [= <-].
  - repeat (unfold bind, allocData, addToolState, getEnabledElement, gets,
      modify, ret; simpl).
    rewrite He. simpl. split; [|split].
    + split; simpl; try done. exists []. split; [by rewrite app_nil_r | constructor].
    + by intros [? [=]].
    + rewrite lookup_insert_eq. intros r [= <-]. by rewrite fn_lookup_insert.
Qed.

Lemma framesPerSecond_tunes (r : Ref) (o : PlayClipOptions) :
  preserves tunes
    match opt_framesPerSecond o with
    | Some fps =>
        when (valid_framesPerSecond (Some fps))
          (bind (update_data r (with_framesPerSecond fps))
             (fun _ =>
                bind (update_data r (with_reverse (fps <? 0)%float))
                  (fun _ => update_data r (with_ignoreFrameTimeVector true))))
    | None => ret tt
    end.
Proof.
  destruct (opt_framesPerSecond o) as [fps|]; [|apply preserves_ret; typeclasses eauto].
  apply preserves_when; [typeclasses eauto|].
  repeat (apply preserves_bind; [typeclasses eauto | by apply update_data_tunes |];
          intros _).
  by apply update_data_tunes.
Qed.

Lemma bounce_tunes (r : Ref) (o : PlayClipOptions) :
  preserves tunes
    match opt_bounce o with
    | Some b => update_data r (with_bounce b)
    | None => ret tt
    end.
Proof.
  destruct (opt_bounce o); [by apply update_data_tunes|].
  apply preserves_ret; typeclasses eauto.
Qed.

Lemma playing_map_tunes (dyn : bool) (element : Element) (viewport : ViewportId) :
  preserves tunes
    (when dyn
       (bind (_getVolumeFromViewport viewport)
          (fun volume =>
             match volume with
             | Some volumeId =>
                 modify (set_dynamicVolumesPlayingMap <[volumeId := element]>)
             | None => ret tt
             end))).
Proof.
  apply preserves_when; [typeclasses eauto|].
  apply preserves_bind;
    [typeclasses eauto
    | apply readonly_preserves, readonly_getVolumeFromViewport; typeclasses eauto |].
  intros [volumeId|]; [|apply preserves_ret; typeclasses eauto].
  by apply preserves_modify.
Qed.

Lemma playing_map_sets (element : Element) (viewport : ViewportId)
    (volumeId : VolumeId) (w : World) :
  (_getVolumeFromViewport viewport w).1 = Ok (Some volumeId) ->
  dynamicVolumesPlayingMap
    (when true
       (bind (_getVolumeFromViewport viewport)
          (fun volume =>
             match volume with
             | Some volumeId =>
                 modify (set_dynamicVolumesPlayingMap <[volumeId := element]>)
             | None => ret tt
             end)) w).2 !! volumeId
  = Some element.
Proof.
  intros Hvolume. destruct (getVolumeFromViewport_ok viewport w) as [volume Hrun].
  rewrite Hrun in Hvolume. simpl in Hvolume. injection Hvolume as ->.
  cbn [when]. rewrite (bind_run _ _ _ _ _ Hrun). simpl. apply lookup_insert_eq.
Qed.

Lemma numScrollSteps_tunes ctx : preserves tunes (numScrollSteps ctx).
Proof.
  intros w. unfold numScrollSteps, getScrollInfo, bind, getViewport, gets,
    modify, ret.
  destruct ctx; simpl; try done.
  by destruct (cachedScrollInfo _); [destruct (vec3_equals _ _)|].
Qed.

Lemma frameTimeVectorTimeouts_tunes (r : Ref) (ctx : CinePlayContext)
    (w : World) :
  exists result w',
    frameTimeVectorTimeouts r ctx w = (Ok result, w') /\ tunes w w'.
Proof.
  unfold frameTimeVectorTimeouts. unfold bind at 1. unfold gets at 1.
  destruct (ignoreFrameTimeVector _); [by eexists _, _|].
  destruct (frameTimeVector _) as [vector|]; [|by eexists _, _].
  destruct (numScrollSteps_ok ctx w) as (n & w' & Hn).
  pose proof (numScrollSteps_tunes ctx w) as Htunes. rewrite Hn in Htunes.
  rewrite (bind_run _ _ _ _ _ Hn).
  destruct (_ =? _); [|by eexists _, _].
  rewrite (bind_run _ _ _ _ _ (frameTimeVectorEnabled_run ctx w')).
  destruct (context_frameTimeVectorEnabled ctx w'); by eexists _, _.
Qed.

(** [playClip] up to the scheduling.  It comes to [schedule] in a world
    where the viewport has tool data without a timer; until then timers
    are only cancelled, the one of the clip the element was playing among
    them; and the element is entered in [dynamicVolumesPlayingMap] under
    the volume of its viewport when dynamic cine is enabled. *)
Lemma playClip_prepares (element : Element) (viewport : ViewportId)
    (playClipOptions : option PlayClipOptions) (w w1 : World)
    (ctx : CinePlayContext) :
  let o := default noOptions playClipOptions in
  let dyn := default true (opt_dynamicCineEnabled o) in
  enabledElements w !! element = Some viewport ->
  _createCinePlayContext viewport (opt_waitForRendered o) dyn w = (Ok ctx, w1) ->
  exists (w7 : World) (r : Ref) (playClipTimeouts : option (list Z * bool)),
    playClip (Some element) playClipOptions w
    = schedule element viewport o ctx r playClipTimeouts w7
    /\ state w7 !! viewport = Some r
    /\ intervalId (playClipData w7 r) = None
    /\ settles w w7
    /\ (forall r0, state w !! viewport = Some r0 -> r = r0)
    /\ (forall r0 id0,
          state w !! viewport = Some r0 ->
          intervalId (playClipData w r0) = Some id0 ->
          timers w7 !! id0 = None)
    /\ (dyn = true ->
        forall volumeId,
          (_getVolumeFromViewport viewport w).1 = Ok (Some volumeId) ->
          dynamicVolumesPlayingMap w7 !! volumeId = Some element)
    /\ timers w7 ⊆ timers (when dyn (_stopDynamicVolumeCine element) w1).2.
Proof.
  intros o dyn He Hctx.
  destruct (createCinePlayContext_allocates _ _ _ _ _ _ Hctx) as [Halloc _].
  unfold playClip.
  rewrite (bind_run _ _ w w (Some viewport))
    by (by unfold getEnabledElement, gets; rewrite He).
  fold o. fold dyn. rewrite (bind_run _ _ _ _ _ Hctx).
  assert (HtoolState : getToolState element w1 = (Ok (state w !! viewport), w1)).
  { unfold getToolState, bind, getEnabledElement, getToolStateByViewportId, gets.
    simpl. rewrite (alloc_enabledElements _ _ Halloc), He. simpl.
    by rewrite (alloc_state _ _ Halloc). }
  rewrite (bind_run _ _ _ _ _ HtoolState).
  (* a 4D clip playing elsewhere is stopped *)
  assert (Hstop : exists w2,
            when dyn (_stopDynamicVolumeCine element) w1 = (Ok tt, w2)
            /\ stops w1 w2 /\ cancels w1 w2).
  { destruct dyn; simpl.
    - exists (_stopDynamicVolumeCine element w1).2. split; [|split].
      + apply run_of_ok, stopDynamicVolumeCine_ok.
        rewrite (alloc_enabledElements _ _ Halloc), He. eauto.
      + apply stopDynamicVolumeCine_stops.
      + apply stopDynamicVolumeCine_cancels.
    - exists w1. split; [done|]. split; reflexivity. }
  destruct Hstop as (w2 & Hstop & Hst12 & Hc12).
  rewrite (bind_run _ _ _ _ _ Hstop).
  (* the tool data *)
  assert (He2 : enabledElements w2 !! element = Some viewport).
  { by rewrite (stops_enabledElements _ _ Hst12), (alloc_enabledElements _ _ Halloc). }
  assert (Hstate2 : state w2 = state w).
  { by rewrite (stops_state _ _ Hst12), (alloc_state _ _ Halloc). }
  destruct (toolData_run element viewport o (negb dyn) w2 He2)
    as (r & w3 & i3 & Hdata & Hstate3 & _).
  destruct (toolData_cancels element viewport o (negb dyn) w2 He2)
    as (Hsettles3 & Hcancels3 & Hnone3).
  rewrite Hdata in Hsettles3, Hcancels3, Hnone3. cbn [snd] in *.
  rewrite Hstate2 in Hdata, Hcancels3.
  rewrite (bind_run _ _ _ _ _ Hdata).
  specialize (Hnone3 r Hstate3).
  (* the options are taken in *)
  rewrite (bind_run _ _ _ _ _ (update_data_run _ _ _)).
  match goal with |- context [bind _ _ ?x] => set (w3a := x) end.
  assert (Htunes3 : tunes w3 w3a).
  { apply (update_data_tunes r (with_dynamicCineEnabled (Some dyn))). done. }
  destruct (framesPerSecond_run r o w3a) as (w4 & Hrun4 & _).
  pose proof (framesPerSecond_tunes r o w3a) as Htunes4. rewrite Hrun4 in Htunes4.
  rewrite (bind_run _ _ _ _ _ Hrun4).
  destruct (frameTimeVectorTimeouts_tunes r ctx w4)
    as (playClipTimeouts & w5 & Hrun5 & Htunes5).
  rewrite (bind_run _ _ _ _ _ Hrun5).
  destruct (bounce_run r o w5) as (w6 & Hrun6 & _).
  pose proof (bounce_tunes r o w5) as Htunes6. rewrite Hrun6 in Htunes6.
  rewrite (bind_run _ _ _ _ _ Hrun6).
  destruct (playing_map_run dyn element viewport w6) as (w7 & Hrun7 & _).
  pose proof (playing_map_tunes dyn element viewport w6) as Htunes7.
  rewrite Hrun7 in Htunes7.
  rewrite (bind_run _ _ _ _ _ Hrun7).
  cbn [snd] in *.
  assert (Htunes : tunes w3 w7).
  { repeat (etransitivity; [eassumption|]). reflexivity. }
  assert (Hsettles : settles w w7).
  { etransitivity; [|apply tunes_settles, Htunes].
    etransitivity; [|exact Hsettles3].
    etransitivity; [|apply stops_settles, Hst12].
    apply tunes_settles, allocates_tunes, Halloc. }
  exists w7, r, playClipTimeouts. split; [reflexivity|].
  split; [by rewrite (tunes_state _ _ Htunes)|].
  split; [by rewrite (tunes_intervalId _ _ Htunes)|].
  split; [exact Hsettles|].
  assert (Hsame : forall r0, state w !! viewport = Some r0 -> r = r0).
  { intros r0 Hr0. rewrite Hr0 in Hdata. unfold bind, ret in Hdata.
    destruct (_stopClip element (negb dyn) (Some viewport) w2)
      as [[[]|msg] w'']; [|done].
    by injection Hdata as <- _. }
  split; [exact Hsame|]. split; [|split].
  3: { rewrite Hstop. cbn [snd]. rewrite (tunes_timers _ _ Htunes).
       apply (settles_timers _ _ Hsettles3). }
  - intros r0 id0 Hr0 Hid0.
    assert (Hc : cancels w w3).
    { etransitivity; [|apply Hcancels3; eauto].
      etransitivity; [|exact Hc12].
      apply cancels_others;
        [apply (alloc_timers _ _ Halloc) | apply (alloc_playClipData _ _ Halloc)]. }
    rewrite (tunes_timers _ _ Htunes).
    pose proof (Hsame r0 Hr0) as Hr3.
    subst r0. destruct Hc as [_ Hc].
    destruct (Hc r id0 Hid0) as [Hsome | Hgone]; [congruence | done].
  - intros Hdyn volumeId Hvolume.
    clear Htunes7. clearbody dyn. subst dyn.
    pose proof (playing_map_sets element viewport volumeId w6) as Hset.
    rewrite Hrun7 in Hset. apply Hset.
    rewrite <- Hvolume. apply getVolumeFromViewport_same.
    + transitivity (viewports w3).
      { rewrite (tunes_viewports _ _ Htunes6), (tunes_viewports _ _ Htunes5),
          (tunes_viewports _ _ Htunes4). apply (tunes_viewports _ _ Htunes3). }
      rewrite (settles_viewports _ _ Hsettles3), (stops_viewports _ _ Hst12).
      apply (alloc_viewports _ _ Halloc).
    + transitivity (cachedVolumes w3).
      { rewrite (tunes_cachedVolumes _ _ Htunes6), (tunes_cachedVolumes _ _ Htunes5),
          (tunes_cachedVolumes _ _ Htunes4). apply (tunes_cachedVolumes _ _ Htunes3). }
      rewrite (settles_cachedVolumes _ _ Hsettles3), (stops_cachedVolumes _ _ Hst12).
      apply (alloc_cachedVolumes _ _ Halloc).
    + transitivity (volumes w3).
      { rewrite (tunes_volumes _ _ Htunes6), (tunes_volumes _ _ Htunes5),
          (tunes_volumes _ _ Htunes4). apply (tunes_volumes _ _ Htunes3). }
      rewrite (settles_volumes _ _ Hsettles3), (stops_volumes _ _ Hst12).
      apply (alloc_volumes _ _ Halloc).
Qed.

(** With a context that has no [play], the scheduling sets one timer and
    records its id. *)
Lemma schedule_timer (element : Element) (viewport : ViewportId)
    (o : PlayClipOptions) (ctx : CinePlayContext) (r : Ref)
    (playClipTimeouts : option (list Z * bool)) (w : World) :
  play ctx = None ->
  exists (timer : Timer) (w' : World),
    schedule element viewport o ctx r playClipTimeouts w = (Ok tt, w')
    /\ timers w' = <[nextTimer w := timer]> (timers w)
    /\ nextTimer w' = S (nextTimer w)
    /\ intervalId (playClipData w' r) = Some (nextTimer w)
    /\ state w' = state w
    /\ enabledElements w' = enabledElements w
    /\ dynamicVolumesPlayingMap w' = dynamicVolumesPlayingMap w
    /\ trace w' = trace w ++ [Triggered element CLIP_STARTED].
Proof.
  intros Hplay. unfold schedule. rewrite Hplay.
  destruct (uses_timeouts playClipTimeouts).
  - eexists _, _. split; [reflexivity|]. simpl.
    rewrite !fn_lookup_insert. by repeat split.
  - eexists _, _. split; [reflexivity|]. simpl.
    rewrite !fn_lookup_insert. by repeat split.
Qed.

(** [playClip] on a video viewport plays the video and sets no timer: the
    playback rate is set to a 24th of a frame rate that is given and is
    neither 0 nor NaN, the video is played, and the tool data take the
    frame rate of the viewport and no timer id. *)
Theorem playClip_video (element : Element) (viewport : ViewportId)
    (playClipOptions : option PlayClipOptions) (w : World) :
  enabledElements w !! element = Some viewport ->
  vp_type (viewports w viewport) = VideoViewport ->
  let o := default noOptions playClipOptions in
  exists (w' : World) (r : Ref) (pauses : list Effect),
    playClip (Some element) playClipOptions w = (Ok tt, w')
    /\ state w' !! viewport = Some r
    /\ intervalId (playClipData w' r) = None
    /\ framesPerSecond (playClipData w' r) = vp_frameRate (viewports w viewport)
    /\ timers w' ⊆ timers w
    /\ nextTimer w' = nextTimer w
    /\ Forall is_pause pauses
    /\ trace w'
       = trace w ++ pauses
         ++ match opt_framesPerSecond o with
            | Some fps =>
                if truthy_number (Some fps)
                then [SetPlaybackRate viewport (fps / 24)%float] else []
            | None => []
            end
         ++ [Played viewport; Triggered element CLIP_STARTED].
Proof.
  intros He Hvideo o.
  assert (Hctx : exists self w1,
            _createCinePlayContext viewport (opt_waitForRendered o)
              (default true (opt_dynamicCineEnabled o)) w
            = (Ok (VideoContext viewport (default 30 (opt_waitForRendered o)) self),
               w1)).
  { unfold _createCinePlayContext, bind, getViewport, gets, allocContext, ret.
    rewrite Hvideo. by eexists _, _. }
  destruct Hctx as (self & w1 & Hctx).
  destruct (playClip_prepares element viewport playClipOptions w w1 _ He Hctx)
    as (w7 & r & playClipTimeouts & Hrun & Hstate & Hnone & Hsettles & _).
  fold o in Hrun. rewrite Hrun.
  destruct Hsettles as [_ Hviewports _ _ Hnext Htimers (pauses & Htrace & Hpauses)].
  unfold schedule. cbn [play]. unfold video_play.
  destruct (opt_framesPerSecond o) as [f|];
    [destruct (truthy_number (Some f))|];
    (eexists _, r, pauses; split; [reflexivity|]);
    simpl; rewrite fn_lookup_insert, Hviewports, Htrace; simpl;
    rewrite <- ?app_assoc; by repeat split.
Qed.

(** Playing a clip on an element that is playing one already (with a
    context that has no [play]) cancels the timer of the old clip: the
    tool data of the viewport are kept, their timer id becomes that of the
    one timer added, and no other timer is added. *)
Theorem playClip_replaces_timer (element : Element) (viewport : ViewportId)
    (playClipOptions : option PlayClipOptions) (w w1 : World)
    (ctx : CinePlayContext) (r0 : Ref) (id0 : TimerId) :
  let o := default noOptions playClipOptions in
  enabledElements w !! element = Some viewport ->
  _createCinePlayContext viewport (opt_waitForRendered o)
    (default true (opt_dynamicCineEnabled o)) w = (Ok ctx, w1) ->
  play ctx = None ->
  state w !! viewport = Some r0 ->
  intervalId (playClipData w r0) = Some id0 ->
  id0 <> nextTimer w ->
  exists (w' : World) (timer : Timer),
    playClip (Some element) playClipOptions w = (Ok tt, w')
    /\ state w' !! viewport = Some r0
    /\ intervalId (playClipData w' r0) = Some (nextTimer w)
    /\ timers w' !! nextTimer w = Some timer
    /\ timers w' !! id0 = None
    /\ timers w' ⊆ <[nextTimer w := timer]> (timers w).
Proof.
  intros o He Hctx Hplay Hr0 Hid0 Hfresh.
  destruct (playClip_prepares element viewport playClipOptions w w1 ctx He Hctx)
    as (w7 & r & playClipTimeouts & Hrun & Hstate & Hnone & Hsettles & Hsame
        & Hcancelled & _).
  fold o in Hrun.
  destruct (schedule_timer element viewport o ctx r playClipTimeouts w7 Hplay)
    as (timer & w' & Hschedule & Htimers & _ & Hid & Hstate' & _).
  destruct Hsettles as [_ _ _ _ Hnext Hsub (pauses & Htrace & Hpauses)].
  rewrite Hnext in *.
  assert (Hr : r = r0) by (by apply Hsame).
  subst r. exists w', timer. rewrite Hrun, Hschedule.
  split; [done|]. split; [by rewrite Hstate'|]. split; [done|].
  rewrite Htimers. split; [apply lookup_insert_eq|].
  split.
  - rewrite lookup_insert_ne by done. by apply (Hcancelled r0 id0).
  - by apply insert_mono.
Qed.

(** Playing a clip and then stopping it leaves no timer behind: the
    timers after [stopClip] are among those from before [playClip], and
    the tool data of the viewport have no timer id. *)
Theorem playClip_then_stopClip (element : Element) (viewport : ViewportId)
    (playClipOptions : option PlayClipOptions) (stopDynamicCine : option bool)
    (viewportId : option ViewportId) (w w1 : World) (ctx : CinePlayContext) :
  let o := default noOptions playClipOptions in
  enabledElements w !! element = Some viewport ->
  _createCinePlayContext viewport (opt_waitForRendered o)
    (default true (opt_dynamicCineEnabled o)) w = (Ok ctx, w1) ->
  play ctx = None ->
  let w' := (playClip (Some element) playClipOptions w).2 in
  let w'' := (stopClip element stopDynamicCine viewportId w').2 in
  (playClip (Some element) playClipOptions w).1 = Ok tt
  /\ (stopClip element stopDynamicCine viewportId w').1 = Ok tt
  /\ timers w'' ⊆ timers w
  /\ exists r, state w'' !! viewport = Some r
       /\ intervalId (playClipData w'' r) = None.
Proof.
  intros o He Hctx Hplay.
  destruct (playClip_prepares element viewport playClipOptions w w1 ctx He Hctx)
    as (w7 & r & playClipTimeouts & Hrun & Hstate & Hnone & Hsettles & _).
  fold o in Hrun.
  destruct (schedule_timer element viewport o ctx r playClipTimeouts w7 Hplay)
    as (timer & w' & Hschedule & Htimers & _ & Hid & Hstate' & Henabled' & _).
  cbv zeta. rewrite Hrun, Hschedule. cbn [fst snd].
  assert (He' : enabledElements w' !! element = Some viewport).
  { by rewrite Henabled', (settles_enabledElements _ _ Hsettles). }
  assert (Hr' : state w' !! viewport = Some r) by (by rewrite Hstate').
  unfold stopClip.
  destruct (stopClip_clears element viewport r (default true stopDynamicCine)
              viewportId w' He' Hr') as [Hcleared Hgone].
  pose proof (stopClip_stops element (default true stopDynamicCine) viewportId w')
    as Hst.
  split; [done|]. split; [apply stopClip_ok|]. split.
  - apply map_subseteq_spec. intros k t Hk.
    destruct (decide (k = nextTimer w7)) as [->|Hne].
    + rewrite (Hgone _ Hid) in Hk. done.
    + pose proof (lookup_weaken _ _ _ _ Hk (stops_timers _ _ Hst)) as Hk'.
      rewrite Htimers, lookup_insert_ne in Hk' by done.
      exact (lookup_weaken _ _ _ _ Hk' (settles_timers _ _ Hsettles)).
  - exists r. split; [by rewrite (stops_state _ _ Hst)|done].
Qed.

(** With dynamic cine enabled, as it is unless the options say otherwise,
    [playClip] on a volume viewport enters the element in
    [dynamicVolumesPlayingMap] under the volume of the viewport, be the
    volume dynamic or not. *)
Theorem playClip_registers_volume (element : Element) (viewport : ViewportId)
    (playClipOptions : option PlayClipOptions) (volumeId : VolumeId)
    (w : World) :
  let o := default noOptions playClipOptions in
  enabledElements w !! element = Some viewport ->
  vp_type (viewports w viewport) = VolumeViewport ->
  _getVolumeFromViewport viewport w = (Ok (Some volumeId), w) ->
  default true (opt_dynamicCineEnabled o) = true ->
  exists (w' : World),
    playClip (Some element) playClipOptions w = (Ok tt, w')
    /\ dynamicVolumesPlayingMap w' !! volumeId = Some element.
Proof.
  intros o He Htype Hvolume Hdyn.
  assert (Hctx : exists ctx w1,
            _createCinePlayContext viewport (opt_waitForRendered o)
              (default true (opt_dynamicCineEnabled o)) w = (Ok ctx, w1)
            /\ play ctx = None).
  { unfold _createCinePlayContext. unfold bind at 1. unfold getViewport, gets at 1.
    rewrite Htype. rewrite (bind_run _ _ _ _ _ Hvolume).
    destruct (isDynamicVolume_ok (Some volumeId) w) as [dynamic Hdynamic].
    rewrite (bind_run _ _ _ _ _ Hdynamic).
    destruct (_ && dynamic); by eexists _, _. }
  destruct Hctx as (ctx & w1 & Hctx & Hplay).
  destruct (playClip_prepares element viewport playClipOptions w w1 ctx He Hctx)
    as (w7 & r & playClipTimeouts & Hrun & _ & _ & _ & _ & _ & Hmap & _).
  fold o in Hrun, Hmap.
  destruct (schedule_timer element viewport o ctx r playClipTimeouts w7 Hplay)
    as (timer & w' & Hschedule & _ & _ & _ & _ & _ & Hmap' & _).
  exists w'. rewrite Hrun, Hschedule. split; [done|].
  rewrite Hmap'. apply (Hmap Hdyn). by rewrite Hvolume.
Qed.

(** A video viewport at 25 frames per second, enabled on element 3. *)
Definition example_video_world : World :=
  {| enabledElements := {[ 3%nat := "video"%string ]};
     viewports := fun _ =>
       {| vp_type := VideoViewport; vp_imageIdsLength := 0;
          vp_targetImageIdIndex := 0; vp_numberOfSlices := 100;
          vp_sliceIndex := 0; vp_rendered := true; vp_allVolumeIds := None;
          vp_viewPlaneNormal := (0, 0, 1)%float;
          vp_scrollInfo := {| si_numScrollSteps := 0; si_currentStepIndex := 0 |};
          vp_frameRate := 25; vp_scrollThrows := false |};
     cachedVolumes := ∅;
     volumes := fun _ => example_volume;
     state := ∅;
     playClipData := fun _ => newPlayClipData noOptions;
     contexts := fun _ => newContextState;
     nextRef := 0%nat;
     dynamicVolumesPlayingMap := ∅;
     timers := ∅;
     nextTimer := 1%nat;
     trace := [] |}.

Lemma playClip_video_witness :
  (enabledElements example_video_world !! 3%nat = Some "video"%string
   /\ vp_type (viewports example_video_world "video") = VideoViewport)
  /\ exists (w' : World) (r : Ref),
       playClip (Some 3%nat) None example_video_world = (Ok tt, w')
       /\ timers w' ⊆ ∅
       /\ framesPerSecond (playClipData w' r) = 25%float.
Proof.
  split; [by split|].
  destruct (playClip_video 3%nat "video" None example_video_world)
    as (w' & r & pauses & Hrun & _ & _ & Hrate & Htimers & _);
    [reflexivity | reflexivity |].
  by exists w', r.
Defined.

Lemma playClip_replaces_timer_witness :
  let w := example_playing_world false in
  (enabledElements w !! 1%nat = Some "stack"%string
   /\ state w !! "stack"%string = Some 0%nat
   /\ intervalId (playClipData w 0%nat) = Some 5%nat
   /\ 5%nat <> nextTimer w)
  /\ exists (w' : World),
       playClip (Some 1%nat) None w = (Ok tt, w')
       /\ intervalId (playClipData w' 0%nat) = Some 6%nat
       /\ timers w' !! 5%nat = None.
Proof.
  intros w. split; [repeat split; try reflexivity; simpl; lia|].
  edestruct (playClip_replaces_timer 1%nat "stack" None w)
    as (w' & timer & Hrun & _ & Hid & _ & Hgone & _);
    [reflexivity | reflexivity | reflexivity | reflexivity | reflexivity
    | simpl; lia |].
  exists w'. by repeat split.
Defined.

Lemma playClip_then_stopClip_witness :
  enabledElements example_world !! 1%nat = Some "stack"%string
  /\ timers (stopClip 1%nat None None
               (playClip (Some 1%nat) None example_world).2).2
     ⊆ timers example_world.
Proof.
  split; [reflexivity|].
  edestruct (playClip_then_stopClip 1%nat "stack" None None None example_world)
    as (_ & _ & Htimers & _); [reflexivity | reflexivity | reflexivity |].
  exact Htimers.
Defined.

Lemma playClip_registers_volume_witness :
  let w := example_dynamic_world in
  (enabledElements w !! 1%nat = Some "axial"%string
   /\ vp_type (viewports w "axial") = VolumeViewport
   /\ _getVolumeFromViewport "axial" w = (Ok (Some "pet4d"%string), w)
   /\ default true (opt_dynamicCineEnabled noOptions) = true)
  /\ exists (w' : World),
       playClip (Some 1%nat) None w = (Ok tt, w')
       /\ dynamicVolumesPlayingMap w' !! "pet4d"%string = Some 1%nat.
Proof.
  intros w.
  assert (Hvolume : _getVolumeFromViewport "axial" w
                    = (Ok (Some "pet4d"%string), w))
    by (vm_compute; reflexivity).
  split; [by repeat split|].
  apply (playClip_registers_volume 1%nat "axial" None "pet4d" w);
    [reflexivity | reflexivity | exact Hvolume | reflexivity].
Defined.

Lemma bind_throw {A B} (m : M A) (k : A -> M B) (w w' : World) (e : string) :
  m w = (Throw e, w') -> bind m k w = (Throw e, w').
Proof. intros Hm. unfold bind. by rewrite Hm. Qed.

(** [playClip] on a viewport that is neither a stack, nor a volume, nor
    a video viewport (a 3D volume viewport is none of them) throws
    'Unknown viewport type'; on a volume viewport without a volume it
    throws a TypeError.  Both come before anything is written: no tool
    data are added, no timer is set and no clip is stopped. *)
Theorem playClip_unsupported_viewport (element : Element)
    (viewport : ViewportId) (playClipOptions : option PlayClipOptions)
    (w : World) :
  enabledElements w !! element = Some viewport ->
  let type := vp_type (viewports w viewport) in
  (type = VolumeViewport3D \/ type = OtherViewport ->
     playClip (Some element) playClipOptions w
     = (Throw "Unknown viewport type", w))
  /\ (type = VolumeViewport ->
      (_getVolumeFromViewport viewport w).1 = Ok None ->
      playClip (Some element) playClipOptions w = (Throw "TypeError", w)).
Proof.
  intros He type. subst type.
  assert (Hunknown : forall wait dyn,
            vp_type (viewports w viewport) = VolumeViewport3D
            \/ vp_type (viewports w viewport) = OtherViewport ->
            _createCinePlayContext viewport wait dyn w
            = (Throw "Unknown viewport type", w)).
  { intros wait dyn Htype.
    unfold _createCinePlayContext, bind, getViewport, gets.
    by destruct Htype as [-> | ->]. }
  assert (Hmissing : forall wait dyn,
            vp_type (viewports w viewport) = VolumeViewport ->
            (_getVolumeFromViewport viewport w).1 = Ok None ->
            _createCinePlayContext viewport wait dyn w = (Throw "TypeError", w)).
  { intros wait dyn Htype Hvolume.
    destruct (getVolumeFromViewport_ok viewport w) as [volume Hrun].
    rewrite Hrun in Hvolume. injection Hvolume as ->.
    unfold _createCinePlayContext. unfold bind at 1. unfold getViewport, gets at 1.
    rewrite Htype. by rewrite (bind_run _ _ _ _ _ Hrun). }
  unfold playClip.
  rewrite (bind_run _ _ w w (Some viewport))
    by (by unfold getEnabledElement, gets; rewrite He).
  split.
  - intros Htype. apply bind_throw. by apply Hunknown.
  - intros Htype Hvolume. apply bind_throw. by apply Hmissing.
Qed.

Lemma playClip_unsupported_viewport_witness :
  let w := set_state id example_world in
  let w3d :=
    {| enabledElements := enabledElements w;
       viewports := fun _ =>
         {| vp_type := VolumeViewport3D; vp_imageIdsLength := 0;
            vp_targetImageIdIndex := 0; vp_numberOfSlices := 0;
            vp_sliceIndex := 0; vp_rendered := true;
            vp_allVolumeIds := Some ["ct"%string];
            vp_viewPlaneNormal := (0, 0, 1)%float;
            vp_scrollInfo := {| si_numScrollSteps := 0; si_currentStepIndex := 0 |};
            vp_frameRate := 0; vp_scrollThrows := false |};
       cachedVolumes := cachedVolumes w; volumes := volumes w;
       state := state w; playClipData := playClipData w;
       contexts := contexts w; nextRef := nextRef w;
       dynamicVolumesPlayingMap := dynamicVolumesPlayingMap w;
       timers := timers w; nextTimer := nextTimer w; trace := trace w |} in
  enabledElements w3d !! 1%nat = Some "stack"%string
  /\ playClip (Some 1%nat) None w3d = (Throw "Unknown viewport type", w3d).
Proof.
  intros w w3d. split; [reflexivity|].
  apply (playClip_unsupported_viewport 1%nat "stack" None w3d);
    [reflexivity | by left].
Defined.

(** Playing a dynamic volume on one viewport takes it over from the
    viewport that was playing it: [playClip], with dynamic cine enabled,
    on the element of a volume viewport whose dynamic volume another
    element is playing, cancels the timer of that element's clip and
    enters its own element under the volume. *)
Theorem playClip_takes_over_volume (element other : Element)
    (viewport viewport' : ViewportId)
    (playClipOptions : option PlayClipOptions) (volumeId : VolumeId)
    (r' : Ref) (id' : TimerId) (w : World) :
  let o := default noOptions playClipOptions in
  enabledElements w !! element = Some viewport ->
  vp_type (viewports w viewport) = VolumeViewport ->
  _getVolumeFromViewport viewport w = (Ok (Some volumeId), w) ->
  vol_isDynamicVolume (volumes w volumeId) = true ->
  default true (opt_dynamicCineEnabled o) = true ->
  dynamicVolumesPlayingMap w !! volumeId = Some other ->
  other <> element ->
  enabledElements w !! other = Some viewport' ->
  state w !! viewport' = Some r' ->
  intervalId (playClipData w r') = Some id' ->
  id' <> nextTimer w ->
  exists (w' : World),
    playClip (Some element) playClipOptions w = (Ok tt, w')
    /\ timers w' !! id' = None
    /\ dynamicVolumesPlayingMap w' !! volumeId = Some element.
Proof.
  intros o He Htype Hvolume Hdynamic Hdyn Hother Hne He' Hr' Hid' Hfresh.
  assert (Hctx : _createCinePlayContext viewport (opt_waitForRendered o)
                   (default true (opt_dynamicCineEnabled o)) w
                 = (Ok (DynamicVolumeContext volumeId), w)).
  { unfold _createCinePlayContext. unfold bind at 1. unfold getViewport, gets at 1.
    rewrite Htype. rewrite (bind_run _ _ _ _ _ Hvolume).
    unfold bind, isDynamicVolume, gets. by rewrite Hdynamic, Hdyn. }
  destruct (playClip_prepares element viewport playClipOptions w w _ He Hctx)
    as (w7 & r & playClipTimeouts & Hrun & _ & _ & Hsettles & _ & _ & Hmap & Hsub).
  fold o in Hrun, Hmap, Hsub. rewrite Hdyn in Hsub. cbn [when] in Hsub.
  destruct (schedule_timer element viewport o (DynamicVolumeContext volumeId) r
              playClipTimeouts w7 eq_refl)
    as (timer & w' & Hschedule & Htimers & _ & _ & _ & _ & Hmap' & _).
  destruct (stopDynamicVolumeCine_run element other viewport viewport'
              volumeId r' w He Htype Hvolume Hdynamic Hother Hne He' Hr')
    as (_ & _ & _ & Hgone).
  exists w'. rewrite Hrun, Hschedule. split; [done|]. split.
  - rewrite Htimers, (settles_nextTimer _ _ Hsettles).
    rewrite lookup_insert_ne by done.
    eapply lookup_weaken_None; [|exact Hsub]. by apply Hgone.
  - rewrite Hmap'. apply (Hmap Hdyn). by rewrite Hvolume.
Qed.

Lemma playClip_takes_over_volume_witness :
  let w := example_dynamic_world in
  (enabledElements w !! 1%nat = Some "axial"%string
   /\ vp_type (viewports w "axial") = VolumeViewport
   /\ _getVolumeFromViewport "axial" w = (Ok (Some "pet4d"%string), w)
   /\ vol_isDynamicVolume (volumes w "pet4d") = true
   /\ dynamicVolumesPlayingMap w !! "pet4d"%string = Some 2%nat
   /\ enabledElements w !! 2%nat = Some "coronal"%string
   /\ state w !! "coronal"%string = Some 0%nat
   /\ intervalId (playClipData w 0%nat) = Some 5%nat)
  /\ exists (w' : World),
       playClip (Some 1%nat) None w = (Ok tt, w')
       /\ timers w' !! 5%nat = None
       /\ dynamicVolumesPlayingMap w' !! "pet4d"%string = Some 1%nat.
Proof.
  intros w.
  assert (Hvolume : _getVolumeFromViewport "axial" w
                    = (Ok (Some "pet4d"%string), w))
    by (vm_compute; reflexivity).
  split; [by repeat split|].
  apply (playClip_takes_over_volume 1%nat 2%nat "axial" "coronal" None "pet4d"
           0%nat 5%nat w); try reflexivity; try exact Hvolume; simpl; lia.
Defined.

End CinePlay.

(** ** Rectangle erase *)

Section EraseFacts.
Import EraseRectangle.

(** The index of the voxel (i, j, k) in the scalar data. *)
Definition linear (dimensions : Z * Z * Z) (ijk : Z * Z * Z) : Z :=
  let '(width, height, _) := dimensions in
  let '(i, j, k) := ijk in
  k * (width * height) + j * width + i.

Definition in_bounds (boundsIJK : Bounds) (ijk : Z * Z * Z) : Prop :=
  let '((iMin, iMax), (jMin, jMax), (kMin, kMax)) := boundsIJK in
  let '(i, j, k) := ijk in
  iMin <= i <= iMax /\ jMin <= j <= jMax /\ kMin <= k <= kMax.

(** The voxel at position [n] of the scalar data lies inside the bounds. *)
Definition voxel_in_bounds (boundsIJK : Bounds) (dimensions : Z * Z * Z)
    (n : nat) : Prop :=
  exists ijk, in_bounds boundsIJK ijk /\ linear dimensions ijk = Z.of_nat n.

(** What the erase callback does to the scalar data at one index. *)
Definition erase_at (locked : list Z) (data : list Z) (index : Z) : list Z :=
  if bool_decide (read data index ∈ (Some <$> locked)) then data
  else write data index 0.

Lemma elem_of_range (x min max : Z) : x ∈ range min max <-> min <= x <= max.
Proof. unfold range. rewrite elem_of_seqZ. lia. Qed.

Lemma elem_of_voxels (boundsIJK : Bounds) (ijk : Z * Z * Z) :
  let '((iMin, iMax), (jMin, jMax), (kMin, kMax)) := boundsIJK in
  ijk ∈ (k ← range kMin kMax; j ← range jMin jMax; i ← range iMin iMax;
         [(i, j, k)])
  <-> in_bounds boundsIJK ijk.
Proof.
  destruct boundsIJK as [[[iMin iMax] [jMin jMax]] [kMin kMax]].
  destruct ijk as [[i j] k]. simpl.
  rewrite list_elem_of_bind. split.
  - intros (k' & Hin & Hk). apply list_elem_of_bind in Hin.
    destruct Hin as (j' & Hin & Hj). apply list_elem_of_bind in Hin.
    destruct Hin as (i' & Hin & Hi). apply list_elem_of_singleton in Hin.
    injection Hin as -> -> ->.
    apply elem_of_range in Hi, Hj, Hk. done.
  - intros (Hi & Hj & Hk). exists k. split; [|by apply elem_of_range].
    apply list_elem_of_bind. exists j. split; [|by apply elem_of_range].
    apply list_elem_of_bind. exists i. split; [|by apply elem_of_range].
    by apply list_elem_of_singleton.
Qed.

Lemma erase_at_length locked data index :
  length (erase_at locked data index) = length data.
Proof.
  unfold erase_at, write. case_bool_decide; [done|].
  destruct (0 <=? index); [apply length_insert | done].
Qed.

(** One call of the callback: the voxel at [index] is erased unless its
    label is locked; the others stay. *)
Lemma erase_at_lookup locked data index (n : nat) (value : Z) :
  data !! n = Some value ->
  erase_at locked data index !! n
  = Some (if bool_decide (index = Z.of_nat n) then
            if bool_decide (value ∈ locked) then value else 0
          else value).
Proof.
  intros Hn. unfold erase_at, read, write.
  destruct (decide (index = Z.of_nat n)) as [->|Hne].
  - rewrite (bool_decide_eq_true_2 (Z.of_nat n = Z.of_nat n)) by done.
    assert ((0 <=? Z.of_nat n) = true) as -> by (apply Z.leb_le; lia).
    rewrite Nat2Z.id, Hn.
    rewrite (bool_decide_ext (Some value ∈ Some <$> locked) (value ∈ locked)).
    2:{ rewrite list_elem_of_fmap. split.
        - by intros (y & [= ->] & Hy).
        - intros Hy. by exists value. }
    destruct (bool_decide (value ∈ locked)); [done|].
    apply list_lookup_insert_eq. by eapply lookup_lt_Some.
  - rewrite (bool_decide_eq_false_2 (index = Z.of_nat n)) by done.
    destruct (bool_decide (_ ∈ _)); [done|].
    destruct (0 <=? index) eqn:Hpos; [|done].
    rewrite list_lookup_insert_ne by lia. done.
Qed.

(** The callback run over a list of voxels: a voxel of the scalar data
    is erased when it is one of them and its label is not locked. *)
Lemma erase_voxels_lookup (locked : list Z) (dimensions : Z * Z * Z)
    (voxels : list (Z * Z * Z)) :
  forall (data : list Z) (n : nat) (value : Z),
    data !! n = Some value ->
    let data' :=
      fold_left (fun data ijk => erase_at locked data (linear dimensions ijk))
        voxels data in
    length data' = length data
    /\ ((exists ijk, ijk ∈ voxels /\ linear dimensions ijk = Z.of_nat n) ->
        data' !! n = Some (if bool_decide (value ∈ locked) then value else 0))
    /\ (~ (exists ijk, ijk ∈ voxels /\ linear dimensions ijk = Z.of_nat n) ->
        data' !! n = Some value).
Proof.
  induction voxels as [|ijk voxels IH]; intros data n value Hn; simpl.
  - split; [done|]. split; [|done].
    intros (ijk & Hin & _). by apply elem_of_nil in Hin.
  - pose proof (erase_at_lookup locked data (linear dimensions ijk) n value Hn)
      as Hstep.
    destruct (IH _ _ _ Hstep) as (Hlen & Hin & Hout).
    split; [by rewrite Hlen, erase_at_length|].
    destruct (decide (linear dimensions ijk = Z.of_nat n)) as [Heq|Hne].
    + (* this voxel is the one at [n] *)
      rewrite (bool_decide_eq_true_2 _ Heq) in *.
      split; [|intros Hnot; destruct Hnot; exists ijk; split; [left | done]].
      intros _.
      destruct (decide (Exists (fun ijk' => linear dimensions ijk' = Z.of_nat n)
                          voxels)) as [Hlater|Hlater];
        rewrite Exists_exists in Hlater.
      * rewrite (Hin Hlater). by repeat case_bool_decide.
      * apply (Hout Hlater).
    + rewrite (bool_decide_eq_false_2 _ Hne) in *. split.
      * intros (ijk' & Hin' & Hlin). apply Hin. exists ijk'. split; [|done].
        apply elem_of_cons in Hin' as [-> | ?]; [done | done].
      * intros Hnot. apply Hout. intros (ijk' & Hin' & Hlin). apply Hnot.
        exists ijk'. split; [by right | done].
Qed.

Lemma erase_voxels_length (locked : list Z) (dimensions : Z * Z * Z)
    (voxels : list (Z * Z * Z)) (data : list Z) :
  length (fold_left (fun data ijk => erase_at locked data (linear dimensions ijk))
            voxels data)
  = length data.
Proof.
  revert data. induction voxels as [|ijk voxels IH]; intros data; simpl; [done|].
  by rewrite IH, erase_at_length.
Qed.

Lemma fold_left_pointwise {A B} (f g : A -> B -> A) (l : list B) (a : A) :
  (forall a b, f a b = g a b) -> fold_left f l a = fold_left g l a.
Proof.
  intros Hfg. revert a. induction l as [|b l IH]; intros a; simpl; [done|].
  by rewrite Hfg, IH.
Qed.

Section Strategy.
Context {WorldPoint IndexPoint : Type}.
Variable worldToIndex : WorldPoint -> IndexPoint.
Variable getBoundingBoxAroundShape : list IndexPoint -> Z * Z * Z -> Bounds.

(** The bounding box of the rectangle drawn with [operationData]. *)
Definition boundsIJK_of (operationData : EraseOperationData) (st : State)
    : Bounds :=
  getBoundingBoxAroundShape (map worldToIndex (points operationData))
    (dimensions (segmentation st)).

Definition degenerate (boundsIJK : Bounds) : Prop :=
  let '((iMin, iMax), (jMin, jMax), (kMin, kMax)) := boundsIJK in
  iMin = iMax \/ jMin = jMax \/ kMin = kMax.

Lemma oblique_false (boundsIJK : Bounds) :
  oblique boundsIJK = false <-> degenerate boundsIJK.
Proof.
  destruct boundsIJK as [[[iMin iMax] [jMin jMax]] [kMin kMax]].
  unfold oblique, degenerate. simpl.
  destruct (Z.eqb_spec iMin iMax), (Z.eqb_spec jMin jMax),
    (Z.eqb_spec kMin kMax); simpl; split; auto; try discriminate;
    intros [?|[?|?]]; done.
Qed.

(** C4.  [eraseInsideRectangle] on a rectangle whose IJK bounding box is
    degenerate in at least one axis returns, and afterwards: a voxel
    inside the bounding box whose label is locked keeps its label, every
    other voxel inside the bounding box has label 0, a voxel outside the
    bounding box is unchanged, and one more segmentation-data-modified
    event has been triggered. *)
Theorem eraseInsideRectangle_erases (operationData : EraseOperationData)
    (st : State) :
  let boundsIJK := boundsIJK_of operationData st in
  let volume := segmentation st in
  degenerate boundsIJK ->
  exists st',
    eraseInsideRectangle worldToIndex getBoundingBoxAroundShape operationData st
    = (Ok tt, st')
    /\ dimensions (segmentation st') = dimensions volume
    /\ length (scalarData (segmentation st')) = length (scalarData volume)
    /\ (forall (n : nat) (value : Z),
          scalarData volume !! n = Some value ->
          let inside := voxel_in_bounds boundsIJK (dimensions volume) n in
          let value' := scalarData (segmentation st') !! n in
          (inside -> value ∈ segmentsLocked operationData ->
             value' = Some value)
          /\ (inside -> value ∉ segmentsLocked operationData ->
                value' = Some 0)
          /\ (~ inside -> value' = Some value))
    /\ modified st'
       = modified st ++ [(toolGroupUID operationData,
                          segmentationDataUID operationData)].
Proof.
  intros boundsIJK volume Hdegenerate.
  apply oblique_false in Hdegenerate.
  unfold eraseInsideRectangle, eraseRectangle.
  fold (boundsIJK_of operationData st). fold boundsIJK. rewrite Hdegenerate.
  eexists. split; [reflexivity|]. simpl. split; [done|].
  fold volume.
  set (data' := pointInShapeCallback _ _ _ _ _).
  assert (Hfold : data' =
    fold_left (fun data ijk =>
                 erase_at (segmentsLocked operationData) data
                   (linear (dimensions volume) ijk))
      (let '((iMin, iMax), (jMin, jMax), (kMin, kMax)) := boundsIJK in
       k ← range kMin kMax; j ← range jMin jMax; i ← range iMin iMax;
       [(i, j, k)])
      (scalarData volume)).
  { subst data'. unfold pointInShapeCallback.
    destruct boundsIJK as [[[iMin iMax] [jMin jMax]] [kMin kMax]].
    destruct (dimensions volume) as [[width height] depth].
    apply fold_left_pointwise. intros data [[i j] k]. reflexivity. }
  pose proof (elem_of_voxels boundsIJK) as Hvoxels.
  clearbody data'. subst data'.
  destruct boundsIJK as [[[iMin iMax] [jMin jMax]] [kMin kMax]] eqn:Hbounds.
  set (voxels := _ ≫= _) in *.
  split; [apply erase_voxels_length|].
  split; [|done]. intros n value Hn.
  destruct (erase_voxels_lookup (segmentsLocked operationData)
              (dimensions volume) voxels (scalarData volume) n value Hn)
    as (_ & Hin & Hout).
  assert (Hinside :
            voxel_in_bounds (iMin, iMax, (jMin, jMax), (kMin, kMax))
              (dimensions volume) n
            <-> exists ijk, ijk ∈ voxels
                  /\ linear (dimensions volume) ijk = Z.of_nat n).
  { unfold voxel_in_bounds.
    split; intros (ijk & H1 & H2); exists ijk; split; try done;
      by apply (Hvoxels ijk). }
  repeat split.
  - intros Hi Hlocked. rewrite Hin by (by apply Hinside).
    by rewrite bool_decide_eq_true_2.
  - intros Hi Hfree. rewrite Hin by (by apply Hinside).
    by rewrite bool_decide_eq_false_2.
  - intros Ho. apply Hout. by rewrite <- Hinside.
Qed.

(** C5.  [eraseInsideRectangle] throws 'Oblique segmentation tools are not
    supported yet' exactly when each of the three axes of the IJK bounding
    box has min different from max; it throws nothing else, and when it
    throws nothing was written: the scalar data and the rest of the state
    are as before. *)
Theorem eraseInsideRectangle_oblique (operationData : EraseOperationData)
    (st : State) :
  let '((iMin, iMax), (jMin, jMax), (kMin, kMax)) :=
    boundsIJK_of operationData st in
  let r :=
    eraseInsideRectangle worldToIndex getBoundingBoxAroundShape operationData st in
  (r.1 = Throw "Oblique segmentation tools are not supported yet"
   <-> iMin <> iMax /\ jMin <> jMax /\ kMin <> kMax)
  /\ (forall message, r.1 = Throw message ->
        message = "Oblique segmentation tools are not supported yet"%string
        /\ r.2 = st
        /\ scalarData (segmentation r.2) = scalarData (segmentation st)).
Proof.
  destruct (boundsIJK_of operationData st)
    as [[[iMin iMax] [jMin jMax]] [kMin kMax]] eqn:Hbounds.
  unfold eraseInsideRectangle, eraseRectangle.
  fold (boundsIJK_of operationData st). rewrite Hbounds.
  destruct (oblique _) eqn:Hoblique; simpl.
  - split; [|by intros message [= <-]]. split; [intros _|done].
    unfold oblique in Hoblique. simpl in Hoblique.
    rewrite !andb_true_iff, !negb_true_iff, !Z.eqb_neq in Hoblique. tauto.
  - split; [|by intros message]. split; [done|]. intros (Hi & Hj & Hk).
    apply oblique_false in Hoblique. by destruct Hoblique as [?|[?|?]].
Qed.

End Strategy.

(** In a volume the bounding box lies in, the voxels inside the box are
    those whose coordinates are inside it. *)
Lemma voxel_in_bounds_coordinates (boundsIJK : Bounds) (width height depth : Z)
    (i j k : Z) :
  let '((iMin, iMax), (jMin, jMax), (kMin, kMax)) := boundsIJK in
  0 <= iMin -> iMax < width -> 0 <= jMin -> jMax < height ->
  0 <= i < width -> 0 <= j < height -> 0 <= k ->
  voxel_in_bounds boundsIJK (width, height, depth)
    (Z.to_nat (linear (width, height, depth) (i, j, k)))
  <-> in_bounds boundsIJK (i, j, k).
Proof.
  destruct boundsIJK as [[[iMin iMax] [jMin jMax]] [kMin kMax]].
  intros HiMin HiMax HjMin HjMax Hi Hj Hk.
  assert (Hlin : 0 <= linear (width, height, depth) (i, j, k)).
  { unfold linear.
    assert (0 <= k * (width * height)) by (apply Z.mul_nonneg_nonneg; nia).
    assert (0 <= j * width) by nia. lia. }
  unfold voxel_in_bounds. rewrite Z2Nat.id by done. split.
  - intros ([[i' j'] k'] & (Hi' & Hj' & Hk') & Heq). simpl in Heq.
    assert (i' = i).
    { set (m := (k' - k) * height + (j' - j)).
      assert (Hdiv : m * width = i - i') by (subst m; lia).
      assert (m = 0) by nia. lia. }
    subst i'.
    assert (j' = j).
    { set (m := k' - k).
      assert (Hdiv : m * height = j - j') by (subst m; nia).
      assert (m = 0) by nia. lia. }
    subst j'.
    assert (k' = k).
    { assert (Hwh : 0 < width * height) by nia.
      assert (Hz : (k' - k) * (width * height) = 0) by lia.
      apply Z.mul_eq_0 in Hz. lia. }
    subst k'. done.
  - intros Hin. by exists (i, j, k).
Qed.

(** A bounding box helper for the examples: the least box around the
    corners, clipped to the volume. *)
Definition example_bounding_box (corners : list (Z * Z * Z))
    (dimensions : Z * Z * Z) : Bounds :=
  let '(width, height, depth) := dimensions in
  let axis (f : Z * Z * Z -> Z) (size : Z) :=
    (Z.max 0 (foldr Z.min size (f <$> corners)),
     Z.min (size - 1) (foldr Z.max (-1) (f <$> corners))) in
  (axis (fun c => c.1.1) width, axis (fun c => c.1.2) height,
   axis (fun c => c.2) depth).

Definition example_labelmap : State :=
  {| segmentation := {| dimensions := (3, 3, 1);
                        scalarData := [1; 2; 3; 4; 5; 6; 7; 8; 9] |};
     modified := [] |}.

Definition example_erase : EraseOperationData :=
  {| toolGroupUID := "toolGroup"; segmentationDataUID := "segmentation";
     points := [(0, 0, 0); (1, 0, 0); (0, 1, 0); (1, 1, 0)];
     segmentsLocked := [2] |}.

Example eraseInsideRectangle_example :
  eraseInsideRectangle id example_bounding_box example_erase example_labelmap
  = (Ok tt,
     {| segmentation := {| dimensions := (3, 3, 1);
                           scalarData := [0; 2; 3; 0; 0; 6; 7; 8; 9] |};
        modified := [("toolGroup", "segmentation")]%string |}).
Proof. vm_compute. reflexivity. Qed.

Lemma eraseInsideRectangle_erases_witness :
  degenerate (boundsIJK_of id example_bounding_box example_erase example_labelmap)
  /\ exists st',
       eraseInsideRectangle id example_bounding_box example_erase example_labelmap
       = (Ok tt, st')
       /\ length (scalarData (segmentation st')) = 9%nat.
Proof.
  assert (Hdegenerate : degenerate (boundsIJK_of id example_bounding_box
                                      example_erase example_labelmap))
    by (right; right; reflexivity).
  split; [exact Hdegenerate|].
  destruct (eraseInsideRectangle_erases id example_bounding_box example_erase
              example_labelmap Hdegenerate)
    as (st' & Hrun & _ & Hlength & _).
  exists st'. split; [exact Hrun | exact Hlength].
Defined.

End EraseFacts.

(** ** Rectangle erase: the two strategies, and erasing twice *)

Section EraseMore.
Import EraseRectangle.

Context {WorldPoint IndexPoint : Type}.
Variable worldToIndex : WorldPoint -> IndexPoint.
Variable getBoundingBoxAroundShape : list IndexPoint -> Z * Z * Z -> Bounds.

(** The voxels [pointInShapeCallback] goes through. *)
Definition voxels_of (boundsIJK : Bounds) : list (Z * Z * Z) :=
  let '((iMin, iMax), (jMin, jMax), (kMin, kMax)) := boundsIJK in
  k ← range kMin kMax; j ← range jMin jMax; i ← range iMin iMax; [(i, j, k)].

(** The scalar data with the voxels of the bounds erased. *)
Definition erased (locked : list Z) (dimensions : Z * Z * Z)
    (boundsIJK : Bounds) (data : list Z) : list Z :=
  fold_left (fun data ijk => erase_at locked data (linear dimensions ijk))
    (voxels_of boundsIJK) data.

Lemma eraseRectangle_run (operationData : EraseOperationData) (inside : bool)
    (st : State) :
  let boundsIJK := boundsIJK_of worldToIndex getBoundingBoxAroundShape
                     operationData st in
  degenerate boundsIJK ->
  eraseRectangle worldToIndex getBoundingBoxAroundShape operationData inside st
  = (Ok tt,
     {| segmentation :=
          {| dimensions := dimensions (segmentation st);
             scalarData :=
               erased (segmentsLocked operationData)
                 (dimensions (segmentation st)) boundsIJK
                 (scalarData (segmentation st)) |};
        modified := modified st ++ [(toolGroupUID operationData,
                                     segmentationDataUID operationData)] |}).
Proof.
  intros boundsIJK Hdegenerate. apply oblique_false in Hdegenerate.
  unfold eraseRectangle.
  fold (boundsIJK_of worldToIndex getBoundingBoxAroundShape operationData st).
  fold boundsIJK. rewrite Hdegenerate. do 3 f_equal.
  unfold pointInShapeCallback, erased, voxels_of.
  destruct boundsIJK as [[[iMin iMax] [jMin jMax]] [kMin kMax]].
  destruct (dimensions (segmentation st)) as [[width height] depth].
  apply fold_left_pointwise. intros data [[i j] k]. reflexivity.
Qed.

Lemma erased_lookup (locked : list Z) (dimensions : Z * Z * Z)
    (boundsIJK : Bounds) (data : list Z) (n : nat) (value : Z) :
  data !! n = Some value ->
  (voxel_in_bounds boundsIJK dimensions n ->
     erased locked dimensions boundsIJK data !! n
     = Some (if bool_decide (value ∈ locked) then value else 0))
  /\ (~ voxel_in_bounds boundsIJK dimensions n ->
        erased locked dimensions boundsIJK data !! n = Some value).
Proof.
  intros Hn.
  destruct (erase_voxels_lookup locked dimensions (voxels_of boundsIJK) data
              n value Hn) as (_ & Hin & Hout).
  assert (Hinside : voxel_in_bounds boundsIJK dimensions n
            <-> exists ijk, ijk ∈ voxels_of boundsIJK
                  /\ linear dimensions ijk = Z.of_nat n).
  { pose proof (elem_of_voxels boundsIJK) as Hvoxels.
    unfold voxel_in_bounds, voxels_of.
    destruct boundsIJK as [[[iMin iMax] [jMin jMax]] [kMin kMax]].
    split; intros (ijk & H1 & H2); exists ijk; split; try done;
      by apply (Hvoxels ijk). }
  split.
  - intros Hi. apply Hin. by apply Hinside.
  - intros Ho. apply Hout. by rewrite <- Hinside.
Qed.

Lemma voxel_in_bounds_or_not (boundsIJK : Bounds) (dimensions : Z * Z * Z)
    (n : nat) :
  voxel_in_bounds boundsIJK dimensions n
  \/ ~ voxel_in_bounds boundsIJK dimensions n.
Proof.
  assert (Hinside : voxel_in_bounds boundsIJK dimensions n
            <-> Exists (fun ijk => linear dimensions ijk = Z.of_nat n)
                  (voxels_of boundsIJK)).
  { pose proof (elem_of_voxels boundsIJK) as Hvoxels.
    rewrite Exists_exists. unfold voxel_in_bounds, voxels_of.
    destruct boundsIJK as [[[iMin iMax] [jMin jMax]] [kMin kMax]].
    split; intros (ijk & H1 & H2); exists ijk; split; try done;
      by apply (Hvoxels ijk). }
  destruct (decide (Exists (fun ijk => linear dimensions ijk = Z.of_nat n)
                      (voxels_of boundsIJK))) as [Hyes | Hno].
  - left. by apply Hinside.
  - right. by rewrite Hinside.
Qed.

Lemma erased_length (locked : list Z) (dimensions : Z * Z * Z)
    (boundsIJK : Bounds) (data : list Z) :
  length (erased locked dimensions boundsIJK data) = length data.
Proof. apply erase_voxels_length. Qed.

(** [eraseOutsideRectangle] erases what [eraseInsideRectangle] erases:
    the [inside] flag it passes on is never read.  So it too clears the
    voxels inside the bounding box that are not locked, and leaves every
    voxel outside the box as it is. *)
Theorem eraseOutsideRectangle_erases_inside
    (operationData : EraseOperationData) (st : State) :
  let boundsIJK := boundsIJK_of worldToIndex getBoundingBoxAroundShape
                     operationData st in
  let volume := segmentation st in
  let r := eraseOutsideRectangle worldToIndex getBoundingBoxAroundShape
             operationData st in
  r = eraseInsideRectangle worldToIndex getBoundingBoxAroundShape operationData st
  /\ (degenerate boundsIJK ->
      r.1 = Ok tt
      /\ forall (n : nat) (value : Z),
           scalarData volume !! n = Some value ->
           let inside := voxel_in_bounds boundsIJK (dimensions volume) n in
           let value' := scalarData (segmentation r.2) !! n in
           (~ inside -> value' = Some value)
           /\ (inside -> value ∉ segmentsLocked operationData -> value' = Some 0)
           /\ (inside -> value ∈ segmentsLocked operationData ->
                 value' = Some value)).
Proof.
  intros boundsIJK volume r. split; [reflexivity|]. intros Hdegenerate.
  subst r. unfold eraseOutsideRectangle.
  rewrite (eraseRectangle_run operationData false st Hdegenerate). simpl.
  split; [done|]. intros n value Hn.
  destruct (erased_lookup (segmentsLocked operationData) (dimensions volume)
              boundsIJK (scalarData volume) n value Hn) as [Hin Hout].
  fold boundsIJK. fold volume. repeat split.
  - exact Hout.
  - intros Hi Hfree. rewrite Hin by done. by rewrite bool_decide_eq_false_2.
  - intros Hi Hlocked. rewrite Hin by done. by rewrite bool_decide_eq_true_2.
Qed.

(** Erasing the same rectangle a second time changes no voxel: the scalar
    data after two runs are the scalar data after one (each run triggers
    its own segmentation-data-modified event). *)
Theorem eraseInsideRectangle_twice (operationData : EraseOperationData)
    (st : State) :
  let erase := eraseInsideRectangle worldToIndex getBoundingBoxAroundShape
                 operationData in
  degenerate (boundsIJK_of worldToIndex getBoundingBoxAroundShape
                operationData st) ->
  (erase (erase st).2).1 = Ok tt
  /\ segmentation (erase (erase st).2).2 = segmentation (erase st).2
  /\ modified (erase (erase st).2).2
     = modified st ++ [(toolGroupUID operationData,
                        segmentationDataUID operationData);
                       (toolGroupUID operationData,
                        segmentationDataUID operationData)].
Proof.
  intros erase Hdegenerate. subst erase. unfold eraseInsideRectangle.
  rewrite (eraseRectangle_run operationData true st Hdegenerate). cbn [snd].
  set (bounds := boundsIJK_of _ _ operationData st) in *.
  set (st1 := {| segmentation := _; modified := _ |}).
  assert (Hbounds : boundsIJK_of worldToIndex getBoundingBoxAroundShape
                      operationData st1 = bounds) by reflexivity.
  assert (Hdegenerate1 : degenerate
            (boundsIJK_of worldToIndex getBoundingBoxAroundShape operationData st1))
    by (by rewrite Hbounds).
  rewrite (eraseRectangle_run operationData true st1 Hdegenerate1).
  rewrite Hbounds. cbn [fst snd segmentation modified st1 scalarData dimensions].
  split; [done|]. split; [|by rewrite <- app_assoc].
  f_equal. set (locked := segmentsLocked operationData).
  set (dims := dimensions (segmentation st)).
  set (data := scalarData (segmentation st)).
  apply list_eq. intros n.
  destruct (data !! n) as [value|] eqn:Hn.
  - destruct (erased_lookup locked dims bounds data n value Hn) as [Hin Hout].
    destruct (voxel_in_bounds_or_not bounds dims n) as [Hi | Ho].
    + rewrite (Hin Hi).
      destruct (erased_lookup locked dims bounds (erased locked dims bounds data)
                  n _ (Hin Hi)) as [Hin' _].
      rewrite (Hin' Hi). f_equal.
      destruct (bool_decide (value ∈ locked)) eqn:Hlocked.
      * by rewrite Hlocked.
      * by destruct (bool_decide (0 ∈ locked)).
    + rewrite (Hout Ho).
      destruct (erased_lookup locked dims bounds (erased locked dims bounds data)
                  n _ (Hout Ho)) as [_ Hout'].
      by rewrite (Hout' Ho).
  - assert (Hnone : forall l : list Z, length l = length data -> l !! n = None).
    { intros l Hl. apply lookup_ge_None. rewrite Hl. by apply lookup_ge_None. }
    rewrite !Hnone; by rewrite ?erased_length.
Qed.

End EraseMore.

Lemma eraseInsideRectangle_twice_witness :
  let erase := EraseRectangle.eraseInsideRectangle id example_bounding_box
                 example_erase in
  degenerate (boundsIJK_of id example_bounding_box example_erase example_labelmap)
  /\ EraseRectangle.segmentation (erase (erase example_labelmap).2).2
     = EraseRectangle.segmentation (erase example_labelmap).2.
Proof.
  intros erase.
  assert (Hdegenerate : degenerate (boundsIJK_of id example_bounding_box
                                      example_erase example_labelmap))
    by (vm_compute; auto).
  split; [exact Hdegenerate|].
  apply (eraseInsideRectangle_twice id example_bounding_box example_erase
           example_labelmap Hdegenerate).
Defined.

(** ** Zoom *)

Section ZoomFacts.
Import Zoom.

Variable vec3_distance : Point3 -> Point3 -> float.

(** The clamp of [_dragParallelProjection], case by case. *)
Lemma dragParallelProjection_cases (tool : ZoomTool) (detail : EventDetail)
    (viewport : Viewport) (camera : Camera) (pinch : bool) (image : ImageData) :
  imageData viewport = Some image ->
  let size := (clientWidth detail, clientHeight detail) in
  let low := minScaleInWorld tool image (imageArea viewport) size in
  let high := maxScaleInWorld tool image (imageArea viewport) size in
  let asked := parallelScaleToSet tool detail camera pinch in
  let set := _dragParallelProjection vec3_distance tool detail viewport camera
               pinch in
  ((asked <? low)%float = true ->
     parallelScale set = low
     /\ focalPoint set = focalPoint camera /\ position set = position camera)
  /\ ((asked <? low)%float = false -> (high <? asked)%float = true ->
        parallelScale set = high
        /\ focalPoint set = focalPoint camera /\ position set = position camera)
  /\ ((asked <? low)%float = false -> (high <? asked)%float = false ->
        parallelScale set = asked).
Proof.
  intros Himage size low high asked set.
  subst set. unfold _dragParallelProjection. rewrite Himage.
  fold size. fold low. fold high. fold asked.
  destruct (zoomToCenter (configuration tool));
    destruct (asked <? low)%float, (high <? asked)%float; simpl;
    repeat split; intros; done.
Qed.

(** What the clamp of [_dragParallelProjection] does hold to.  After a
    parallel-projection drag on a viewport that has image data, the
    parallel scale passed to [setCamera] lies within
    [minParallelScaleRequired / maxZoomScale,
     minParallelScaleRequired / minZoomScale]
    provided that the scale the drag asks for is a number (not NaN) and
    that the interval is not empty.  Whenever the scale is clamped to
    either bound the camera's focal point and position are passed through
    unchanged.  [minZoomScale] and [maxZoomScale] default to 0.001 and
    3000. *)
Theorem dragParallelProjection_clamps (tool : ZoomTool) (detail : EventDetail)
    (viewport : Viewport) (camera : Camera) (pinch : bool) (image : ImageData) :
  imageData viewport = Some image ->
  let size := (clientWidth detail, clientHeight detail) in
  let required := minParallelScaleRequired image (imageArea viewport) size in
  let low := (required / maxZoomScale (configuration tool))%float in
  let high := (required / minZoomScale (configuration tool))%float in
  let asked := parallelScaleToSet tool detail camera pinch in
  let set := _dragParallelProjection vec3_distance tool detail viewport camera
               pinch in
  (is_nan asked = false -> (low <=? high)%float = true ->
     (low <=? parallelScale set)%float = true
     /\ (parallelScale set <=? high)%float = true)
  /\ ((asked <? low)%float = true \/ (high <? asked)%float = true ->
        (parallelScale set = low \/ parallelScale set = high)
        /\ focalPoint set = focalPoint camera
        /\ position set = position camera)
  /\ ((asked <? low)%float = false -> (high <? asked)%float = false ->
        parallelScale set = asked)
  /\ minZoomScale defaultConfiguration = 0x1.0624dd2f1a9fcp-10%float
  /\ maxZoomScale defaultConfiguration = 3000%float.
Proof.
  intros Himage size required low high asked set.
  destruct (dragParallelProjection_cases tool detail viewport camera pinch
              image Himage) as (Hlow & Hhigh & Hbetween).
  fold size in Hlow, Hhigh, Hbetween.
  change (minScaleInWorld tool image (imageArea viewport) size) with low in *.
  change (maxScaleInWorld tool image (imageArea viewport) size) with high in *.
  fold asked in Hlow, Hhigh, Hbetween. fold set in Hlow, Hhigh, Hbetween.
  split; [|split; [|split; [exact Hbetween | split; reflexivity]]].
  - intros Hasked Hinterval.
    destruct (leb_numbers _ _ Hinterval) as [Hlown Hhighn].
    destruct (asked <? low)%float eqn:Hbelow.
    + destruct (Hlow eq_refl) as (-> & _). split; [by apply leb_refl | done].
    + destruct (high <? asked)%float eqn:Habove.
      * destruct (Hhigh eq_refl eq_refl) as (-> & _).
        split; [done | by apply leb_refl].
      * rewrite (Hbetween eq_refl eq_refl).
        split; by apply ltb_false_leb.
  - intros Hclamped.
    destruct (asked <? low)%float eqn:Hbelow.
    + destruct (Hlow eq_refl) as (-> & -> & ->). auto.
    + destruct Hclamped as [?|Habove]; [done|].
      destruct (Hhigh eq_refl Habove) as (-> & -> & ->). auto.
Qed.

End ZoomFacts.

Section ZoomExamples.
Import Zoom.

(** The Euclidean distance, for the examples. *)
Definition example_distance (a b : Point3) : float :=
  let '(a0, a1, a2) := a in
  let '(b0, b1, b2) := b in
  sqrt ((b0 - a0) * (b0 - a0) + (b1 - a1) * (b1 - a1) + (b2 - a2) * (b2 - a2)).

Definition example_tool : ZoomTool :=
  {| configuration := defaultConfiguration;
     initialMousePosWorld := (10, 10, 0)%float;
     dirVec := (1, 0, 0)%float |}.

Definition example_camera : Camera :=
  {| parallelScale := 100; focalPoint := (128, 128, 0)%float;
     position := (128, 128, 500)%float |}.

Definition example_image_viewport : Viewport :=
  {| imageData := Some {| dimensions := (256, 256, 1)%float;
                          spacing := (1, 1, 1)%float |};
     imageArea := None |}.

(** A drag of ten pixels on a canvas of 512 by 512. *)
Definition example_drag : EventDetail :=
  {| clientWidth := 512; clientHeight := 512;
     deltaPoints_canvas := (0, 10)%float; deltaDistance_canvas := 0 |}.

(** No movement on an element of no height. *)
Definition example_flat_drag : EventDetail :=
  {| clientWidth := 512; clientHeight := 0;
     deltaPoints_canvas := (0, 0)%float; deltaDistance_canvas := 0 |}.

Lemma dragParallelProjection_clamps_witness :
  let set := _dragParallelProjection example_distance example_tool example_drag
               example_image_viewport example_camera false in
  let required := minParallelScaleRequired
                    {| dimensions := (256, 256, 1)%float;
                       spacing := (1, 1, 1)%float |} None (512, 512)%float in
  imageData example_image_viewport
  = Some {| dimensions := (256, 256, 1)%float; spacing := (1, 1, 1)%float |}
  /\ (required / 3000 <=? parallelScale set)%float = true
  /\ (parallelScale set <=? required / 0x1.0624dd2f1a9fcp-10)%float = true.
Proof.
  split; [reflexivity|].
  apply (dragParallelProjection_clamps example_distance example_tool
           example_drag example_image_viewport example_camera false _ eq_refl);
    vm_compute; reflexivity.
Defined.

(** C6.  The clamp misses NaN.  A drag without vertical movement on an
    element of no height asks for the scale (1 - 0 * (5 / 0)) * 100, which
    is NaN; both comparisons of the clamp are false for it, and NaN is
    passed to [setCamera] as the parallel scale, which is not within
    [minParallelScaleRequired / maxZoomScale,
     minParallelScaleRequired / minZoomScale]. *)
Lemma dragParallelProjection_passes_nan :
  let set := _dragParallelProjection example_distance example_tool
               example_flat_drag example_image_viewport example_camera false in
  let required := minParallelScaleRequired
                    {| dimensions := (256, 256, 1)%float;
                       spacing := (1, 1, 1)%float |} None (512, 0)%float in
  imageData example_image_viewport
  = Some {| dimensions := (256, 256, 1)%float; spacing := (1, 1, 1)%float |}
  /\ is_nan (parallelScale set) = true
  /\ (required / maxZoomScale (configuration example_tool)
      <=? parallelScale set)%float = false
  /\ (parallelScale set
      <=? required / minZoomScale (configuration example_tool))%float = false.
Proof. vm_compute. repeat split. Qed.

End ZoomExamples.

(** ** Zoom: the callbacks *)

Section ZoomCallbacks.
Import Zoom.

Variable vec3_distance : Point3 -> Point3 -> float.
Variable vec3_normalize : Point3 -> Point3.
Variable distance2BetweenPoints : Point3 -> Point3 -> float.

(** With [zoomToCenter], a parallel-projection drag changes the parallel
    scale only: the focal point and the position passed to [setCamera]
    are those of the camera, clamped or not, with image data or without. *)
Theorem dragParallelProjection_zoomToCenter (tool : ZoomTool)
    (detail : EventDetail) (viewport : Viewport) (camera : Camera)
    (pinch : bool) :
  zoomToCenter (configuration tool) = true ->
  let set := _dragParallelProjection vec3_distance tool detail viewport camera
               pinch in
  focalPoint set = focalPoint camera /\ position set = position camera.
Proof.
  intros Hcenter. unfold _dragParallelProjection. rewrite Hcenter.
  destruct (imageData viewport) as [image|]; [|done].
  destruct (_ <? _)%float; [done|]. by destruct (_ <? _)%float.
Qed.

Lemma panCallback_keeps (evt : InteractionEvent) (st : State) :
  let st' := _panCallback evt st in
  tool st' = tool st
  /\ parallelScale (camera (Zoom.viewport st'))
     = parallelScale (camera (Zoom.viewport st))
  /\ renders (Zoom.viewport st') = S (renders (Zoom.viewport st)).
Proof.
  unfold _panCallback.
  destruct (deltaPoints_world evt) as [[d0 d1] d2].
  destruct (position _) as [[p0 p1] p2].
  by destruct (focalPoint _) as [[f0 f1] f2].
Qed.

(** A touch drag with fewer than two touch points does not zoom: the
    pinch callback pans when [pan] is configured and does nothing at all
    otherwise, and either way the parallel scale and the tool stay as
    they are. *)
Theorem pinchCallback_single_touch (evt : InteractionEvent) (st : State) :
  (currentPointsList_length evt <= 1)%nat ->
  let pinch := _pinchCallback vec3_distance vec3_normalize distance2BetweenPoints in
  pinch evt st
  = (if pan (configuration (tool st)) then _panCallback evt st else st)
  /\ tool (pinch evt st) = tool st
  /\ parallelScale (camera (Zoom.viewport (pinch evt st)))
     = parallelScale (camera (Zoom.viewport st)).
Proof.
  intros Hone pinch. subst pinch. unfold _pinchCallback.
  assert ((1 <? currentPointsList_length evt)%nat = false) as ->
    by (apply Nat.ltb_ge; lia).
  split; [done|].
  destruct (pan (configuration (tool st))); [|done].
  by destruct (panCallback_keeps evt st) as (? & ? & _).
Qed.

End ZoomCallbacks.

Section ZoomCallbackExamples.
Import Zoom.

Lemma dragParallelProjection_zoomToCenter_witness :
  let tool := {| configuration :=
                   {| zoomToCenter := true; minZoomScale := 1; maxZoomScale := 4;
                      pinchToZoom := true; pan := true; invert := false |};
                 initialMousePosWorld := (10, 10, 0)%float;
                 dirVec := (1, 0, 0)%float |} in
  zoomToCenter (configuration tool) = true
  /\ focalPoint (_dragParallelProjection example_distance tool example_drag
                   example_image_viewport example_camera false)
     = (128, 128, 0)%float.
Proof.
  intros tool. split; [reflexivity|].
  apply (dragParallelProjection_zoomToCenter example_distance tool example_drag
           example_image_viewport example_camera false).
  reflexivity.
Defined.


(** [vec3.normalize] as gl-matrix writes it, into a new Float32Array, and
    the squared distance. *)
Definition example_normalize (a : Point3) : Point3 :=
  let '(x, y, z) := a in
  let len := (x * x + y * y + z * z)%float in
  let len := if (0 <? len)%float then (1 / sqrt len)%float else len in
  fromValues (x * len) (y * len) (z * len).

Definition example_distance2 (a b : Point3) : float :=
  let '(a0, a1, a2) := a in
  let '(b0, b1, b2) := b in
  ((a0 - b0) * (a0 - b0) + (a1 - b1) * (a1 - b1) + (a2 - b2) * (a2 - b2))%float.

Definition example_zoom_state : State :=
  {| tool := example_tool;
     Zoom.viewport :=
       {| isStack := true; view := example_image_viewport;
          parallelProjection := true; viewPlaneNormal := (0, 0, 1)%float;
          camera := example_camera; renders := 0 |} |}.

Definition example_touch : InteractionEvent :=
  {| detail := example_drag; currentPoints_world := (20, 30, 0)%float;
     deltaPoints_world := (1, 2, 0)%float; currentPointsList_length := 1 |}.

Lemma pinchCallback_single_touch_witness :
  let st' := _pinchCallback example_distance example_normalize example_distance2
               example_touch example_zoom_state in
  (currentPointsList_length example_touch <= 1)%nat
  /\ parallelScale (camera (Zoom.viewport st')) = 100%float
  /\ focalPoint (camera (Zoom.viewport st')) = (127, 126, 0)%float.
Proof.
  intros st'. split; [simpl; lia|].
  destruct (pinchCallback_single_touch example_distance example_normalize
              example_distance2 example_touch example_zoom_state)
    as (Hrun & _ & Hscale); [simpl; lia|].
  split; [exact Hscale|]. subst st'. rewrite Hrun. reflexivity.
Defined.

End ZoomCallbackExamples.

(** ** Rectangle scissors *)

Section ScissorsFacts.
Import RectangleScissors.

Definition no_active_segmentation : string :=
  "No active segmentation detected, create one before using scissors tool".

(** C8, as amended.  [preMouseDownCallback] throws 'No active segmentation
    detected, create one before using scissors tool' whenever the tool is
    not already drawing and no active segmentation exists for the
    viewport of the (enabled) element; in that case [editData] stays as it
    was and no draw event handlers are activated. *)
Theorem preMouseDownCallback_no_segmentation (services : Services)
    (element : Element) (worldPos : Point3) (st : State) (viewport : string) :
  isDrawing st = false ->
  getEnabledElement services element = Some viewport ->
  getActiveSegmentation services viewport = None ->
  let r := preMouseDownCallback services element worldPos st in
  r.1 = Throw no_active_segmentation
  /\ editData r.2 = editData st
  /\ listeners r.2 = listeners st
  /\ hiddenCursors r.2 = hiddenCursors st
  /\ renders r.2 = renders st.
Proof.
  intros Hidle Henabled Hnone. unfold preMouseDownCallback.
  rewrite Hidle, Henabled, Hnone. simpl. by repeat split.
Qed.

(** While drawing, the callback leaves the click to the end callback: it
    returns at once, whatever the segmentations are. *)
Lemma preMouseDownCallback_drawing (services : Services) (element : Element)
    (worldPos : Point3) (st : State) :
  isDrawing st = true ->
  preMouseDownCallback services element worldPos st = (Ok None, st).
Proof. intros Hdrawing. unfold preMouseDownCallback. by rewrite Hdrawing. Qed.

(** With an active segmentation the edit data is set and the handlers of
    the draw loop are activated. *)
Lemma preMouseDownCallback_starts (services : Services) (element : Element)
    (worldPos : Point3) (st : State) (viewport segmentation : string) :
  isDrawing st = false ->
  getEnabledElement services element = Some viewport ->
  getActiveSegmentation services viewport = Some segmentation ->
  let r := preMouseDownCallback services element worldPos st in
  r.1 = Ok (Some true)
  /\ isDrawing r.2 = true
  /\ (exists e, editData r.2 = Some e /\ segmentationId e = segmentation)
  /\ length (listeners r.2) = (length (listeners st) + 7)%nat.
Proof.
  intros Hidle Henabled Hsome. unfold preMouseDownCallback.
  rewrite Hidle, Henabled, Hsome. simpl.
  repeat split; [by eexists | rewrite length_app; simpl; lia].
Qed.

(** Services without any segmentation, for the examples: element 1 is
    enabled with the viewport "viewport". *)
Definition example_services : Services :=
  {| getEnabledElement := fun e => if (e =? 1)%nat then Some "viewport"%string else None;
     isBaseVolumeViewport := fun _ => false;
     camera_viewPlaneNormal := fun _ => (0, 0, 1)%float;
     camera_viewUp := fun _ => (0, 1, 0)%float;
     getFrameOfReferenceUID := fun _ => ""%string;
     getActiveSegmentation := fun _ => None;
     getActiveSegmentIndex := fun _ => 1;
     getLockedSegmentIndices := fun _ => [];
     getSegmentIndexColor := fun _ _ _ => [];
     labelmapVolumeId := fun _ => ""%string;
     volumeReferencedVolumeId := fun _ => ""%string;
     getCurrentLabelmapImageIdForViewport := fun _ _ => ""%string;
     getViewportIdsWithToolToRender := fun _ => [] |}.

Definition example_idle_tool : State :=
  {| isDrawing := false; editData := None; listeners := [];
     hiddenCursors := []; defaultPrevented := false; renders := [] |}.

Lemma preMouseDownCallback_no_segmentation_witness :
  isDrawing example_idle_tool = false
  /\ (preMouseDownCallback example_services 1%nat (0, 0, 0)%float
        example_idle_tool).1
     = Throw no_active_segmentation.
Proof.
  split; [reflexivity|].
  apply (preMouseDownCallback_no_segmentation example_services 1%nat
           (0, 0, 0)%float example_idle_tool "viewport"); reflexivity.
Defined.

(** C8 as stated fails: with no active segmentation for the viewport, a
    tool that is already drawing returns without throwing.  The first of
    two mouse downs throws and leaves the tool drawing; the second one
    returns. *)
Lemma preMouseDownCallback_silent_when_drawing :
  let first := preMouseDownCallback example_services 1%nat (0, 0, 0)%float
                 example_idle_tool in
  let second := preMouseDownCallback example_services 1%nat (0, 0, 0)%float
                  first.2 in
  getActiveSegmentation example_services "viewport" = None
  /\ first.1 = Throw no_active_segmentation
  /\ isDrawing first.2 = true
  /\ second = (Ok None, first.2).
Proof. vm_compute. repeat split. Qed.

End ScissorsFacts.

(** ** Rectangle scissors: the draw loop *)

Section ScissorsLoop.
Import RectangleScissors.

Lemma filter_all {A} (P : A -> Prop) `{!forall x, Decision (P x)} (l : list A) :
  (forall x, x ∈ l -> P x) -> filter P l = l.
Proof.
  induction l as [|a l IH]; intros Hall; [done|].
  rewrite filter_cons_True by (apply Hall; left).
  f_equal. apply IH. intros x Hx. apply Hall. by right.
Qed.

Lemma filter_none {A} (P : A -> Prop) `{!forall x, Decision (P x)} (l : list A) :
  (forall x, x ∈ l -> ~ P x) -> filter P l = [].
Proof.
  induction l as [|a l IH]; intros Hnone; [done|].
  rewrite filter_cons_False by (apply Hnone; left).
  apply IH. intros x Hx. apply Hnone. by right.
Qed.

Lemma removeEventListeners_filter
    (removed listeners : list (Element * EventType * Handler)) :
  foldl (fun listeners listener => removeEventListener listener listeners)
    listeners removed
  = filter (fun l => l ∉ removed) listeners.
Proof.
  revert listeners. induction removed as [|r removed IH]; intros listeners; simpl.
  - symmetry. apply filter_all. intros l _. apply not_elem_of_nil.
  - rewrite IH. unfold removeEventListener. rewrite list_filter_filter.
    apply list_filter_iff. intros l. rewrite not_elem_of_cons. tauto.
Qed.

Lemma activateDraw_listeners (element : Element) (st : State) :
  exists added,
    listeners (_activateDraw element st) = listeners st ++ added
    /\ forall l, l ∈ added <-> l ∈ draw_listeners element.
Proof.
  eexists. split; [reflexivity|]. intros l. unfold draw_listeners.
  rewrite !elem_of_cons, !elem_of_nil. tauto.
Qed.

(** [_deactivateDraw] undoes [_activateDraw]: on an element that had none
    of the seven listeners of the draw loop, adding them and removing them
    gives back the tool and the listeners as they were.  And whatever the
    listeners were, none of the seven is left after [_deactivateDraw]. *)
Theorem deactivateDraw_undoes_activateDraw (element : Element) (st : State) :
  (forall l, l ∈ draw_listeners element ->
     l ∉ listeners (_deactivateDraw element st))
  /\ ((forall l, l ∈ draw_listeners element -> l ∉ listeners st) ->
      _deactivateDraw element (_activateDraw element st) = st).
Proof.
  split.
  - intros l Hl. unfold _deactivateDraw. cbn [listeners].
    rewrite removeEventListeners_filter, list_elem_of_filter. tauto.
  - intros Hfresh.
    destruct (activateDraw_listeners element st) as (added & Hadded & Hseven).
    assert (Hlisteners : listeners (_deactivateDraw element (_activateDraw element st))
                         = listeners st).
    { unfold _deactivateDraw. cbn [listeners].
      rewrite removeEventListeners_filter, Hadded, filter_app.
      rewrite (filter_all _ (listeners st)).
      2: { intros l Hl Hin. by apply (Hfresh l). }
      assert (filter (fun l => l ∉ draw_listeners element) added = []) as ->.
      { apply filter_none. intros l Hl Hno. by apply Hseven in Hl. }
      apply app_nil_r. }
    destruct st. unfold _deactivateDraw in *. simpl in *. by f_equal.
Qed.

Section EndCallback.

Variable strategy_throws : option string -> EditData -> list Point3 -> option string.

(** A click that did not move the pointer does not end the drawing: right
    after [preMouseDownCallback] has started a rectangle, [_endCallback]
    (which answers the mouse up and the click of the same press) returns
    without doing anything; the tool is still drawing, with its edit data
    and its listeners. *)
Theorem endCallback_without_move (services : Services) (element : Element)
    (worldPos : Point3) (st : State) (viewport segmentation : string)
    (s : Session) :
  isDrawing st = false ->
  getEnabledElement services element = Some viewport ->
  getActiveSegmentation services viewport = Some segmentation ->
  let down := preMouseDownCallback services element worldPos st in
  scissors s = down.2 ->
  down.1 = Ok (Some true)
  /\ _endCallback strategy_throws services element s = (Ok tt, s)
  /\ isDrawing (scissors s) = true
  /\ forall l, l ∈ draw_listeners element -> l ∈ listeners (scissors s).
Proof.
  intros Hidle Henabled Hactive down Hs. subst down.
  unfold _endCallback. rewrite Hs.
  unfold preMouseDownCallback. rewrite Hidle, Henabled, Hactive. simpl.
  split; [done|]. split; [done|]. split; [done|].
  intros l Hl. apply elem_of_app. right.
  unfold draw_listeners in Hl. revert Hl.
  rewrite !elem_of_cons, !elem_of_nil. tauto.
Qed.

(** [_endCallback] on a rectangle that has moved ends the drawing, even
    when the strategy throws: the tool is not drawing any more and has no
    edit data, none of the listeners of the draw loop is left, the cursor
    is reset, and the strategy has been applied once, with the edit data
    and the handles of the annotation.  The memo is closed only when the
    strategy returns.  Without edit data it throws and changes nothing. *)
Theorem endCallback_finishes (services : Services) (element : Element)
    (s : Session) (edit : EditData) :
  editData (scissors s) = Some edit ->
  newAnnotation edit && negb (hasMoved edit) = false ->
  let r := _endCallback strategy_throws services element s in
  let call := (getEnabledElement services element, edit,
               handles_points (annotation edit)) in
  r.1 = match strategy_throws call.1.1 call.1.2 call.2 with
        | Some message => Throw message
        | None => Ok tt
        end
  /\ isDrawing (scissors r.2) = false
  /\ editData (scissors r.2) = None
  /\ listeners (scissors r.2)
     = filter (fun l => l ∉ draw_listeners element) (listeners (scissors s))
  /\ resetCursors r.2 = resetCursors s ++ [element]
  /\ applied r.2 = applied s ++ [call]
  /\ memosDone r.2 = match strategy_throws call.1.1 call.1.2 call.2 with
                      | Some _ => memosDone s
                      | None => S (memosDone s)
                      end
  /\ forall idle, editData (scissors idle) = None ->
       _endCallback strategy_throws services element idle
       = (Throw "TypeError", idle).
Proof.
  intros Hedit Hmoved. cbv zeta. unfold _endCallback. rewrite Hedit, Hmoved.
  cbn [fst snd].
  destruct (strategy_throws _ _ _); cbn [fst snd scissors resetCursors applied
    memosDone set_isDrawing set_editData isDrawing editData listeners
    _deactivateDraw];
    rewrite removeEventListeners_filter;
    (repeat split; try done); intros idle Hnone; by rewrite Hnone.
Qed.

End EndCallback.

End ScissorsLoop.

Section ScissorsLoopExamples.
Import RectangleScissors.

(** The services of the example, with an active segmentation. *)
Definition example_active_services : Services :=
  {| getEnabledElement := getEnabledElement example_services;
     isBaseVolumeViewport := isBaseVolumeViewport example_services;
     camera_viewPlaneNormal := camera_viewPlaneNormal example_services;
     camera_viewUp := camera_viewUp example_services;
     getFrameOfReferenceUID := getFrameOfReferenceUID example_services;
     getActiveSegmentation := fun _ => Some "segmentation"%string;
     getActiveSegmentIndex := getActiveSegmentIndex example_services;
     getLockedSegmentIndices := getLockedSegmentIndices example_services;
     getSegmentIndexColor := getSegmentIndexColor example_services;
     labelmapVolumeId := labelmapVolumeId example_services;
     volumeReferencedVolumeId := volumeReferencedVolumeId example_services;
     getCurrentLabelmapImageIdForViewport :=
       getCurrentLabelmapImageIdForViewport example_services;
     getViewportIdsWithToolToRender :=
       getViewportIdsWithToolToRender example_services |}.

(** The tool right after the mouse went down at the origin. *)
Definition example_pressed : Session :=
  {| scissors := (preMouseDownCallback example_active_services 1%nat
                    (0, 0, 0)%float example_idle_tool).2;
     resetCursors := []; applied := []; memosDone := 0 |}.

(** The same once the pointer has moved. *)
Definition example_moved : Session :=
  {| scissors :=
       set_editData
         ((fun e =>
             {| annotation := annotation e; segmentIndex := segmentIndex e;
                segmentationId := segmentationId e;
                segmentsLocked := segmentsLocked e;
                segmentColor := segmentColor e;
                viewportIdsToRender := viewportIdsToRender e;
                handleIndex := handleIndex e; movingTextBox := movingTextBox e;
                newAnnotation := newAnnotation e; hasMoved := true;
                volumeId := volumeId e;
                referencedVolumeId := referencedVolumeId e;
                imageId := imageId e |}) <$> editData (scissors example_pressed))
         (scissors example_pressed);
     resetCursors := []; applied := []; memosDone := 0 |}.

Lemma endCallback_without_move_witness :
  (isDrawing example_idle_tool = false
   /\ getEnabledElement example_active_services 1%nat = Some "viewport"%string
   /\ getActiveSegmentation example_active_services "viewport"
      = Some "segmentation"%string)
  /\ _endCallback (fun _ _ _ => None) example_active_services 1%nat
       example_pressed
     = (Ok tt, example_pressed).
Proof.
  split; [by repeat split|].
  apply (endCallback_without_move (fun _ _ _ => None) example_active_services
           1%nat (0, 0, 0)%float example_idle_tool "viewport" "segmentation"
           example_pressed); reflexivity.
Defined.

Lemma endCallback_finishes_witness :
  let r := _endCallback (fun _ _ _ => Some "Oblique"%string)
             example_active_services 1%nat example_moved in
  (exists edit,
     editData (scissors example_moved) = Some edit
     /\ newAnnotation edit && negb (hasMoved edit) = false)
  /\ r.1 = Throw "Oblique"
  /\ isDrawing (scissors r.2) = false
  /\ listeners (scissors r.2) = [].
Proof.
  intros r.
  assert (Hedit : exists edit,
            editData (scissors example_moved) = Some edit
            /\ newAnnotation edit && negb (hasMoved edit) = false)
    by (eexists; split; reflexivity).
  split; [exact Hedit|]. destruct Hedit as (edit & Hedit & Hmoved).
  destruct (endCallback_finishes (fun _ _ _ => Some "Oblique"%string)
              example_active_services 1%nat example_moved edit Hedit Hmoved)
    as (Hthrow & Hidle & _ & Hlisteners & _).
  split; [exact Hthrow|]. split; [exact Hidle|].
  subst r. rewrite Hlisteners. reflexivity.
Defined.

End ScissorsLoopExamples.

(** ** Multiframe image ids *)

Section MultiframeFacts.
Import Multiframe.

Example imageIdFrameless_wadors :
  imageIdFrameless "wadors:https://server/studies/1/series/2/instances/3/frames/1"
  = "wadors:https://server/studies/1/series/2/instances/3/frames/"%string.
Proof. vm_compute. reflexivity. Qed.

Example imageIdFrameless_no_frames :
  imageIdFrameless "wadouri:https://server/image.dcm" = "wadouri"%string.
Proof. vm_compute. reflexivity. Qed.

Example frameImageId_12 :
  frameImageId "x/frames/" 11 = "x/frames/12"%string.
Proof. vm_compute. reflexivity. Qed.

Lemma substring_split (s : string) (k m : nat) :
  String.substring 0 (k + m) s
  = String.substring 0 k s +:+ String.substring k m s.
Proof.
  revert s. induction k as [|k IH]; intros s; simpl.
  - by destruct m, s.
  - destruct s as [|c s]; simpl; [by destruct m|]. by rewrite IH.
Qed.

(** The prefix taken of an image id ends with its first '/frames/'. *)
Lemma imageIdFrameless_prefix (imageId : string) (k : nat) :
  String.index 0 "/frames/" imageId = Some k ->
  imageIdFrameless imageId = String.substring 0 k imageId +:+ "/frames/".
Proof.
  intros Hindex. unfold imageIdFrameless, indexOf_frames. rewrite Hindex.
  replace (Z.to_nat (Z.of_nat k + 8)) with (k + 8)%nat by lia.
  rewrite substring_split. f_equal.
  apply (String.index_correct1 0 k "/frames/" imageId Hindex).
Qed.

(** Of an image id without '/frames/' the prefix is the first seven
    characters: [indexOf] gives -1, and the slice ends at 7. *)
Lemma imageIdFrameless_short (imageId : string) :
  String.index 0 "/frames/" imageId = None ->
  imageIdFrameless imageId = String.substring 0 7 imageId.
Proof.
  intros Hindex. unfold imageIdFrameless, indexOf_frames. by rewrite Hindex.
Qed.

Section Convert.
Variable metaData_get : string -> option MultiframeModule.

(** The number of frames of a multiframe image id: more than one. *)
Definition multiframe (imageId : string) : option Z :=
  match metaData_get imageId with
  | Some {| NumberOfFrames := Some n |} => if 1 <? n then Some n else None
  | _ => None
  end.

(** What an image id is replaced by, in the words of the specification:
    itself, or the ids of its frames 1..n for which metadata exists. *)
Definition frames_of (imageId : string) : list string :=
  match multiframe imageId with
  | Some n =>
      filter (fun frame => is_Some (metaData_get frame))
        ((fun i => imageIdFrameless imageId +:+ pretty i) <$> seqZ 1 n)
  | None => [imageId]
  end.

Lemma push_frames (prefix : string) (frames : list Z) (acc : list string) :
  fold_left (push_frame metaData_get prefix) frames acc
  = acc ++ filter (fun frame => is_Some (metaData_get frame))
             ((fun i => prefix +:+ pretty (i + 1)) <$> frames).
Proof.
  revert acc. induction frames as [|i frames IH]; intros acc; simpl.
  - by rewrite app_nil_r.
  - rewrite IH. unfold push_frame, frameImageId.
    rewrite filter_cons.
    change (list_fmap Z string ?f ?l) with (f <$> l).
    destruct (metaData_get (prefix +:+ pretty (i + 1))) as [m|] eqn:Hm.
    + rewrite decide_True by eauto. by rewrite <- app_assoc.
    + rewrite decide_False by (by intros [? ?]). done.
Qed.

Lemma convert_one_frames (acc : list string) (imageId : string) :
  convert_one metaData_get acc imageId = acc ++ frames_of imageId.
Proof.
  unfold convert_one, frames_of, multiframe.
  destruct (metaData_get imageId) as [[[n|]]|]; try done.
  case_bool_decide as Hzero; [by subst n|].
  destruct (1 <? n) eqn:Hn; [|done].
  rewrite push_frames. do 2 f_equal.
  replace (seqZ 1 n) with (Z.add 1 <$> seqZ 0 n)
    by (by rewrite fmap_add_seqZ).
  rewrite <- list_fmap_compose.
  apply list_fmap_ext. intros _ i _. simpl. do 2 f_equal. lia.
Qed.

Lemma frames_of_single (imageId : string) :
  (metaData_get imageId = None
   \/ exists m, metaData_get imageId = Some m
        /\ forall n, NumberOfFrames m = Some n -> n <= 1) ->
  frames_of imageId = [imageId].
Proof.
  unfold frames_of, multiframe. intros [-> | (m & -> & Hn)]; [done|].
  destruct m as [[n|]]; [|done]. specialize (Hn n eq_refl).
  by replace (1 <? n) with false by lia.
Qed.

Lemma frames_of_multiframe (imageId : string) (m : MultiframeModule) (n : Z) :
  metaData_get imageId = Some m -> NumberOfFrames m = Some n -> 1 < n ->
  frames_of imageId
  = filter (fun frame => is_Some (metaData_get frame))
      ((fun i => imageIdFrameless imageId +:+ pretty i) <$> seqZ 1 n)
  /\ forall frame,
       frame ∈ frames_of imageId
       <-> exists i, 1 <= i <= n
             /\ frame = imageIdFrameless imageId +:+ pretty i
             /\ is_Some (metaData_get frame).
Proof.
  intros Hm Hn Hgt.
  assert (Heq : frames_of imageId
                = filter (fun frame => is_Some (metaData_get frame))
                    ((fun i => imageIdFrameless imageId +:+ pretty i)
                       <$> seqZ 1 n)).
  { unfold frames_of, multiframe. rewrite Hm. destruct m as [o].
    simpl in Hn. subst o. by replace (1 <? n) with true by lia. }
  split; [exact Heq|]. intros frame. rewrite Heq.
  rewrite list_elem_of_filter, list_elem_of_fmap. split.
  - intros (Hsome & i & -> & Hi). apply elem_of_seqZ in Hi.
    exists i. split; [lia | done].
  - intros (i & Hi & -> & Hsome). split; [done|]. exists i.
    split; [done|]. apply elem_of_seqZ. lia.
Qed.

(** [convertMultiframeImageIds] returns, for the image ids of its input
    in their order, one piece each: the id itself when it has no
    MultiframeModule metadata or at most one frame, and otherwise the ids
    made of a prefix of the id and a frame number among 1..n, exactly those
    for which MultiframeModule metadata exists, by increasing frame number.
    The prefix is the id up to and including its first '/frames/', and the
    first seven characters of an id that has no '/frames/'.  Nothing else
    is in the output. *)
Theorem convertMultiframeImageIds_frames (imageIds : list string) :
  convertMultiframeImageIds metaData_get imageIds = imageIds ≫= frames_of
  /\ (forall imageId,
        (metaData_get imageId = None
         \/ exists m, metaData_get imageId = Some m
              /\ forall n, NumberOfFrames m = Some n -> n <= 1) ->
        frames_of imageId = [imageId])
  /\ (forall imageId m n,
        metaData_get imageId = Some m -> NumberOfFrames m = Some n -> 1 < n ->
        frames_of imageId
        = filter (fun frame => is_Some (metaData_get frame))
            ((fun i => imageIdFrameless imageId +:+ pretty i) <$> seqZ 1 n))
  /\ (forall imageId,
        imageIdFrameless imageId
        = match String.index 0 "/frames/" imageId with
          | Some k => String.substring 0 k imageId +:+ "/frames/"
          | None => String.substring 0 7 imageId
          end).
Proof.
  split; [|split; [apply frames_of_single | split]].
  - unfold convertMultiframeImageIds.
    assert (Hacc : forall acc,
              fold_left (convert_one metaData_get) imageIds acc
              = acc ++ (imageIds ≫= frames_of)).
    { induction imageIds as [|imageId rest IH]; intros acc; simpl.
      - by rewrite app_nil_r.
      - rewrite IH, convert_one_frames. by rewrite <- app_assoc. }
    apply Hacc.
  - intros imageId m n Hm Hn Hgt.
    apply (frames_of_multiframe imageId m n Hm Hn Hgt).
  - intros imageId.
    destruct (String.index 0 "/frames/" imageId) as [k|] eqn:Hindex;
      [by apply imageIdFrameless_prefix | by apply imageIdFrameless_short].
Qed.

End Convert.

(** Metadata for a three-frame instance and for its frames 1 and 3. *)
Definition example_metaData (imageId : string) : option MultiframeModule :=
  if bool_decide (imageId = "wadors:/instances/7/frames/1"%string)
  then Some {| NumberOfFrames := Some 3 |}
  else if bool_decide (imageId = "wadors:/instances/7/frames/3"%string)
  then Some {| NumberOfFrames := Some 3 |}
  else if bool_decide (imageId = "wadors:/instances/8/frames/1"%string)
  then Some {| NumberOfFrames := Some 1 |}
  else None.

Example convertMultiframeImageIds_example :
  convertMultiframeImageIds example_metaData
    ["wadors:/instances/8/frames/1"; "wadors:/instances/7/frames/1";
     "wadors:/instances/9"]%string
  = ["wadors:/instances/8/frames/1"; "wadors:/instances/7/frames/1";
     "wadors:/instances/7/frames/3"; "wadors:/instances/9"]%string.
Proof. vm_compute. reflexivity. Qed.



End MultiframeFacts.

(** ** Multiframe image ids: lists of image ids *)

Section MultiframeLists.
Import Multiframe.

Variable metaData_get : string -> option MultiframeModule.

Lemma convert_from (acc imageIds : list string) :
  fold_left (convert_one metaData_get) imageIds acc
  = acc ++ convertMultiframeImageIds metaData_get imageIds.
Proof.
  unfold convertMultiframeImageIds. revert acc.
  induction imageIds as [|imageId imageIds IH]; intros acc; simpl.
  - by rewrite app_nil_r.
  - rewrite IH, (IH (convert_one metaData_get [] imageId)).
    rewrite !convert_one_frames. by rewrite app_assoc.
Qed.

(** The image ids are converted one by one and in order: the conversion
    of two lists put together is the conversions of the two put together,
    an empty list gives an empty list, and the result is never shorter
    than the number of image ids that are not multiframe. *)
Theorem convertMultiframeImageIds_app (imageIds1 imageIds2 : list string) :
  convertMultiframeImageIds metaData_get (imageIds1 ++ imageIds2)
  = convertMultiframeImageIds metaData_get imageIds1
    ++ convertMultiframeImageIds metaData_get imageIds2
  /\ convertMultiframeImageIds metaData_get [] = []
  /\ (length (filter (fun imageId => multiframe metaData_get imageId = None)
                imageIds1)
      <= length (convertMultiframeImageIds metaData_get imageIds1))%nat.
Proof.
  split; [|split; [reflexivity|]].
  - unfold convertMultiframeImageIds at 1. rewrite fold_left_app.
    fold (convertMultiframeImageIds metaData_get imageIds1).
    apply convert_from.
  - induction imageIds1 as [|imageId imageIds IH]; [done|].
    change (imageId :: imageIds) with ([imageId] ++ imageIds).
    unfold convertMultiframeImageIds at 1. rewrite fold_left_app.
    rewrite convert_from, filter_app, !length_app.
    apply Nat.add_le_mono; [|exact IH].
    simpl. rewrite convert_one_frames. unfold frames_of. simpl.
    destruct (multiframe metaData_get imageId) eqn:Hmulti.
    + rewrite filter_cons_False by (rewrite Hmulti; done). simpl. lia.
    + rewrite filter_cons_True by done. simpl. lia.
Qed.

End MultiframeLists.

(** ** Sphere fill *)

Section SphereFacts.
Import Sphere.

(** C10.  Every call of [fillOutsideSphere] throws an Error with the
    message 'fill outside sphere not implemented', whatever the arguments
    and the state, and it changes nothing. *)
Theorem fillOutsideSphere_throws {Arguments State : Type}
    (arguments : Arguments) (st : State) :
  exists message,
    fillOutsideSphere arguments st = (Throw message, st)
    /\ message = "fill outside sphere not implemented"%string.
Proof. eexists. split; reflexivity. Qed.

End SphereFacts.

(** ** Annotations within a slice *)

Section FilterFacts.
Import AnnotationFilter.

Variable isEqual : float -> float -> bool.
Variable EPSILON : float.
Variable float32 : float -> float.
Variable imageOrientationPatient : string -> option (list float).

(** The filter writes the view plane normal and the camera focal point of
    an annotation's metadata, and nothing else of it. *)
Definition same_but_normal (a a' : Annotation) : Prop :=
  handles_points a' = handles_points a
  /\ contour_polyline a' = contour_polyline a
  /\ isVisible a' = isVisible a
  /\ planeRestriction (metadata a') = planeRestriction (metadata a)
  /\ referencedImageId (metadata a') = referencedImageId (metadata a)
  /\ FrameOfReferenceUID (metadata a') = FrameOfReferenceUID (metadata a).

Lemma same_but_normal_refl (a : Annotation) : same_but_normal a a.
Proof. by repeat split. Qed.

Lemma parallel_normals_same (camera : Camera) (td : Annotation) :
  same_but_normal td
    (parallel_normals isEqual EPSILON float32 imageOrientationPatient camera td).2.
Proof.
  unfold parallel_normals.
  destruct (planeRestriction (metadata td)) as [restriction|].
  - destruct (inPlaneVector1 restriction) as [v1|];
      [destruct (negb _)|]; try apply same_but_normal_refl;
      destruct (inPlaneVector2 restriction) as [v2|];
      [destruct (negb _)| |destruct (negb _)|]; apply same_but_normal_refl.
  - destruct (_ && _ && _).
    + destruct (forallb _ _); [by repeat split | apply same_but_normal_refl].
    + destruct (AnnotationFilter.viewPlaneNormal (metadata td)) as [normal|];
        [apply same_but_normal_refl|].
      destruct (referencedImageId (metadata td)) as [imageId|];
        [|apply same_but_normal_refl].
      destruct (truthy (Some imageId)); [|apply same_but_normal_refl].
      destruct (imageOrientationPatient imageId);
        [by repeat split | apply same_but_normal_refl].
Qed.

Lemma filter_parallel_sublist (camera : Camera) (annotations : list Annotation) :
  let r := filter_parallel isEqual EPSILON float32 imageOrientationPatient camera
             annotations in
  Forall2 same_but_normal annotations r.2
  /\ forall kept, r.1 = Ok kept -> sublist kept r.2.
Proof.
  induction annotations as [|td rest IH]; simpl.
  - split; [constructor|]. intros kept [= <-]. constructor.
  - pose proof (parallel_normals_same camera td) as Hsame.
    destruct (parallel_normals _ _ _ _ camera td) as [[keep|message] td'];
      simpl in *.
    + destruct (filter_parallel _ _ _ _ camera rest) as [[kept'|message] rest'];
        simpl in *; destruct IH as [Hrest Hkept].
      * split; [by constructor|]. intros kept [= <-].
        destruct keep; [apply sublist_skip | apply sublist_cons]; by apply Hkept.
      * split; [by constructor | done].
    + split; [|done]. constructor; [done|].
      clear. induction rest; constructor; [apply same_but_normal_refl | done].
Qed.

Lemma filter_sublist {A} (f : A -> bool) (l : list A) :
  sublist (List.filter f l) l.
Proof.
  induction l as [|a l IH]; simpl; [constructor|].
  destruct (f a); [by apply sublist_skip | by apply sublist_cons].
Qed.

(** [filterAnnotationsWithinSlice] returns some of the annotations it is
    given, in their order, and only visible ones.  Of the annotations
    themselves it changes nothing but the view plane normal and the camera
    focal point of their metadata.  No annotations give none. *)
Theorem filterAnnotationsWithinSlice_sublist (annotations : list Annotation)
    (camera : Camera) (spacingInNormalDirection : float) :
  let filter := filterAnnotationsWithinSlice isEqual EPSILON float32
                  imageOrientationPatient in
  let r := filter annotations camera spacingInNormalDirection in
  Forall2 same_but_normal annotations r.2
  /\ (forall kept, r.1 = Ok kept ->
        sublist kept r.2 /\ Forall (fun a => isVisible a = true) kept)
  /\ filter [] camera spacingInNormalDirection = (Ok [], []).
Proof.
  cbv zeta. unfold filterAnnotationsWithinSlice.
  destruct (filter_parallel_sublist camera annotations) as [Hsame Hsub].
  destruct (filter_parallel _ _ _ _ camera annotations) as [[parallel|message] updated];
    simpl in *.
  - split; [done|]. split; [|done]. intros kept [= <-]. split.
    + etransitivity; [apply filter_sublist | by apply Hsub].
    + apply Forall_forall. intros a Ha. apply list_elem_of_In in Ha.
      apply filter_In in Ha as [_ Hin]. unfold within_slice in Hin.
      by destruct (isVisible a).
  - by split.
Qed.

(** A visible annotation that has a view plane normal and no plane
    restriction is returned exactly when its normal is parallel to the
    camera's (the absolute value of their dot product is above
    [1 - EPSILON]) and its first point is less than half the spacing from
    the plane of the focal point, along the camera's normal; the
    annotation is not changed. *)
Theorem filterAnnotationsWithinSlice_single (annotation : Annotation)
    (camera : Camera) (spacingInNormalDirection : float)
    (normal point : Point3) :
  planeRestriction (metadata annotation) = None ->
  AnnotationFilter.viewPlaneNormal (metadata annotation) = Some normal ->
  isVisible annotation = true ->
  first_point annotation = Some point ->
  let parallel :=
    (1 - EPSILON <? abs (dot (camera_viewPlaneNormal camera) normal))%float in
  let near :=
    (abs (dot (sub float32 (focalPoint camera) point)
            (camera_viewPlaneNormal camera))
     <? spacingInNormalDirection / 2)%float in
  filterAnnotationsWithinSlice isEqual EPSILON float32 imageOrientationPatient
    [annotation] camera spacingInNormalDirection
  = (Ok (if parallel && near then [annotation] else []), [annotation]).
Proof.
  intros Hrestriction Hnormal Hvisible Hpoint parallel near.
  unfold filterAnnotationsWithinSlice, filter_parallel, parallel_normals.
  rewrite Hrestriction, Hnormal.
  assert (bool_decide (is_Some (Some normal)) = true) as ->
    by (apply bool_decide_eq_true; eauto).
  rewrite andb_false_r. cbn [negb andb].
  unfold PARALLEL_THRESHOLD. fold parallel.
  destruct parallel; cbn [List.filter andb]; [|done].
  unfold within_slice. rewrite Hvisible, Hpoint. cbn [negb]. fold near.
  by destruct near.
Qed.

End FilterFacts.

Section FilterExamples.
Import AnnotationFilter.

(** An annotation drawn on the axial slice at z = 10. *)
Definition example_annotation : Annotation :=
  {| metadata :=
       {| planeRestriction := None; referencedImageId := Some "image:1"%string;
          viewPlaneNormal := Some (0, 0, 1)%float;
          FrameOfReferenceUID := Some "frame"%string; cameraFocalPoint := None |};
     handles_points := [(3, 4, 10)%float; (5, 6, 10)%float];
     contour_polyline := None; isVisible := true |}.

Definition example_axial_camera : Camera :=
  {| camera_viewPlaneNormal := (0, 0, -1)%float;
     focalPoint := (0, 0, 10.5)%float |}.

Lemma filterAnnotationsWithinSlice_single_witness :
  let isEqual := fun a b : float => (abs (a - b) <=? 0.5)%float in
  (planeRestriction (metadata example_annotation) = None
   /\ AnnotationFilter.viewPlaneNormal (metadata example_annotation)
      = Some (0, 0, 1)%float
   /\ isVisible example_annotation = true
   /\ first_point example_annotation = Some (3, 4, 10)%float)
  /\ filterAnnotationsWithinSlice isEqual 0.25 (fun x => x) (fun _ => None)
       [example_annotation] example_axial_camera 2
     = (Ok [example_annotation], [example_annotation]).
Proof.
  intros isEqual. split; [by repeat split|].
  by rewrite (filterAnnotationsWithinSlice_single isEqual 0.25 (fun x => x)
                (fun _ => None) example_annotation example_axial_camera 2
                (0, 0, 1)%float (3, 4, 10)%float eq_refl eq_refl eq_refl eq_refl).
Defined.

End FilterExamples.
